(** * The AIDL compiler front end (aidl.cpp): validation and driver

    A shallow embedding of the validation functions and of the driver of
    [aidl.cpp], and the properties of them that the specification states.

    The build modelled is the Linux one: [_WIN32] is not defined,
    [__linux__] is, and [OS_PATH_SEPARATOR] is ['/'].  Text written to
    [stderr] is kept as a list of structured diagnostics, one constructor per
    [fprintf] / [cerr <<] statement of aidl.cpp, in the order written; what
    the parser and the type namespace print themselves is not in the list. *)

From stdpp Require Import gmap strings list fin_maps.
From Stdlib Require Import ZArith Ascii.

Open Scope string_scope.
Open Scope list_scope.
Open Scope Z_scope.

(** ** Machine integers *)

(** The value of a C++ [int], 32 bits wide in two's complement, that a
    mathematical integer wraps to. *)
Definition to_int (z : Z) : Z := (z + 2 ^ 31) `mod` 2 ^ 32 - 2 ^ 31.

(** ** The syntax tree (aidl_language.h) *)

(** Modelled from the spec: the classes [AidlType], [AidlArgument],
    [AidlMethod], [AidlInterface] and [AidlParcelable] are declared in
    aidl_language.h, which is not among the sources.  The records below carry
    the fields the specification's data model lists, under the accessor
    names that aidl.cpp calls. *)

Inductive Direction := IN_DIR | OUT_DIR | INOUT_DIR.

Record AidlType := mkType {
  type_name : string;
  type_is_array : bool;
}.

Record AidlArgument := mkArg {
  arg_type : AidlType;
  arg_name : string;
  arg_direction : Direction;
}.

(** Modelled from the spec: [AidlArgument::IsOut].  The specification gives
    an argument a directionality in {in, out, inout}, and the oneway rule
    speaks of an argument that is out or inout. *)
Definition IsOut (a : AidlArgument) : bool :=
  match arg_direction a with
  | IN_DIR => false
  | OUT_DIR | INOUT_DIR => true
  end.

Record AidlMethod := mkMethod {
  method_oneway : bool;
  method_type : AidlType;
  method_name : string;
  method_arguments : list AidlArgument;
  method_line : Z;
  has_id_ : bool;
  id_ : Z;
}.

Definition HasId (m : AidlMethod) : bool := has_id_ m.
Definition GetId (m : AidlMethod) : Z := id_ m.

(** Modelled from the spec: [AidlMethod::SetId] stores the identifier; every
    other field of the method is left as it is. *)
Definition SetId (m : AidlMethod) (id : Z) : AidlMethod :=
  {| method_oneway := method_oneway m;
     method_type := method_type m;
     method_name := method_name m;
     method_arguments := method_arguments m;
     method_line := method_line m;
     has_id_ := has_id_ m;
     id_ := id |}.

Record AidlInterface := mkInterface {
  iface_name : string;
  iface_line : Z;
  iface_comments : string;
  iface_oneway : bool;
  iface_methods : list AidlMethod;
  iface_package : list string;
}.

Record AidlParcelable := mkParcelable {
  parcel_name : string;
  parcel_line : Z;
  parcel_package : list string;
}.

(** ** Diagnostics *)

Inductive Diag :=
  | DiagShouldBeDeclaredIn (filename : string) (line : Z) (name expected : string)
  | DiagOnewayReturnsValue (filename : string) (line : Z) (method : string)
  | DiagOnewayOutParameter (filename : string) (line : Z) (method : string)
  | DiagRedefinedMethod (filename : string) (line : Z) (method : string) (previous_line : Z)
  | DiagDuplicateMethodId (filename : string) (line id : Z) (method : string)
  | DiagOutOfBoundsId (filename : string) (line id : Z) (method : string)
  | DiagIdBounds (lo hi : Z)
  | DiagMixedIds (filename : string)
  | DiagCannotOpenPreprocessed (filename : string)
  | DiagBadTypeInLine (filename : string) (lineno : Z) (line : string)
  | DiagGatherPreprocessedFailed
  | DiagLineTooLong (filename : string) (lineno : Z)
  | DiagOneInterfacePerFile
  | DiagImportNotFound (file_from : string) (line : Z) (needed_class : string)
  | DiagImportParseError (needed_class : string)
  | DiagInvalidPackage (package : string)
  | DiagCannotOpenForWrite (filename : string)
  | DiagWriteError (filename : string).

(** ** Method identifiers: [check_and_assign_method_ids] *)

Definition kMinUserSetMethodId : Z := 0.
Definition kMaxUserSetMethodId : Z := 16777214.

(** The first loop of [check_and_assign_method_ids].  [inl] is an early
    [return 1] with what was printed; [inr] is the loop running to its end,
    with the final value of [hasUnassignedIds]. *)
Fixpoint scan_method_ids (filename : string) (items : list AidlMethod)
    (usedIds : gset Z) (hasUnassignedIds hasAssignedIds : bool)
    : list Diag + bool :=
  match items with
  | [] => inr hasUnassignedIds
  | item :: rest =>
      if HasId item then
        if decide (GetId item ∈ usedIds) then
          inl [DiagDuplicateMethodId filename (method_line item) (GetId item)
                 (method_name item)]
        else if (GetId item <? kMinUserSetMethodId)
                || (GetId item >? kMaxUserSetMethodId) then
          inl [DiagOutOfBoundsId filename (method_line item) (GetId item)
                 (method_name item);
               DiagIdBounds kMinUserSetMethodId kMaxUserSetMethodId]
        else if true && hasUnassignedIds then
          inl [DiagMixedIds filename]
        else
          scan_method_ids filename rest ({[GetId item]} ∪ usedIds)
            hasUnassignedIds true
      else
        if hasAssignedIds && true then
          inl [DiagMixedIds filename]
        else
          scan_method_ids filename rest usedIds true hasAssignedIds
  end.

(** The second loop: [item->SetId(newId++)] over the methods in order. *)
Fixpoint assign_method_ids (newId : Z) (items : list AidlMethod)
    : list AidlMethod :=
  match items with
  | [] => []
  | item :: rest => SetId item newId :: assign_method_ids (to_int (newId + 1)) rest
  end.

Record IdsResult := mkIdsResult {
  ids_return : Z;
  ids_methods : list AidlMethod;
  ids_stderr : list Diag;
}.

Definition check_and_assign_method_ids (filename : string)
    (items : list AidlMethod) : IdsResult :=
  match scan_method_ids filename items ∅ false false with
  | inl printed => mkIdsResult 1 items printed
  | inr hasUnassignedIds =>
      if hasUnassignedIds then mkIdsResult 0 (assign_method_ids 0 items) []
      else mkIdsResult 0 items []
  end.

(** ** Strings, as [std::string] and C strings are used *)

Definition OS_PATH_SEPARATOR : ascii := "/"%char.

(** [s[i] = c ? d : s[i]] for every position of [s]. *)
Fixpoint replace_char (c d : ascii) (s : string) : string :=
  match s with
  | EmptyString => EmptyString
  | String a rest =>
      String (if Ascii.eqb a c then d else a) (replace_char c d rest)
  end.

(** [s.substr(0, s.find(c))]: the characters before the first [c], all of
    [s] when it has none ([find] gives [npos]). *)
Fixpoint before_first (c : ascii) (s : string) : string :=
  match s with
  | EmptyString => EmptyString
  | String a rest =>
      if Ascii.eqb a c then EmptyString else String a (before_first c rest)
  end.

Fixpoint string_drop (n : nat) (s : string) : string :=
  match n, s with
  | O, _ => s
  | S n', String _ rest => string_drop n' rest
  | S _, EmptyString => EmptyString
  end.

Fixpoint last_char (s : string) : option ascii :=
  match s with
  | EmptyString => None
  | String a EmptyString => Some a
  | String _ rest => last_char rest
  end.

Definition first_char (s : string) : option ascii :=
  match s with
  | EmptyString => None
  | String a _ => Some a
  end.

(** [android::base::Join(parts, sep)]. *)
Fixpoint Join (sep : string) (parts : list string) : string :=
  match parts with
  | [] => EmptyString
  | [p] => p
  | p :: rest => p +:+ sep +:+ Join sep rest
  end.

(** Modelled from the spec: [GetPackage] of a declaration is its package in
    the canonical string form, the components joined by dots. *)
Definition iface_GetPackage (c : AidlInterface) : string :=
  Join "." (iface_package c).
Definition parcel_GetPackage (p : AidlParcelable) : string :=
  Join "." (parcel_package p).

(** ** File names: [check_filename] *)

(** [cwd] is what [getcwd] returns, the absolute path of the working
    directory (never empty).  The file name carries no NUL character, so that
    comparing [expected] with the C string [p] compares it with the tail of
    [fn]. *)
Definition absolute_name (cwd filename : string) : string :=
  if bool_decide (first_char filename = Some OS_PATH_SEPARATOR) then filename
  else
    let fn := cwd in
    let fn :=
      if bool_decide (last_char fn = Some OS_PATH_SEPARATOR) then fn
      else fn +:+ String OS_PATH_SEPARATOR EmptyString in
    fn +:+ filename.

Definition expected_name (package name : string) : string :=
  let expected :=
    if bool_decide (package = EmptyString) then EmptyString
    else package +:+ "." in
  let expected := replace_char "."%char OS_PATH_SEPARATOR expected in
  let expected := expected +:+ before_first "."%char name in
  expected +:+ ".aidl".

Definition check_filename (cwd : string) (filename package name : string)
    (line : Z) : bool * list Diag :=
  let fn := absolute_name cwd filename in
  let expected := expected_name package name in
  let len := String.length fn in
  let valid := bool_decide (String.length expected ≤ len)%nat in
  let valid :=
    if valid then
      let p := string_drop (len - String.length expected) fn in
      bool_decide (expected = p)
    else valid in
  (valid,
   if valid then []
   else [DiagShouldBeDeclaredIn filename line name expected]).

(** The rule as the specification words it: the path is cut into its
    components at the separators, and its trailing components are those of
    [package_as_path/name.aidl]. *)
Fixpoint split_on (c : ascii) (cur : string) (s : string) : list string :=
  match s with
  | EmptyString => [cur]
  | String a rest =>
      if Ascii.eqb a c then cur :: split_on c EmptyString rest
      else split_on c (cur +:+ String a EmptyString) rest
  end.

Definition path_components (path : string) : list string :=
  split_on OS_PATH_SEPARATOR EmptyString path.

Definition tail_components_match (cwd filename package name : string) : Prop :=
  path_components (expected_name package name)
    `suffix_of` path_components (absolute_name cwd filename).

(** ** The type namespace (type_namespace.h) *)

(** The operations of [TypeNamespace] that aidl.cpp calls, over the state
    [NS] of a namespace object.  The operations that register types return
    the namespace as they leave it; the others are [const] member
    functions. *)
Record TypeNamespace (NS : Type) := mkTypeNamespace {
  AddParcelableType : NS → AidlParcelable → string → bool * NS;
  AddBinderType : NS → AidlInterface → string → bool * NS;
  MaybeAddContainerType : NS → string → bool * NS;
  HasType : NS → string → bool;
  IsValidPackage : NS → string → bool;
  IsValidReturnType : NS → AidlType → string → bool;
  IsValidArg : NS → AidlArgument → Z → string → bool;
}.
Arguments AddParcelableType {NS}.
Arguments AddBinderType {NS}.
Arguments MaybeAddContainerType {NS}.
Arguments HasType {NS}.
Arguments IsValidPackage {NS}.
Arguments IsValidReturnType {NS}.
Arguments IsValidArg {NS}.

(** ** Method signatures: [check_types] *)

(** The variables of [check_types] that its loops update. *)
Record CheckState (NS : Type) := mkCheckState {
  cs_types : NS;
  cs_err : Z;
  cs_stderr : list Diag;
  cs_method_names : gmap string AidlMethod;
}.
Arguments mkCheckState {NS}.
Arguments cs_types {NS}.
Arguments cs_err {NS}.
Arguments cs_stderr {NS}.
Arguments cs_method_names {NS}.

Section check_types.
Context {NS : Type} (T : TypeNamespace NS).

(** [!types->MaybeAddContainerType(name) || !types->IsValidArg(...)], with
    the namespace as the call leaves it; the second operand is evaluated
    only when the first is false. *)
Definition arg_type_invalid (types : NS) (arg : AidlArgument) (index : Z)
    (filename : string) : bool * NS :=
  let '(added, types) :=
    MaybeAddContainerType T types (type_name (arg_type arg)) in
  (if negb added then true else negb (IsValidArg T types arg index filename),
   types).

Definition return_type_invalid (types : NS) (m : AidlMethod)
    (filename : string) : bool * NS :=
  let '(added, types) :=
    MaybeAddContainerType T types (type_name (method_type m)) in
  (if negb added then true
   else negb (IsValidReturnType T types (method_type m) filename),
   types).

(** The body of the loop over the arguments of [m].  [index] is the local
    variable of that name: the loop passes it on and never changes it. *)
Definition check_argument (filename : string) (m : AidlMethod)
    (oneway : bool) (index : Z) (st : CheckState NS) (arg : AidlArgument)
    : CheckState NS :=
  let '(invalid, types) :=
    arg_type_invalid (cs_types st) arg index filename in
  let err := if invalid then 1 else cs_err st in
  if oneway && IsOut arg then
    mkCheckState types 1
      (cs_stderr st ++
         [DiagOnewayOutParameter filename (method_line m) (method_name m)])
      (cs_method_names st)
  else
    mkCheckState types err (cs_stderr st) (cs_method_names st).

(** The body of the loop over the methods of [c]. *)
Definition check_method (filename : string) (c : AidlInterface)
    (st : CheckState NS) (m : AidlMethod) : CheckState NS :=
  let oneway := method_oneway m || iface_oneway c in
  let '(invalid, types) := return_type_invalid (cs_types st) m filename in
  let err := if invalid then 1 else cs_err st in
  let returns_value :=
    oneway && negb (bool_decide (type_name (method_type m) = "void")) in
  let st :=
    mkCheckState types (if returns_value then 1 else err)
      (cs_stderr st ++
         (if returns_value then
            [DiagOnewayReturnsValue filename (method_line m) (method_name m)]
          else []))
      (cs_method_names st) in
  let index := 1 in
  let st := foldl (check_argument filename m oneway index) st
              (method_arguments m) in
  match cs_method_names st !! method_name m with
  | None =>
      mkCheckState (cs_types st) (cs_err st) (cs_stderr st)
        (<[method_name m := m]> (cs_method_names st))
  | Some previous =>
      mkCheckState (cs_types st) 1
        (cs_stderr st ++
           [DiagRedefinedMethod filename (method_line m) (method_name m)
              (method_line previous)])
        (cs_method_names st)
  end.

Definition check_types (filename : string) (c : AidlInterface) (types : NS)
    : Z * NS * list Diag :=
  let st := foldl (check_method filename c) (mkCheckState types 0 [] ∅)
              (iface_methods c) in
  (cs_err st, cs_types st, cs_stderr st).

(** *** What [check_types] is to find, stated on the interface *)

(** The type names handed to [MaybeAddContainerType], in the order of the
    declaration: for each method its return type, then its arguments'. *)
Definition method_type_names (m : AidlMethod) : list string :=
  type_name (method_type m)
    :: ((λ a, type_name (arg_type a)) <$> method_arguments m).

Definition types_after (types : NS) (names : list string) : NS :=
  foldl (λ ns name, (MaybeAddContainerType T ns name).2) types names.

(** What the namespace has against a type, stated on its operations: a
    return type is rejected in the namespace [types] when
    [MaybeAddContainerType] fails for its name or when the namespace, as
    that call leaves it, does not hold it a valid return type; likewise an
    argument, asked about as the argument at position [index]. *)
Definition return_type_rejected (types : NS) (type : AidlType)
    (filename : string) : Prop :=
  (MaybeAddContainerType T types (type_name type)).1 = false
  ∨ IsValidReturnType T (MaybeAddContainerType T types (type_name type)).2
      type filename = false.

Definition argument_rejected (types : NS) (arg : AidlArgument) (index : Z)
    (filename : string) : Prop :=
  (MaybeAddContainerType T types (type_name (arg_type arg))).1 = false
  ∨ IsValidArg T
      (MaybeAddContainerType T types (type_name (arg_type arg))).2 arg index
      filename = false.

(** A check of the pass that does not hold: a return type or an argument
    that the namespace rejects, the namespace being what the types declared
    before it have made of it; a oneway method that returns a value or has
    an out parameter; a method name declared before.  Every argument is
    asked about as the argument at position 1, which is what the code hands
    to [IsValidArg]. *)
Inductive check_failure (filename : string) (interface_oneway : bool)
    (types : NS) (methods : list AidlMethod) : Prop :=
  | FailReturnType pre m post :
      methods = pre ++ m :: post →
      return_type_rejected (types_after types (pre ≫= method_type_names))
        (method_type m) filename →
      check_failure filename interface_oneway types methods
  | FailArgument pre m post apre a apost :
      methods = pre ++ m :: post →
      method_arguments m = apre ++ a :: apost →
      argument_rejected
        (types_after types
           ((pre ≫= method_type_names) ++ type_name (method_type m)
              :: ((λ a, type_name (arg_type a)) <$> apre)))
        a 1 filename →
      check_failure filename interface_oneway types methods
  | FailOnewayReturn m :
      m ∈ methods →
      method_oneway m || interface_oneway = true →
      type_name (method_type m) ≠ "void" →
      check_failure filename interface_oneway types methods
  | FailOnewayOut m a :
      m ∈ methods →
      a ∈ method_arguments m →
      method_oneway m || interface_oneway = true →
      IsOut a = true →
      check_failure filename interface_oneway types methods
  | FailDuplicate pre m post :
      methods = pre ++ m :: post →
      method_name m ∈ method_name <$> pre →
      check_failure filename interface_oneway types methods.

(** What the pass writes for one method, given the methods before it. *)
Definition method_diagnostics (filename : string) (c : AidlInterface)
    (pre : list AidlMethod) (m : AidlMethod) : list Diag :=
  let oneway := method_oneway m || iface_oneway c in
  (if oneway && negb (bool_decide (type_name (method_type m) = "void"))
   then [DiagOnewayReturnsValue filename (method_line m) (method_name m)]
   else [])
  ++ ((λ _, DiagOnewayOutParameter filename (method_line m) (method_name m))
        <$> filter (λ a, oneway && IsOut a = true) (method_arguments m))
  ++ match list_find (λ p, method_name p = method_name m) pre with
     | Some (_, first) =>
         [DiagRedefinedMethod filename (method_line m) (method_name m)
            (method_line first)]
     | None => []
     end.

Fixpoint all_diagnostics (filename : string) (c : AidlInterface)
    (pre rest : list AidlMethod) : list Diag :=
  match rest with
  | [] => []
  | m :: rest =>
      method_diagnostics filename c pre m
        ++ all_diagnostics filename c (pre ++ [m]) rest
  end.
End check_types.

(** ** Documents *)

(** An [AidlDocumentItem*] that is not null: an interface, or a parcelable
    with the parcelables chained behind it through [next]. *)
Inductive AidlDocumentItem :=
  | DocInterface (c : AidlInterface)
  | DocParcelable (p : AidlParcelable) (next : list AidlParcelable).

Record AidlImport := mkImport {
  import_from : string;
  import_needed_class : string;
  import_line : Z;
  import_filename : string;
}.

Definition SetFilename (i : AidlImport) (filename : string) : AidlImport :=
  mkImport (import_from i) (import_needed_class i) (import_line i) filename.

(** What a [Parser] holds after a successful [ParseFile]: [GetDocument()],
    which may be null, and [GetImports()]. *)
Record Parsed := mkParsed {
  parsed_document : option AidlDocumentItem;
  parsed_imports : list AidlImport;
}.

Section gather_types.
Context {NS : Type} (T : TypeNamespace NS).

Definition gather_types (filename : string)
    (all_items : option AidlDocumentItem) (types : NS) : bool * NS :=
  match all_items with
  | None => (true, types)
  | Some (DocInterface c) => AddBinderType T types c filename
  | Some (DocParcelable p next) =>
      foldl (λ '(success, types) item,
               let '(added, types) :=
                 AddParcelableType T types item filename in
               (success && added, types))
        (true, types) (p :: next)
  end.
End gather_types.

(** ** The C library calls of [parse_preprocessed_file] *)

Definition NUL : ascii := Ascii.zero.
Definition newline : ascii := "010"%char.

(** The C string held in a buffer: its characters up to the first NUL. *)
Definition c_str (buffer : string) : string := before_first NUL buffer.

(** [isspace] in the C locale. *)
Definition isspace (a : ascii) : bool :=
  Ascii.eqb a " "%char || Ascii.eqb a "009"%char || Ascii.eqb a "010"%char
  || Ascii.eqb a "011"%char || Ascii.eqb a "012"%char || Ascii.eqb a "013"%char.

Fixpoint skip_while (p : ascii → bool) (s : string) : string :=
  match s with
  | EmptyString => EmptyString
  | String a rest => if p a then skip_while p rest else s
  end.

Fixpoint take_while (p : ascii → bool) (s : string) : string :=
  match s with
  | EmptyString => EmptyString
  | String a rest => if p a then String a (take_while p rest) else EmptyString
  end.

(** The scan set of [%[^; \r\n\t]]. *)
Definition in_fullname_set (a : ascii) : bool :=
  negb (Ascii.eqb a ";"%char || Ascii.eqb a " "%char || Ascii.eqb a "013"%char
        || Ascii.eqb a "010"%char || Ascii.eqb a "009"%char).

(** [sscanf(line, "%s %[^; \r\n\t];", type, fullname)]: the contents of the
    two buffers after the call.  A conversion that fails stores nothing, and
    the buffer keeps what it held. *)
Definition sscanf_declaration (line type fullname : string) : string * string :=
  let s := skip_while isspace line in
  if bool_decide (s = EmptyString) then (type, fullname)
  else
    let type := take_while (λ a, negb (isspace a)) s in
    let s := skip_while (λ a, negb (isspace a)) s in
    let s := skip_while isspace s in
    let scanned := take_while in_fullname_set s in
    if bool_decide (scanned = EmptyString) then (type, fullname)
    else (type, scanned).

(** [strrchr(s, c)], as the two halves of [s] around the last [c]. *)
Fixpoint split_at_last (c : ascii) (s : string) : option (string * string) :=
  match s with
  | EmptyString => None
  | String a rest =>
      match split_at_last c rest with
      | Some (before, after) => Some (String a before, after)
      | None => if Ascii.eqb a c then Some (EmptyString, rest) else None
      end
  end.

(** [android::base::Split(s, ".")] of libbase: the pieces of [s] between the
    dots; no piece at all for the empty string. *)
Definition Split (s : string) : list string :=
  if bool_decide (s = EmptyString) then []
  else split_on "."%char EmptyString s.

(** One call [fgets(line, room + 1, f)] on a stream with [s] left to read:
    the characters stored and what is left unread.  Reading stops behind a newline
    or when [room] characters are stored. *)
Fixpoint fgets (room : nat) (s : string) : string * string :=
  match room, s with
  | O, _ => (EmptyString, s)
  | _, EmptyString => (EmptyString, EmptyString)
  | S room', String a rest =>
      if Ascii.eqb a newline then (String a EmptyString, rest)
      else let '(line, unread) := fgets room' rest in (String a line, unread)
  end.

Definition sizeof_line : nat := 1024.

(** The results of the successive calls of [fgets] until it returns NULL.
    Every call takes at least one character, so that [fuel] as large as the
    stream is long reads all of it. *)
Fixpoint fgets_lines (fuel : nat) (s : string) : list string :=
  match fuel with
  | O => []
  | S fuel' =>
      if bool_decide (s = EmptyString) then []
      else let '(line, unread) := fgets (sizeof_line - 1) s in
           line :: fgets_lines fuel' unread
  end.

(** A stream opened for reading: the bytes it delivers, and whether it then
    fails with a read error instead of reaching the end of the file. *)
Record Stream := mkStream {
  stream_bytes : string;
  stream_read_error : bool;
}.

(** ** The environment of a run *)

(** What the run takes from outside the program: the operating system calls
    and the collaborators reached through the [IoDelegate]. *)
Record Env := mkEnv {
  (** [getcwd] *)
  env_cwd : string;
  (** [fopen(name, "rb")], NULL as [None] *)
  env_fopen : string → option Stream;
  (** the C string that the uninitialised [char] array of that name, [type]
      or [fullname], happens to hold *)
  env_uninitialised : string → string;
  (** [Parser{io_delegate}.ParseFile(name)], failure as [None] *)
  env_ParseFile : string → option Parsed;
  (** [ImportResolver{io_delegate, import_paths}.FindImportFile(name)] *)
  env_FindImportFile : list string → string → string;
  (** whether [open(path, O_RDWR|O_CREAT|O_TRUNC|O_BINARY, mode)] succeeds *)
  env_open : string → bool;
  (** what the [n]-th call of [write] on the output, numbered from 0,
      returns for the buffer it is given *)
  env_write : nat → string → Z;
}.

(** ** The preprocessed declarations: [parse_preprocessed_file] *)

(** The local variables of the function that its loop updates.  The buffers
    [type] and [fullname] are declared outside the loop and keep their
    contents from one line to the next. *)
Record PreState (NS : Type) := mkPreState {
  pre_lineno : Z;
  pre_type : string;
  pre_fullname : string;
  pre_types : NS;
}.
Arguments mkPreState {NS}.
Arguments pre_lineno {NS}.
Arguments pre_type {NS}.
Arguments pre_fullname {NS}.
Arguments pre_types {NS}.

Section parse_preprocessed_file.
Context {NS : Type} (T : TypeNamespace NS).

(** The body of the [while] loop for one line that [fgets] delivered.
    [inl] is a [return 1]; [inr] goes on with the next line. *)
Definition preprocessed_line (filename : string) (st : PreState NS)
    (buffer : string) : (NS * list Diag) + PreState NS :=
  let line := c_str buffer in
  if bool_decide (line = EmptyString) || String.prefix "//" line then inr st
  else
    let '(type, fullname) :=
      sscanf_declaration line (pre_type st) (pre_fullname st) in
    let '(fullname, classname, package) :=
      match split_at_last "."%char fullname with
      | Some (before, after) => (before, after, Split before)
      | None => (fullname, fullname, [])
      end in
    let lineno := pre_lineno st in
    let doc :=
      if bool_decide (type = "parcelable") then
        Some (DocParcelable (mkParcelable classname lineno package) [])
      else if bool_decide (type = "interface") then
        Some (DocInterface
                (mkInterface classname lineno "" false [] package))
      else None in
    match doc with
    | None => inl (pre_types st, [DiagBadTypeInLine filename lineno line])
    | Some doc =>
        let '(gathered, types) :=
          gather_types T filename (Some doc) (pre_types st) in
        if gathered then
          inr (mkPreState (to_int (lineno + 1)) type fullname types)
        else inl (types, [DiagGatherPreprocessedFailed])
    end.

Fixpoint preprocessed_lines (filename : string) (st : PreState NS)
    (lines : list string) : (NS * list Diag) + PreState NS :=
  match lines with
  | [] => inr st
  | buffer :: rest =>
      match preprocessed_line filename st buffer with
      | inl stop => inl stop
      | inr st => preprocessed_lines filename st rest
      end
  end.

Definition parse_preprocessed_file (E : Env) (filename : string) (types : NS)
    : Z * NS * list Diag :=
  match env_fopen E filename with
  | None => (1, types, [DiagCannotOpenPreprocessed filename])
  | Some f =>
      let lines :=
        fgets_lines (String.length (stream_bytes f)) (stream_bytes f) in
      let st :=
        mkPreState 1 (env_uninitialised E "type")
          (env_uninitialised E "fullname") types in
      match preprocessed_lines filename st lines with
      | inl (types, printed) => (1, types, printed)
      | inr st =>
          if stream_read_error f then
            (1, pre_types st, [DiagLineTooLong filename (pre_lineno st)])
          else (0, pre_types st, [])
      end
  end.
End parse_preprocessed_file.

(** ** Options (options.h) *)

Inductive JavaTask := COMPILE_AIDL_TO_JAVA | PREPROCESS_AIDL.

Record JavaOptions := mkJavaOptions {
  task : JavaTask;
  fail_on_parcelable_ : bool;
  import_paths_ : list string;
  preprocessed_files_ : list string;
  input_file_name_ : string;
  output_file_name_ : string;
  output_base_folder_ : string;
  dep_file_name_ : string;
  auto_dep_file_ : bool;
  files_to_preprocess_ : list string;
}.

(** [CppOptions], by the two accessors that aidl.cpp calls. *)
Record CppOptions := mkCppOptions {
  ImportPaths : list string;
  InputFileName : string;
}.

(** ** The files written: [open], [write], [close], [unlink] *)

(** The files by path with their contents, and the open descriptors with the
    path each was opened on. *)
Record OS := mkOS {
  os_files : gmap string string;
  os_descriptors : gmap Z string;
}.

(** A successful [open] with [O_CREAT|O_TRUNC]: the file exists and is empty
    afterwards, and a descriptor not in use is returned. *)
Definition os_open (os : OS) (path : string) : Z * OS :=
  let fd := fresh (dom (os_descriptors os)) in
  (fd, mkOS (<[path := EmptyString]> (os_files os))
            (<[fd := path]> (os_descriptors os))).

(** A [write] that returns [count]: that many bytes of the buffer, if any,
    are behind the file's contents afterwards. *)
Definition os_write (os : OS) (fd : Z) (buffer : string) (count : Z) : OS :=
  match os_descriptors os !! fd with
  | Some path =>
      mkOS (alter (λ contents,
                     contents +:+ String.substring 0 (Z.to_nat count) buffer)
              path (os_files os))
           (os_descriptors os)
  | None => os
  end.

Definition os_close (os : OS) (fd : Z) : OS :=
  mkOS (os_files os) (delete fd (os_descriptors os)).

Definition os_unlink (os : OS) (path : string) : OS :=
  mkOS (delete path (os_files os)) (os_descriptors os).

(** ** The preprocess task: [preprocess_aidl] *)

(** The line for one parsed document. *)
Definition preprocess_line (doc : AidlDocumentItem) : string :=
  let line :=
    match doc with
    | DocParcelable parcelable _ =>
        let line := "parcelable " in
        let line :=
          if bool_decide (parcel_GetPackage parcelable = EmptyString) then line
          else line +:+ parcel_GetPackage parcelable +:+ "." in
        line +:+ parcel_name parcelable
    | DocInterface iface =>
        let line := "interface " in
        let line :=
          if bool_decide (iface_GetPackage iface = EmptyString) then line
          else line +:+ iface_GetPackage iface +:+ "." in
        line +:+ iface_name iface
    end in
  line +:+ ";" +:+ String newline EmptyString.

(** The outcome of a run that comes to dereference a null document. *)
Inductive Outcome (A : Type) :=
  | Returned (result : A)
  | NullDereference.
Arguments Returned {A}.
Arguments NullDereference {A}.

(** The first loop: [inl] is its [return 1], [inr] the lines collected. *)
Fixpoint preprocess_read (E : Env) (files : list string) (lines : list string)
    : Outcome (unit + list string) :=
  match files with
  | [] => Returned (inr lines)
  | file :: rest =>
      match env_ParseFile E file with
      | None => Returned (inl ())
      | Some p =>
          match parsed_document p with
          | None => NullDereference
          | Some doc => preprocess_read E rest (lines ++ [preprocess_line doc])
          end
      end
  end.

(** The second loop, from its [i]-th round on: [inl] is the [return 1] behind
    a failed write, [inr] the loop running to its end. *)
Fixpoint preprocess_write (E : Env) (output : string) (fd : Z) (i : nat)
    (lines : list string) (os : OS) : (OS * list Diag) + OS :=
  match lines with
  | [] => inr os
  | s :: rest =>
      let len := to_int (Z.of_nat (String.length s)) in
      let written := env_write E i s in
      let os := os_write os fd s written in
      if bool_decide (len ≠ written) then
        let os := os_close os fd in
        let os := os_unlink os output in
        inl (os, [DiagWriteError output])
      else preprocess_write E output fd (S i) rest os
  end.

Definition preprocess_aidl (E : Env) (options : JavaOptions) (os : OS)
    : Outcome (Z * OS * list Diag) :=
  match preprocess_read E (files_to_preprocess_ options) [] with
  | NullDereference => NullDereference
  | Returned (inl _) => Returned (1, os, [])
  | Returned (inr lines) =>
      let output := output_file_name_ options in
      if env_open E output then
        let '(fd, os) := os_open os output in
        match preprocess_write E output fd 0 lines os with
        | inl (os, printed) => Returned (1, os, printed)
        | inr os => Returned (0, os_close os fd, [])
        end
      else Returned (1, os, [DiagCannotOpenForWrite output])
  end.

(** ** The driver: [load_and_validate_aidl] *)

(** How [load_and_validate_aidl] ends: with [return err], or with
    [return 0] with [*returned_interface] and [*returned_imports] set. *)
Inductive Loaded :=
  | LoadError (err : Z)
  | LoadOk (interface : AidlInterface) (imports : list AidlImport).

Record LoadResult (NS : Type) := mkLoadResult {
  load_outcome : Loaded;
  load_types : NS;
  load_stderr : list Diag;
}.
Arguments mkLoadResult {NS}.
Arguments load_outcome {NS}.
Arguments load_types {NS}.
Arguments load_stderr {NS}.

Definition load_return {NS : Type} (r : LoadResult NS) : Z :=
  match load_outcome r with
  | LoadError err => err
  | LoadOk _ _ => 0
  end.

(** The variables that the loop over the imports updates: [err], what was
    printed, and the imports gone through, each as the loop leaves it and
    with its entry of the map [docs] (null when the loop made none). *)
Record ImportState := mkImportState {
  imp_err : Z;
  imp_stderr : list Diag;
  imp_docs : list (AidlImport * option AidlDocumentItem);
}.

Section driver.
Context {NS : Type} (T : TypeNamespace NS) (E : Env).

Definition check_filenames (filename : string)
    (items : option AidlDocumentItem) : bool * list Diag :=
  match items with
  | None => (true, [])
  | Some (DocInterface c) =>
      check_filename (env_cwd E) filename (iface_GetPackage c) (iface_name c)
        (iface_line c)
  | Some (DocParcelable p next) =>
      foldl (λ '(success, printed) p,
               let '(valid, d) :=
                 check_filename (env_cwd E) filename (parcel_GetPackage p)
                   (parcel_name p) (parcel_line p) in
               (success && valid, printed ++ d))
        (true, []) (p :: next)
  end.

(** The loop over the preprocessed files. *)
Definition load_preprocessed (preprocessed_files : list string) (types : NS)
    : Z * NS * list Diag :=
  foldl (λ '(err, types, printed) s,
           let '(e, types, d) := parse_preprocessed_file T E s types in
           (Z.lor err e, types, printed ++ d))
    (0, types, []) preprocessed_files.

(** The body of the loop over the imports of the input file. *)
Definition resolve_import (import_paths : list string) (types : NS)
    (st : ImportState) (import : AidlImport) : ImportState :=
  if HasType T types (import_needed_class import) then
    mkImportState (imp_err st) (imp_stderr st) (imp_docs st ++ [(import, None)])
  else
    let import_path :=
      env_FindImportFile E import_paths (import_needed_class import) in
    if bool_decide (import_path = EmptyString) then
      mkImportState (Z.lor (imp_err st) 1)
        (imp_stderr st ++
           [DiagImportNotFound (import_from import) (import_line import)
              (import_needed_class import)])
        (imp_docs st ++ [(import, None)])
    else
      let import := SetFilename import import_path in
      match env_ParseFile E (import_filename import) with
      | None =>
          mkImportState (Z.lor (imp_err st) 1)
            (imp_stderr st ++
               [DiagImportParseError (import_needed_class import)])
            (imp_docs st ++ [(import, None)])
      | Some p =>
          let document := parsed_document p in
          let '(valid, printed) :=
            check_filenames (import_filename import) document in
          mkImportState
            (if valid then imp_err st else Z.lor (imp_err st) 1)
            (imp_stderr st ++ printed)
            (imp_docs st ++ [(import, document)])
      end.

Definition resolve_imports (import_paths : list string) (types : NS)
    (err : Z) (printed : list Diag) (imports : list AidlImport)
    : ImportState :=
  foldl (resolve_import import_paths types) (mkImportState err printed [])
    imports.

(** The part of the function behind the loop over the imports: the types
    are gathered, the package is validated, the types and the method
    identifiers are checked. *)
Definition validate_interface (input_file_name : string)
    (interface : AidlInterface) (st : ImportState) (types : NS)
    : LoadResult NS :=
  let err := imp_err st in
  let '(gathered, types) :=
    gather_types T input_file_name (Some (DocInterface interface)) types in
  let err := if gathered then err else Z.lor err 1 in
  let '(err, types) :=
    foldl (λ '(err, types) '(import, doc),
             let '(gathered, types) :=
               gather_types T (import_filename import) doc types in
             (if gathered then err else Z.lor err 1, types))
      (err, types) (imp_docs st) in
  let valid_package := IsValidPackage T types (iface_GetPackage interface) in
  let printed :=
    imp_stderr st ++
      (if valid_package then []
       else [DiagInvalidPackage (iface_GetPackage interface)]) in
  let err := if valid_package then err else to_int (err + 1) in
  let '(e, types, d) := check_types T input_file_name interface types in
  let err := Z.lor err e in
  let printed := printed ++ d in
  let ids :=
    check_and_assign_method_ids input_file_name (iface_methods interface) in
  let err := Z.lor err (ids_return ids) in
  let printed := printed ++ ids_stderr ids in
  if bool_decide (err ≠ 0) then mkLoadResult (LoadError err) types printed
  else
    mkLoadResult
      (LoadOk
         (mkInterface (iface_name interface) (iface_line interface)
            (iface_comments interface) (iface_oneway interface)
            (ids_methods ids) (iface_package interface))
         (fst <$> imp_docs st))
      types printed.

Definition load_and_validate_aidl (preprocessed_files : list string)
    (import_paths : list string) (input_file_name : string) (types : NS)
    : LoadResult NS :=
  let '(err, types, printed) := load_preprocessed preprocessed_files types in
  if bool_decide (err ≠ 0) then mkLoadResult (LoadError err) types printed
  else
    match env_ParseFile E input_file_name with
    | None => mkLoadResult (LoadError 1) types printed
    | Some p =>
        match parsed_document p with
        | Some (DocInterface interface) =>
            let '(valid, d) :=
              check_filename (env_cwd E) input_file_name
                (iface_GetPackage interface) (iface_name interface)
                (iface_line interface) in
            let err := if valid then err else Z.lor err 1 in
            let st :=
              resolve_imports import_paths types err (printed ++ d)
                (parsed_imports p) in
            if bool_decide (imp_err st ≠ 0) then
              mkLoadResult (LoadError (imp_err st)) types (imp_stderr st)
            else validate_interface input_file_name interface st types
        | _ =>
            mkLoadResult (LoadError 1) types
              (printed ++ [DiagOneInterfacePerFile])
        end
    end.

(** ** The compile tasks *)

(** [cpp::GenerateCpp] and [generate_java] are the two back ends, outside
    aidl.cpp; [fresh_types] is the namespace that the task constructs. *)

Definition compile_aidl_to_cpp
    (GenerateCpp : CppOptions → NS → AidlInterface → bool)
    (fresh_types : NS) (options : CppOptions) : Z * list Diag :=
  let r :=
    load_and_validate_aidl [] (ImportPaths options) (InputFileName options)
      fresh_types in
  match load_outcome r with
  | LoadError err => (err, load_stderr r)
  | LoadOk interface imports =>
      (if GenerateCpp options (load_types r) interface then 0 else 1,
       load_stderr r)
  end.

Definition generate_outputFileName (options : JavaOptions)
    (interface : AidlInterface) : string :=
  let name := iface_name interface in
  let package := iface_GetPackage interface in
  let result := output_base_folder_ options in
  let result := result +:+ String OS_PATH_SEPARATOR EmptyString in
  let packageStr := replace_char "."%char OS_PATH_SEPARATOR package in
  let result := result +:+ packageStr in
  let result := result +:+ String OS_PATH_SEPARATOR EmptyString in
  let result := result +:+ before_first "."%char name in
  result +:+ ".java".

(** The directories made and the dependency file written before the back
    end runs are not part of the value returned, and are left out. *)
Definition compile_aidl_to_java
    (generate_java : string → string → AidlInterface → NS → Z)
    (fresh_types : NS) (options : JavaOptions) : Z * list Diag :=
  let r :=
    load_and_validate_aidl (preprocessed_files_ options)
      (import_paths_ options) (input_file_name_ options) fresh_types in
  match load_outcome r with
  | LoadError err => (err, load_stderr r)
  | LoadOk interface imports =>
      let output_file_name := output_file_name_ options in
      let output_file_name :=
        if bool_decide (String.length output_file_name = 0%nat)
           && bool_decide (0 < String.length (output_base_folder_ options))%nat
        then generate_outputFileName options interface
        else output_file_name in
      (generate_java output_file_name (input_file_name_ options) interface
         (load_types r),
       load_stderr r)
  end.
End driver.

(** ** A namespace and an environment to run the functions on *)

Inductive Kind := UserParcelable | UserInterface.

Definition qualified_name (package : list string) (name : string) : string :=
  if bool_decide (Join "." package = EmptyString) then name
  else Join "." package +:+ "." +:+ name.

(** Modelled from the spec: the classes that implement [TypeNamespace] are
    not among the sources.  The specification has [add_parcelable] and
    [add_binder] insert an entry and fail on a duplicate name, and [has_type]
    look the qualified name up.  This namespace holds the declarations
    registered, by kind and qualified name; it accepts every type and package
    it is asked about, and is what the examples run on. *)
Definition register (entry : Kind * string) (ns : list (Kind * string))
    : bool * list (Kind * string) :=
  if bool_decide (entry.2 ∈ ns.*2) then (false, ns) else (true, ns ++ [entry]).

Definition registry : TypeNamespace (list (Kind * string)) :=
  {| AddParcelableType ns p _ :=
       register (UserParcelable,
                 qualified_name (parcel_package p) (parcel_name p)) ns;
     AddBinderType ns c _ :=
       register (UserInterface,
                 qualified_name (iface_package c) (iface_name c)) ns;
     MaybeAddContainerType ns _ := (true, ns);
     HasType ns name := bool_decide (name ∈ ns.*2);
     IsValidPackage _ _ := true;
     IsValidReturnType _ _ _ := true;
     IsValidArg _ _ _ _ := true |}.

Definition no_files : Env :=
  {| env_cwd := "/work";
     env_fopen _ := None;
     env_uninitialised _ := EmptyString;
     env_ParseFile _ := None;
     env_FindImportFile _ _ := EmptyString;
     env_open _ := true;
     env_write _ s := Z.of_nat (String.length s) |}.

Definition void_type : AidlType := mkType "void" false.
Definition int_type : AidlType := mkType "int" false.

Definition plain_method (name : string) (line : Z) : AidlMethod :=
  mkMethod false void_type name [] line false 0.

Definition method_with_id (name : string) (line id : Z) : AidlMethod :=
  mkMethod false void_type name [] line true id.

(** The methods that the first loop lets through, seen from a round of the
    loop with [usedIds], [hasUnassignedIds] and [hasAssignedIds] as they are
    then. *)
Definition ids_accepted (usedIds : gset Z) (hasUnassignedIds hasAssignedIds : bool)
    (items : list AidlMethod) : Prop :=
  (hasAssignedIds = false ∧ Forall (λ m, HasId m = false) items)
  ∨ (hasUnassignedIds = false
     ∧ Forall (λ m, HasId m = true) items
     ∧ NoDup (GetId <$> items)
     ∧ Forall (λ m, (GetId m ∉ usedIds)
                    ∧ (kMinUserSetMethodId ≤ GetId m ≤ kMaxUserSetMethodId))
         items).

(** The interface of scenario S2, [oneway int doit();], with a second
    method that is oneway and has an inout argument. *)
Definition oneway_violations : AidlInterface :=
  mkInterface "IBad" 1 "" false
    [mkMethod true int_type "doit" [] 2 false 0;
     mkMethod true void_type "fill" [mkArg int_type "buffer" INOUT_DIR] 3
       false 0]
    ["com"; "x"].



(** The environment [E] with [fopen] replaced. *)
Definition with_fopen (E : Env) (fopen : string → option Stream) : Env :=
  mkEnv (env_cwd E) fopen (env_uninitialised E) (env_ParseFile E)
    (env_FindImportFile E) (env_open E) (env_write E).

(** Scenario S5 with the methods of scenario S3: the file [wrong/Path.aidl]
    declares [com.x.IEcho], one method with an explicit identifier and one
    without. *)
Definition mixed_interface : AidlInterface :=
  mkInterface "IEcho" 1 "" false
    [method_with_id "a" 2 3; plain_method "b" 3] ["com"; "x"].

Definition misplaced_file : Env :=
  mkEnv "/work" (λ _, None) (λ _, EmptyString)
    (λ name,
       if bool_decide (name = "wrong/Path.aidl") then
         Some (mkParsed (Some (DocInterface mixed_interface)) [])
       else None)
    (λ _ _, EmptyString) (λ _, true) (λ _ s, Z.of_nat (String.length s)).

(** Scenario S6: [pre.txt] lists the parcelable [com.x.Foo], the input
    [com/y/IUsesFoo.aidl] imports it, and no search path has it. *)
Definition uses_foo : AidlInterface :=
  mkInterface "IUsesFoo" 2 "" false [plain_method "use" 3] ["com"; "y"].

Definition preprocessed_foo : Env :=
  mkEnv "/work"
    (λ name,
       if bool_decide (name = "pre.txt") then
         Some (mkStream ("parcelable com.x.Foo;" +:+ String newline EmptyString)
                 false)
       else None)
    (λ _, EmptyString)
    (λ name,
       if bool_decide (name = "com/y/IUsesFoo.aidl") then
         Some (mkParsed (Some (DocInterface uses_foo))
                 [mkImport "com/y/IUsesFoo.aidl" "com.x.Foo" 1 EmptyString])
       else None)
    (λ _ _, EmptyString) (λ _, true) (λ _ s, Z.of_nat (String.length s)).

(** An environment in which the second [write] stores three bytes and
    fails. *)
Definition failing_write : Env :=
  mkEnv "/work" (λ _, None) (λ _, EmptyString)
    (λ name,
       if bool_decide (name = "com/x/Foo.aidl") then
         Some (mkParsed
                 (Some (DocParcelable (mkParcelable "Foo" 2 ["com"; "x"]) []))
                 [])
       else if bool_decide (name = "com/x/IEcho.aidl") then
         Some (mkParsed (Some (DocInterface mixed_interface)) [])
       else None)
    (λ _ _, EmptyString) (λ _, true)
    (λ n s, if bool_decide (n = 1%nat) then 3 else Z.of_nat (String.length s)).

Definition preprocess_options (files : list string) (output : string)
    : JavaOptions :=
  mkJavaOptions PREPROCESS_AIDL false [] [] EmptyString output EmptyString
    EmptyString false files.

Definition java_options_for (preprocessed : list string) (input : string)
    : JavaOptions :=
  mkJavaOptions COMPILE_AIDL_TO_JAVA false [] preprocessed input
    "IUsesFoo.java" EmptyString EmptyString false [].

(** ** The round trip of the preprocessed declarations, stated *)

Fixpoint string_forall (p : ascii → bool) (s : string) : bool :=
  match s with
  | EmptyString => true
  | String a rest => p a && string_forall p rest
  end.

(** The characters that a component of a qualified name is made of, as far
    as the preprocessed format goes: no white space, no semicolon, no dot
    and no NUL.  The identifiers of the language are made of such. *)
Definition name_char (a : ascii) : bool :=
  in_fullname_set a && negb (isspace a) && negb (Ascii.eqb a "."%char)
  && negb (Ascii.eqb a NUL).

(** The characters of a qualified name: those of its components, and the
    dot. *)
Definition qualified_char (a : ascii) : bool :=
  in_fullname_set a && negb (isspace a) && negb (Ascii.eqb a NUL).

Definition well_formed_name (s : string) : Prop :=
  s ≠ EmptyString ∧ string_forall name_char s = true.

(** The kind, the package and the name that a document declares. *)
Definition declaration_of (doc : AidlDocumentItem)
    : Kind * list string * string :=
  match doc with
  | DocInterface c => (UserInterface, iface_package c, iface_name c)
  | DocParcelable p _ => (UserParcelable, parcel_package p, parcel_name p)
  end.

Definition keyword (kind : Kind) : string :=
  match kind with
  | UserParcelable => "parcelable"
  | UserInterface => "interface"
  end.

(** The document that [parse_preprocessed_file] builds for a declaration
    read on line [lineno]. *)
Definition declared (kind : Kind) (name : string) (lineno : Z)
    (package : list string) : AidlDocumentItem :=
  match kind with
  | UserParcelable => DocParcelable (mkParcelable name lineno package) []
  | UserInterface => DocInterface (mkInterface name lineno "" false [] package)
  end.

(** A declaration whose names are well formed and whose line fits the
    buffer that [fgets] fills. *)
Definition well_formed_declaration (doc : AidlDocumentItem) : Prop :=
  Forall well_formed_name (declaration_of doc).1.2
  ∧ well_formed_name (declaration_of doc).2
  ∧ (String.length (preprocess_line doc) ≤ sizeof_line - 1)%nat.

Fixpoint concat_strings (l : list string) : string :=
  match l with
  | [] => EmptyString
  | s :: rest => s +:+ concat_strings rest
  end.

(** The declarations registered one after the other, from line [lineno] on,
    up to the first that the namespace refuses. *)
Fixpoint register_declarations {NS : Type} (T : TypeNamespace NS)
    (filename : string) (lineno : Z)
    (declarations : list (Kind * list string * string)) (types : NS)
    : Z * NS * list Diag :=
  match declarations with
  | [] => (0, types, [])
  | (kind, package, name) :: rest =>
      let '(gathered, types) :=
        gather_types T filename (Some (declared kind name lineno package))
          types in
      if gathered then
        register_declarations T filename (to_int (lineno + 1)) rest types
      else (1, types, [DiagGatherPreprocessedFailed])
  end.

(** A name too long for the buffer: 1020 times the letter [a]. *)
Fixpoint repeat_char (a : ascii) (n : nat) : string :=
  match n with
  | O => EmptyString
  | S n' => String a (repeat_char a n')
  end.

Definition long_name : string := repeat_char "a"%char 1020.

Definition long_declaration : AidlDocumentItem :=
  DocParcelable (mkParcelable long_name 1 []) [].

Definition preprocessed_stream (docs : list AidlDocumentItem) : Env :=
  mkEnv "/work"
    (λ name,
       if bool_decide (name = "pre.txt") then
         Some (mkStream (concat_strings (preprocess_line <$> docs)) false)
       else None)
    (λ _, EmptyString) (λ _, None) (λ _ _, EmptyString) (λ _, true)
    (λ _ s, Z.of_nat (String.length s)).

(** ** The round trip of the qualified names, stated *)

(** The qualified name that a document declares, as [preprocess_aidl]
    writes it: the package, when it is not empty, a dot and the name. *)
Definition declared_name (doc : AidlDocumentItem) : string :=
  qualified_name (declaration_of doc).1.2 (declaration_of doc).2.

(** A qualified name as the language has them, as far as the preprocessed
    format goes: not empty, without white space, semicolon or NUL, and not
    beginning with a dot.  The name may have dots of its own, as the name
    [Outer.Inner] of a nested class has. *)
Definition qualified (Q : string) : Prop :=
  Q ≠ EmptyString
  ∧ string_forall qualified_char Q = true
  ∧ first_char Q ≠ Some "."%char.

(** A declaration with such a name whose line fits the buffer that [fgets]
    fills. *)
Definition readable_declaration (doc : AidlDocumentItem) : Prop :=
  qualified (declared_name doc)
  ∧ (String.length (preprocess_line doc) ≤ sizeof_line - 1)%nat.

(** The parcelable [com.x.Rect.Inner], nested in [Rect]. *)
Definition nested_parcelable : AidlDocumentItem :=
  DocParcelable (mkParcelable "Rect.Inner" 3 ["com"; "x"]) [].

(** ** Further definitions: the properties of the other functions *)

(** The namespace [T] with [IsValidArg] asked about the first position,
    whatever position it is given. *)
Definition with_first_position {NS : Type} (T : TypeNamespace NS)
    : TypeNamespace NS :=
  mkTypeNamespace NS (AddParcelableType T) (AddBinderType T)
    (MaybeAddContainerType T) (HasType T) (IsValidPackage T)
    (IsValidReturnType T) (λ types a _ filename, IsValidArg T types a 1 filename).

(** A namespace that knows every type and accepts it in every role. *)
Definition accepts_every_type {NS : Type} (T : TypeNamespace NS) : Prop :=
  (∀ types name, (MaybeAddContainerType T types name).1 = true)
  ∧ (∀ types type filename, IsValidReturnType T types type filename = true)
  ∧ (∀ types a index filename, IsValidArg T types a index filename = true).

(** The oneway rule on an interface: a method that is oneway, by itself or
    by its interface, returns void and has only in arguments. *)
Definition oneway_closed (c : AidlInterface) : Prop :=
  ∀ m, m ∈ iface_methods c →
    method_oneway m || iface_oneway c = true →
    type_name (method_type m) = "void"
    ∧ ∀ a, a ∈ method_arguments m → arg_direction a = IN_DIR.

(** An interface with two methods of one name. *)
Definition redefining_interface : AidlInterface :=
  mkInterface "IDup" 1 "" false
    [plain_method "ping" 2; plain_method "stop" 3; plain_method "ping" 4]
    ["com"; "x"].

(** A line of a stream as [fgets] delivers it whole: it ends in its only
    newline and fits the buffer. *)
Definition complete_line (line : string) : Prop :=
  ∃ body,
    line = body +:+ String newline EmptyString
    ∧ string_forall (λ a, negb (Ascii.eqb a newline)) body = true
    ∧ (String.length body < sizeof_line - 1)%nat.

(** The lines of a preprocessed file: a comment, with the text behind the
    two slashes, or the line of a declaration. *)
Inductive PreprocessedLine :=
  | CommentLine (text : string)
  | DeclarationLine (doc : AidlDocumentItem).

Definition render_line (l : PreprocessedLine) : string :=
  match l with
  | CommentLine text => "//" +:+ text +:+ String newline EmptyString
  | DeclarationLine doc => preprocess_line doc
  end.

Definition well_formed_line (l : PreprocessedLine) : Prop :=
  match l with
  | CommentLine text =>
      string_forall (λ a, negb (Ascii.eqb a newline)) text = true
      ∧ (String.length text + 3 ≤ sizeof_line - 1)%nat
  | DeclarationLine doc => well_formed_declaration doc
  end.

Definition declaration_on (l : PreprocessedLine)
    : option (Kind * list string * string) :=
  match l with
  | CommentLine _ => None
  | DeclarationLine doc => Some (declaration_of doc)
  end.

(** What [fullname] holds as a C string behind a declaration: the name cut
    at its last dot. *)
Definition fullname_left (package : list string) (name : string) : string :=
  match package with
  | [] => name
  | _ => Join "." package
  end.

(** The declaration that the buffers [type] and [fullname] spell when they
    are read again as they were left. *)
Definition stale_declaration (d : Kind * list string * string)
    : Kind * list string * string :=
  match d.1.2 with
  | [] => d
  | p :: package => (d.1.1, List.removelast (p :: package), List.last (p :: package) p)
  end.

(** White space other than the newline. *)
Definition blank_char (a : ascii) : bool :=
  isspace a && negb (Ascii.eqb a newline).

(** The file [name] parses, and its document is [doc]. *)
Definition parses_to (E : Env) (name : string) (doc : AidlDocumentItem)
    : Prop :=
  ∃ p, env_ParseFile E name = Some p ∧ parsed_document p = Some doc.

(** ** The dependency file and the output directories *)

Definition line_feed : string := String newline EmptyString.
Definition continuation : string := " \" +:+ line_feed.

(** What [generate_dep_file] does: the writer cannot be had, and
    [Could not open <fileName>] goes to [cerr]; or the text is written to
    the file, the [Write] calls one behind the other. *)
Inductive DepFile :=
  | DepNotOpened (fileName : string)
  | DepWritten (fileName text : string).

(** The first loop over the imports: the text of its [Write] calls, and
    [first] as the loop leaves it. *)
Fixpoint dep_file_imports (first : bool) (imports : list AidlImport)
    : string * bool :=
  match imports with
  | [] => (EmptyString, first)
  | import :: rest =>
      let text := if first then EmptyString else continuation in
      let text :=
        if bool_decide (import_filename import = EmptyString) then text
        else text +:+ "  " +:+ import_filename import in
      let '(more, first) := dep_file_imports false rest in
      (text +:+ more, first)
  end.

(** The second loop over the imports. *)
Fixpoint dep_file_rules (imports : list AidlImport) : string :=
  match imports with
  | [] => EmptyString
  | import :: rest =>
      (if bool_decide (import_filename import = EmptyString) then EmptyString
       else import_filename import +:+ " :" +:+ line_feed)
      +:+ dep_file_rules rest
  end.

(** [GetCodeWriter] tells whether [io_delegate.GetCodeWriter] gives a
    writer for the name. *)
Definition generate_dep_file (GetCodeWriter : string → bool)
    (options : JavaOptions) (imports : list AidlImport) : DepFile :=
  let fileName :=
    if auto_dep_file_ options then output_file_name_ options +:+ ".d"
    else dep_file_name_ options in
  if GetCodeWriter fileName then
    let text := output_file_name_ options +:+ ": \" +:+ line_feed in
    let text :=
      text +:+ "  " +:+ input_file_name_ options +:+ " "
      +:+ (if bool_decide (imports = []) then EmptyString else "\")
      +:+ line_feed in
    let '(written, first) := dep_file_imports true imports in
    let text := text +:+ written in
    let text :=
      text +:+ (if first then line_feed else line_feed +:+ line_feed) in
    let text := text +:+ input_file_name_ options +:+ " :" +:+ line_feed in
    DepWritten fileName (text +:+ dep_file_rules imports)
  else DepNotOpened fileName.

(** The dependency file as the make format has it: the output, then the
    input and the files of the imports, one a line, each line but the last
    continued; an empty line; an empty rule for each of them. *)
Definition dep_file_text (output input : string) (files : list string)
    : string :=
  output +:+ ": \" +:+ line_feed
  +:+ Join continuation ((λ f, "  " +:+ f) <$> (input :: files))
  +:+ line_feed +:+ line_feed
  +:+ concat_strings ((λ f, f +:+ " :" +:+ line_feed) <$> (input :: files)).

(** [check_outputFilePath]: the arguments of its calls of [mkdir], in
    order.  [access n] tells whether the [n]-th call of
    [access(path, F_OK)], numbered from 0, finds the path; [made] is
    [path.substr(0, i)] and [rest] what follows it in the path. *)
Fixpoint output_directories (access : nat → bool) (calls : nat)
    (made rest : string) : list string :=
  match rest with
  | EmptyString => []
  | String a rest' =>
      if Ascii.eqb a OS_PATH_SEPARATOR then
        if access calls then
          output_directories access (S calls)
            (made +:+ String a EmptyString) rest'
        else
          made :: output_directories access (S calls)
                    (made +:+ String a EmptyString) rest'
      else
        output_directories access calls (made +:+ String a EmptyString) rest'
  end.

Definition check_outputFilePath (access : nat → bool) (path : string)
    : list string :=
  output_directories access 0 EmptyString path.

(** ** Inputs for the examples of the other functions *)

Definition foo_parcelable : AidlDocumentItem :=
  DocParcelable (mkParcelable "Foo" 2 ["com"; "x"]) [].

(** A parcelable of the empty package. *)
Definition bare_parcelable : AidlDocumentItem :=
  DocParcelable (mkParcelable "Foo" 1 []) [].

Definition reads (contents : string) : Env :=
  with_fopen no_files (λ _, Some (mkStream contents false)).

Definition uses_foo_loaded : AidlInterface :=
  mkInterface "IUsesFoo" 2 "" false [SetId (plain_method "use" 3) 0]
    ["com"; "y"].

Definition foo_import : AidlImport :=
  mkImport "com/y/IUsesFoo.aidl" "com.x.Foo" 1 EmptyString.

Definition dep_options : JavaOptions :=
  mkJavaOptions COMPILE_AIDL_TO_JAVA false [] [] "I.aidl" "O.java" EmptyString
    EmptyString true [].

(** * Properties *)

Local Set Warnings "-clear-no-such-hyp".

(** ** Machine integers *)

Lemma to_int_small z : - 2 ^ 31 ≤ z < 2 ^ 31 → to_int z = z.
Proof.
  intros Hz. unfold to_int.
  rewrite Z.mod_small; lia.
Qed.

(** ** Method identifiers *)

Lemma scan_method_ids_spec filename items : ∀ usedIds hasU hasA,
  hasU && hasA = false →
  match scan_method_ids filename items usedIds hasU hasA with
  | inl printed => printed ≠ [] ∧ ¬ ids_accepted usedIds hasU hasA items
  | inr hasU' =>
      ids_accepted usedIds hasU hasA items
      ∧ hasU' = hasU || existsb (λ m, negb (HasId m)) items
  end.
Proof.
  induction items as [|item rest IH]; intros used hasU hasA Hflags; simpl.
  - split; [|by rewrite orb_false_r].
    destruct hasA; [right|left]; repeat split; try constructor.
    by destruct hasU.
  - destruct (HasId item) eqn:Hid; simpl.
    + destruct (decide (GetId item ∈ used)) as [Hin|Hnotin].
      { split; [done|]. intros [[_ Himp]|(_ & _ & _ & Hall)].
        - apply Forall_cons in Himp as [Himp _]. congruence.
        - apply Forall_cons in Hall as [[Hout _] _]. done. }
      destruct ((GetId item <? kMinUserSetMethodId)
                || (GetId item >? kMaxUserSetMethodId)) eqn:Hbounds.
      { split; [done|]. intros [[_ Himp]|(_ & _ & _ & Hall)].
        - apply Forall_cons in Himp as [Himp _]. congruence.
        - apply Forall_cons in Hall as [[_ Hin] _].
          apply orb_true_iff in Hbounds as [H|H]; lia. }
      apply orb_false_iff in Hbounds as [Hlo Hhi].
      destruct hasU.
      { split; [done|]. intros [[_ Himp]|(HU & _)]; [|done].
        apply Forall_cons in Himp as [Himp _]. congruence. }
      specialize (IH ({[GetId item]} ∪ used) false true eq_refl).
      destruct (scan_method_ids filename rest _ false true) as [printed|hasU'].
      * destruct IH as [Hne Hrej]. split; [done|].
        intros [[_ Himp]|(_ & Hexp & Hnodup & Hall)].
        { apply Forall_cons in Himp as [Himp _]. congruence. }
        apply Hrej. right.
        apply Forall_cons in Hexp as [_ Hexp].
        rewrite fmap_cons in Hnodup. apply NoDup_cons in Hnodup as [Hfresh Hnodup].
        apply Forall_cons in Hall as [_ Hall].
        repeat split; try done.
        rewrite Forall_forall in Hall |- *. intros m Hm.
        destruct (Hall m Hm) as [Hm1 Hm2]. split; [|done].
        intros [Heq%elem_of_singleton|?]%elem_of_union; [|done].
        apply Hfresh. rewrite <- Heq. by apply list_elem_of_fmap_2.
      * destruct IH as [[[? _]|(_ & Hexp & Hnodup & Hall)] ->]; [done|].
        split; [|done]. right. repeat split.
        -- by constructor.
        -- rewrite fmap_cons. apply NoDup_cons. split; [|done].
           intros (m & Heq & Hm)%list_elem_of_fmap.
           rewrite Forall_forall in Hall. destruct (Hall m Hm) as [Hm1 _].
           apply Hm1. rewrite Heq. set_solver.
        -- constructor; [split; [done|lia]|].
           eapply Forall_impl; [exact Hall|]. simpl. intros m [Hm1 Hm2].
           split; [set_solver|done].
    + rewrite andb_true_r. destruct hasA.
      { split; [done|]. intros [[? _]|(_ & Hexp & _)]; [done|].
        apply Forall_cons in Hexp as [Hexp _]. congruence. }
      specialize (IH used true false eq_refl).
      destruct (scan_method_ids filename rest used true false) as [printed|hasU'].
      * destruct IH as [Hne Hrej]. split; [done|].
        intros [[_ Himp]|(_ & Hexp & _)].
        -- apply Hrej. left. apply Forall_cons in Himp as [_ Himp]. done.
        -- apply Forall_cons in Hexp as [Hexp _]. congruence.
      * destruct IH as [[[_ Himp]|(? & _)] ->]; [|done].
        split; [|by rewrite orb_true_r]. left. split; [done|]. by constructor.
Qed.

Lemma assign_method_ids_small items : ∀ k,
  0 ≤ k → k + Z.of_nat (length items) ≤ 2 ^ 31 →
  assign_method_ids k items = imap (λ i m, SetId m (k + Z.of_nat i)) items.
Proof.
  induction items as [|item rest IH]; intros k Hk Hlen; [done|].
  simpl. rewrite Z.add_0_r. f_equal.
  destruct rest as [|item' rest']; [done|].
  rewrite to_int_small by (simpl in Hlen; lia).
  rewrite IH by (simpl in *; lia).
  apply imap_ext. intros i m _. simpl. f_equal. lia.
Qed.

Lemma assign_method_ids_GetId items : ∀ k,
  GetId <$> imap (λ i m, SetId m (k + Z.of_nat i)) items
  = (λ i, k + Z.of_nat i) <$> seq 0 (length items).
Proof.
  induction items as [|item rest IH]; intros k; [done|].
  simpl. f_equal. rewrite <- fmap_S_seq, <- list_fmap_compose.
  transitivity (GetId <$> imap (λ i m, SetId m (k + 1 + Z.of_nat i)) rest).
  - f_equal. apply imap_ext. intros i m _. simpl. f_equal. lia.
  - rewrite IH. apply list_fmap_ext. intros _ i _. simpl. lia.
Qed.

(** C1: [check_and_assign_method_ids] returns zero exactly when no method
    has an explicit identifier, or every method has one, the identifiers are
    pairwise distinct and each lies in [0, 16777214]; in every other case it
    returns nonzero and has written a diagnostic. *)
Theorem check_and_assign_method_ids_success filename items :
  let r := check_and_assign_method_ids filename items in
  (ids_return r = 0
   ↔ Forall (λ m, HasId m = false) items
     ∨ (Forall (λ m, HasId m = true) items
        ∧ NoDup (GetId <$> items)
        ∧ Forall (λ m, 0 ≤ GetId m ≤ 16777214) items))
  ∧ (ids_return r ≠ 0 → ids_return r = 1 ∧ ids_stderr r ≠ []).
Proof.
  unfold check_and_assign_method_ids.
  pose proof (scan_method_ids_spec filename items ∅ false false eq_refl) as Hscan.
  destruct (scan_method_ids filename items ∅ false false) as [printed|hasU].
  - destruct Hscan as [Hne Hrej]. simpl. split; [|done].
    split; [done|]. intros Hok. exfalso. apply Hrej.
    destruct Hok as [Himp|(Hexp & Hnodup & Hin)]; [by left|right].
    repeat split; try done.
    eapply Forall_impl; [exact Hin|]. simpl. intros m Hm.
    split; [set_solver|done].
  - destruct Hscan as [Hacc _].
    assert (ids_return (if hasU then mkIdsResult 0 (assign_method_ids 0 items) []
                        else mkIdsResult 0 items []) = 0) as Hret
      by (by destruct hasU).
    simpl. rewrite Hret. split; [|done]. split; [|done]. intros _.
    destruct Hacc as [[_ Himp]|(_ & Hexp & Hnodup & Hin)]; [by left|right].
    repeat split; try done.
    eapply Forall_impl; [exact Hin|]. by intros m [_ Hm].
Qed.

(** C2: when no method has an explicit identifier, the call succeeds and the
    [n] methods carry the identifiers 0, 1, ..., n-1 in the order of their
    declaration, nothing else of a method being changed ([n] within the
    range of the [int] that counts them). *)
Theorem implicit_method_ids_sequential filename items :
  Forall (λ m, HasId m = false) items →
  Z.of_nat (length items) ≤ 2 ^ 31 →
  let r := check_and_assign_method_ids filename items in
  ids_return r = 0
  ∧ ids_methods r = imap (λ i m, SetId m (Z.of_nat i)) items
  ∧ GetId <$> ids_methods r = Z.of_nat <$> seq 0 (length items).
Proof.
  intros Himp Hlen. unfold check_and_assign_method_ids.
  pose proof (scan_method_ids_spec filename items ∅ false false eq_refl) as Hscan.
  destruct (scan_method_ids filename items ∅ false false) as [printed|hasU].
  - destruct Hscan as [_ Hrej]. exfalso. apply Hrej. by left.
  - destruct Hscan as [_ ->]. simpl.
    destruct items as [|item rest]; [done|].
    apply Forall_cons in Himp as Himp'. destruct Himp' as [Hitem _].
    cbn [existsb]. rewrite Hitem. cbn [negb orb ids_return ids_methods].
    rewrite assign_method_ids_small by lia.
    split; [done|]. split; [done|].
    apply (assign_method_ids_GetId (item :: rest) 0).
Qed.

Lemma implicit_method_ids_sequential_witness :
  GetId <$> ids_methods
    (check_and_assign_method_ids "IEcho.aidl"
       [plain_method "echo" 3; plain_method "add" 4; plain_method "stop" 5])
  = [0; 1; 2].
Proof.
  apply (implicit_method_ids_sequential "IEcho.aidl"
           [plain_method "echo" 3; plain_method "add" 4; plain_method "stop" 5]).
  - repeat constructor.
  - simpl. lia.
Defined.

(** C9: [check_and_assign_method_ids] changes identifiers only when it
    succeeds on methods none of which has an explicit one: when it returns
    nonzero, and when some method has an explicit identifier, every method
    is as it was on entry. *)
Theorem check_and_assign_method_ids_frame filename items :
  let r := check_and_assign_method_ids filename items in
  (ids_return r ≠ 0 → ids_methods r = items)
  ∧ (Exists (λ m, HasId m = true) items → ids_methods r = items).
Proof.
  unfold check_and_assign_method_ids.
  pose proof (scan_method_ids_spec filename items ∅ false false eq_refl) as Hscan.
  destruct (scan_method_ids filename items ∅ false false) as [printed|hasU];
    [done|].
  destruct Hscan as [Hacc ->]. simpl.
  destruct (existsb (λ m, negb (HasId m)) items) eqn:Hex; [|done].
  simpl. split; [done|]. intros Hsome. exfalso.
  apply existsb_exists in Hex as (m & Hm & Hmid).
  apply list_elem_of_In in Hm.
  destruct Hacc as [[_ Himp]|(_ & Hexp & _)].
  - apply Exists_exists in Hsome as (m' & Hm' & Hid').
    rewrite Forall_forall in Himp. specialize (Himp m' Hm'). congruence.
  - rewrite Forall_forall in Hexp. specialize (Hexp m Hm).
    rewrite Hexp in Hmid. done.
Qed.


(** ** Method signatures *)

Lemma snoc_eq_middle {A} (pre0 : list A) x0 post0 pre x :
    pre0 ++ x0 :: post0 = pre ++ [x] →
    (post0 = [] ∧ pre0 = pre ∧ x0 = x)
    ∨ (∃ post', post0 = post' ++ [x] ∧ pre = pre0 ++ x0 :: post').
  Proof.
    intros Heq. destruct post0 as [|y post0 _] using rev_ind.
    - apply app_inj_tail in Heq as [-> ->]. by left.
    - right. exists post0.
      change (pre0 ++ x0 :: post0 ++ [y]) with (pre0 ++ (x0 :: post0) ++ [y]) in Heq.
      rewrite app_assoc in Heq. by apply app_inj_tail in Heq as [-> ->].
  Qed.

Section check_types_properties.
Context {NS : Type} (T : TypeNamespace NS).

Lemma types_after_app (types : NS) names1 names2 :
  types_after T types (names1 ++ names2)
  = types_after T (types_after T types names1) names2.
Proof. unfold types_after. by rewrite foldl_app. Qed.

Lemma arg_type_invalid_types types a index filename :
  (arg_type_invalid T types a index filename).2
  = types_after T types [type_name (arg_type a)].
Proof.
  unfold arg_type_invalid, types_after. simpl.
  by destruct (MaybeAddContainerType T types (type_name (arg_type a))).
Qed.

Lemma return_type_invalid_types types m filename :
  (return_type_invalid T types m filename).2
  = types_after T types [type_name (method_type m)].
Proof.
  unfold return_type_invalid, types_after. simpl.
  by destruct (MaybeAddContainerType T types (type_name (method_type m))).
Qed.

Lemma arg_type_invalid_rejected types a index filename :
  (arg_type_invalid T types a index filename).1 = true
  ↔ argument_rejected T types a index filename.
Proof.
  unfold arg_type_invalid, argument_rejected.
  destruct (MaybeAddContainerType T types (type_name (arg_type a)))
    as [[] types']; cbn [fst snd negb].
  - rewrite negb_true_iff. naive_solver.
  - naive_solver.
Qed.

Lemma return_type_invalid_rejected types m filename :
  (return_type_invalid T types m filename).1 = true
  ↔ return_type_rejected T types (method_type m) filename.
Proof.
  unfold return_type_invalid, return_type_rejected.
  destruct (MaybeAddContainerType T types (type_name (method_type m)))
    as [[] types']; cbn [fst snd negb].
  - rewrite negb_true_iff. naive_solver.
  - naive_solver.
Qed.

Lemma check_arguments_spec filename m oneway args : ∀ st,
  let st' := foldl (check_argument T filename m oneway 1) st args in
  cs_types st'
  = types_after T (cs_types st) ((λ a, type_name (arg_type a)) <$> args)
  ∧ cs_stderr st'
    = cs_stderr st ++
        ((λ _, DiagOnewayOutParameter filename (method_line m) (method_name m))
           <$> filter (λ a, oneway && IsOut a = true) args)
  ∧ cs_method_names st' = cs_method_names st
  ∧ (cs_err st = 0 ∨ cs_err st = 1 → cs_err st' = 0 ∨ cs_err st' = 1)
  ∧ (cs_err st' ≠ 0
     ↔ cs_err st ≠ 0
       ∨ (∃ apre a apost, args = apre ++ a :: apost
            ∧ (arg_type_invalid T
                 (types_after T (cs_types st)
                    ((λ a, type_name (arg_type a)) <$> apre))
                 a 1 filename).1 = true)
       ∨ (∃ a, a ∈ args ∧ oneway = true ∧ IsOut a = true)).
Proof.
  induction args as [|arg args IH] using rev_ind; intros st; simpl.
  - rewrite app_nil_r. repeat split; try done.
    + by left.
    + intros [?|[(apre & a & apost & Heq & _)|(a & Ha & _)]]; [done|..].
      * by destruct apre.
      * by apply elem_of_nil in Ha.
  - rewrite foldl_app. simpl.
    destruct (IH st) as (Htypes & Hstderr & Hnames & Hrange & Herr).
    set (st1 := foldl (check_argument T filename m oneway 1) st args) in *.
    unfold check_argument.
    pose proof (arg_type_invalid_types (cs_types st1) arg 1 filename) as Hty.
    destruct (arg_type_invalid T (cs_types st1) arg 1 filename)
      as [invalid types1] eqn:Hinv.
    simpl in Hty.
    rewrite fmap_app, types_after_app, <- Htypes, filter_app, fmap_app.
    rewrite filter_cons, filter_nil.
    destruct (oneway && IsOut arg) eqn:Hout; simpl.
    + split; [done|]. split; [by rewrite Hstderr, <- app_assoc|].
      split; [done|]. split; [by right|].
      split; [|done]. intros _. right. right. exists arg.
      apply andb_true_iff in Hout as [-> ->].
      split; [|done]. apply elem_of_app. right. by apply list_elem_of_singleton.
    + rewrite app_nil_r.
      split; [done|]. split; [done|]. split; [done|].
      split; [destruct invalid; [by right|done]|].
      destruct invalid.
      * split; [|done]. intros _. right. left. exists args, arg, [].
        split; [done|]. by rewrite <- Htypes, Hinv.
      * rewrite Herr. split.
        -- intros [H|[(apre & a & apost & Heq & Hi)|(a & Ha & Ho)]].
           ++ by left.
           ++ right. left. exists apre, a, (apost ++ [arg]).
              split; [|done]. by rewrite Heq, <- app_assoc.
           ++ right. right. exists a. split; [|done]. apply elem_of_app. by left.
        -- intros [H|[(apre & a & apost & Heq & Hi)|(a & Ha & How & Ho)]].
           ++ by left.
           ++ symmetry in Heq.
              apply snoc_eq_middle in Heq as [(-> & -> & ->)|(post' & -> & ->)].
              ** rewrite <- Htypes, Hinv in Hi. done.
              ** right. left. by exists apre, a, post'.
           ++ apply elem_of_app in Ha as [Ha|Ha%list_elem_of_singleton].
              ** right. right. by exists a.
              ** subst. by rewrite Ho in Hout.
Qed.

Lemma check_method_step filename c st m :
  let st' := check_method T filename c st m in
  let oneway := method_oneway m || iface_oneway c in
  let returns_value :=
    oneway && negb (bool_decide (type_name (method_type m) = "void")) in
  cs_types st' = types_after T (cs_types st) (method_type_names m)
  ∧ cs_stderr st'
    = cs_stderr st
      ++ (if returns_value then
            [DiagOnewayReturnsValue filename (method_line m) (method_name m)]
          else [])
      ++ ((λ _, DiagOnewayOutParameter filename (method_line m) (method_name m))
            <$> filter (λ a, oneway && IsOut a = true) (method_arguments m))
      ++ match cs_method_names st !! method_name m with
         | Some previous =>
             [DiagRedefinedMethod filename (method_line m) (method_name m)
                (method_line previous)]
         | None => []
         end
  ∧ cs_method_names st'
    = match cs_method_names st !! method_name m with
      | Some _ => cs_method_names st
      | None => <[method_name m := m]> (cs_method_names st)
      end
  ∧ (cs_err st = 0 ∨ cs_err st = 1 → cs_err st' = 0 ∨ cs_err st' = 1)
  ∧ (cs_err st' ≠ 0
     ↔ cs_err st ≠ 0
       ∨ (return_type_invalid T (cs_types st) m filename).1 = true
       ∨ returns_value = true
       ∨ (∃ apre a apost, method_arguments m = apre ++ a :: apost
            ∧ (arg_type_invalid T
                 (types_after T (cs_types st)
                    (type_name (method_type m)
                       :: ((λ a, type_name (arg_type a)) <$> apre)))
                 a 1 filename).1 = true)
       ∨ (∃ a, a ∈ method_arguments m ∧ oneway = true ∧ IsOut a = true)
       ∨ is_Some (cs_method_names st !! method_name m)).
Proof.
  intros st' oneway returns_value. subst st'. unfold check_method.
  fold oneway. fold returns_value.
  pose proof (return_type_invalid_types (cs_types st) m filename) as Hty.
  destruct (return_type_invalid T (cs_types st) m filename)
    as [invalid types1] eqn:Hinv.
  cbn [snd] in Hty.
  match goal with
  | |- context [foldl ?f ?s (method_arguments m)] =>
      destruct (check_arguments_spec filename m oneway (method_arguments m) s)
        as (Htypes & Hstderr & Hnames & Hrange & Herr);
      set (st2 := foldl f s (method_arguments m)) in *
  end.
  simpl in Htypes, Hstderr, Hnames, Hrange, Herr.
  rewrite Hnames.
  assert (cs_types st2 = types_after T (cs_types st) (method_type_names m))
    as Htypes2.
  { rewrite Htypes, Hty. unfold method_type_names.
    by rewrite <- types_after_app. }
  assert (cs_err st2 ≠ 0
    ↔ cs_err st ≠ 0 ∨ invalid = true ∨ returns_value = true
      ∨ (∃ apre a apost, method_arguments m = apre ++ a :: apost
           ∧ (arg_type_invalid T
                (types_after T (cs_types st)
                   (type_name (method_type m)
                      :: ((λ a, type_name (arg_type a)) <$> apre)))
                a 1 filename).1 = true)
      ∨ (∃ a, a ∈ method_arguments m ∧ oneway = true ∧ IsOut a = true))
    as Herr2.
  { rewrite Herr.
    assert (∀ apre : list AidlArgument,
      types_after T types1 ((λ a, type_name (arg_type a)) <$> apre)
      = types_after T (cs_types st)
          (type_name (method_type m)
             :: ((λ a, type_name (arg_type a)) <$> apre))) as Hpre.
    { intros apre. by rewrite Hty, <- types_after_app. }
    setoid_rewrite Hpre.
    destruct returns_value, invalid; naive_solver. }
  assert (cs_err st = 0 ∨ cs_err st = 1 → cs_err st2 = 0 ∨ cs_err st2 = 1)
    as Hrange2.
  { intros H. apply Hrange. destruct returns_value, invalid; auto. }
  destruct (cs_method_names st !! method_name m) as [previous|] eqn:Hlook;
    simpl.
  - split; [done|]. split.
    { rewrite Hstderr. by rewrite <- !app_assoc. }
    split; [done|]. split; [by right|].
    split; [|done]. intros _. do 5 right. by eexists.
  - split; [done|]. split.
    { rewrite Hstderr. by rewrite app_nil_r, <- !app_assoc. }
    split; [done|]. split; [done|].
    rewrite Herr2. rewrite is_Some_alt. naive_solver.
Qed.

Lemma check_failure_snoc filename interface_oneway types methods m :
  check_failure T filename interface_oneway types (methods ++ [m])
  ↔ check_failure T filename interface_oneway types methods
    ∨ (return_type_invalid T
         (types_after T types (methods ≫= method_type_names)) m filename).1
      = true
    ∨ (method_oneway m || interface_oneway)
      && negb (bool_decide (type_name (method_type m) = "void")) = true
    ∨ (∃ apre a apost, method_arguments m = apre ++ a :: apost
         ∧ (arg_type_invalid T
              (types_after T
                 (types_after T types (methods ≫= method_type_names))
                 (type_name (method_type m)
                    :: ((λ a, type_name (arg_type a)) <$> apre)))
              a 1 filename).1 = true)
    ∨ (∃ a, a ∈ method_arguments m
         ∧ method_oneway m || interface_oneway = true ∧ IsOut a = true)
    ∨ is_Some (list_find (λ p, method_name p = method_name m) methods).
Proof.
  split.
  - intros [pre0 m0 post0 Heq Hinv|pre0 m0 post0 apre a apost Heq Hargs Hinv
            |m0 Hin How Hvoid|m0 a Hin Ha How Hout|pre0 m0 post0 Heq Hdup].
    + symmetry in Heq.
      apply snoc_eq_middle in Heq as [(-> & -> & ->)|(post' & -> & ->)].
      * right; left. by apply return_type_invalid_rejected.
      * left. by eapply FailReturnType.
    + symmetry in Heq.
      apply snoc_eq_middle in Heq as [(-> & -> & ->)|(post' & -> & ->)].
      * do 3 right. left. exists apre, a, apost. split; [done|].
        apply arg_type_invalid_rejected. by rewrite <- types_after_app.
      * left. by eapply FailArgument.
    + apply elem_of_app in Hin as [Hin|Hin%list_elem_of_singleton]; [|subst m0].
      { left. by eapply FailOnewayReturn. }
      do 2 right. left. rewrite How. by rewrite bool_decide_false.
    + apply elem_of_app in Hin as [Hin|Hin%list_elem_of_singleton]; [|subst m0].
      { left. by eapply FailOnewayOut. }
      do 4 right. left. by exists a.
    + symmetry in Heq.
      apply snoc_eq_middle in Heq as [(-> & -> & ->)|(post' & -> & ->)].
      * do 5 right.
        apply list_elem_of_fmap in Hdup as (p & Hname & Hp).
        by eapply list_find_elem_of.
      * left. by eapply FailDuplicate.
  - intros [Hfail|[Hinv|[Hret|[(apre & a & apost & Hargs & Hinv)
            |[(a & Ha & How & Hout)|[[i p] Hfind]]]]]].
    + destruct Hfail as [pre0 m0 post0 Heq Hinv
            |pre0 m0 post0 apre a apost Heq Hargs Hinv
            |m0 Hin How Hvoid|m0 a Hin Ha How Hout|pre0 m0 post0 Heq Hdup].
      * eapply (FailReturnType _ _ _ _ _ pre0 m0 (post0 ++ [m])); [|done].
        by rewrite Heq, <- app_assoc.
      * eapply (FailArgument _ _ _ _ _ pre0 m0 (post0 ++ [m])); [|done..].
        by rewrite Heq, <- app_assoc.
      * eapply FailOnewayReturn; [|done..]. apply elem_of_app. by left.
      * eapply FailOnewayOut; [|done..]. apply elem_of_app. by left.
      * eapply (FailDuplicate _ _ _ _ _ pre0 m0 (post0 ++ [m])); [|done].
        by rewrite Heq, <- app_assoc.
    + eapply (FailReturnType _ _ _ _ _ methods m []); [done|].
      by apply return_type_invalid_rejected.
    + apply andb_true_iff in Hret as [How Hvoid].
      eapply (FailOnewayReturn _ _ _ _ _ m); [|done|].
      * apply elem_of_app. right. by apply list_elem_of_singleton.
      * intros Heq. by rewrite bool_decide_true in Hvoid.
    + eapply (FailArgument _ _ _ _ _ methods m []); [done..|].
      apply arg_type_invalid_rejected. by rewrite types_after_app.
    + eapply (FailOnewayOut _ _ _ _ _ m a); [|done..].
      apply elem_of_app. right. by apply list_elem_of_singleton.
    + apply list_find_Some in Hfind as (Hp%list_elem_of_lookup_2 & Hname & _).
      eapply (FailDuplicate _ _ _ _ _ methods m []); [done|].
      rewrite <- Hname. by apply list_elem_of_fmap_2.
Qed.

Lemma all_diagnostics_app filename c rest1 : ∀ pre rest2,
  all_diagnostics filename c pre (rest1 ++ rest2)
  = all_diagnostics filename c pre rest1
    ++ all_diagnostics filename c (pre ++ rest1) rest2.
Proof.
  induction rest1 as [|m rest1 IH]; intros pre rest2; simpl.
  - by rewrite app_nil_r.
  - rewrite IH, <- !app_assoc. done.
Qed.

(** The loop over the methods, from the state that [check_types] starts
    it in. *)
Lemma check_methods_spec filename c types methods :
  let st := foldl (check_method T filename c) (mkCheckState types 0 [] ∅)
              methods in
  cs_types st = types_after T types (methods ≫= method_type_names)
  ∧ cs_stderr st = all_diagnostics filename c [] methods
  ∧ (∀ n, cs_method_names st !! n
          = snd <$> list_find (λ p, method_name p = n) methods)
  ∧ (cs_err st = 0 ∨ cs_err st = 1)
  ∧ (cs_err st ≠ 0
     ↔ check_failure T filename (iface_oneway c) types methods).
Proof.
  induction methods as [|m methods IH] using rev_ind; simpl.
  - split; [done|]. split; [done|]. split; [done|]. split; [by left|].
    split; [done|].
    intros [pre0 m0 post0 Heq _|pre0 m0 post0 ? ? ? Heq _ _
            |m0 Hin _ _|m0 ? Hin _ _ _|pre0 m0 post0 Heq _];
      try (by destruct pre0); by apply elem_of_nil in Hin.
  - rewrite foldl_app. simpl.
    destruct IH as (Htypes & Hstderr & Hnames & Hrange & Herr).
    set (st := foldl (check_method T filename c) (mkCheckState types 0 [] ∅)
                 methods) in *.
    destruct (check_method_step filename c st m)
      as (Htypes' & Hstderr' & Hnames' & Hrange' & Herr').
    rewrite (Hnames (method_name m)) in Hstderr', Hnames', Herr'.
    split; [|split; [|split; [|split]]].
    + rewrite Htypes', Htypes, bind_app, types_after_app. simpl.
      by rewrite app_nil_r.
    + rewrite Hstderr', Hstderr, all_diagnostics_app. simpl.
      rewrite app_nil_r. f_equal. unfold method_diagnostics.
      do 2 f_equal.
      by destruct (list_find _ methods) as [[i first]|].
    + intros n. rewrite Hnames'.
      destruct (list_find (λ p, method_name p = method_name m) methods)
        as [[i first]|] eqn:Hfind; simpl.
      * rewrite Hnames.
        destruct (list_find (λ p, method_name p = n) methods)
          as [[j x]|] eqn:Hfind'.
        { by erewrite list_find_app_l. }
        rewrite list_find_app_r by done. simpl.
        rewrite decide_False; [done|]. intros <-. congruence.
      * destruct (decide (method_name m = n)) as [<-|Hne].
        { rewrite lookup_insert_eq, list_find_app_r by done. simpl.
          by rewrite decide_True. }
        rewrite lookup_insert_ne, Hnames by done.
        destruct (list_find (λ p, method_name p = n) methods)
          as [[j x]|] eqn:Hfind'.
        { by erewrite list_find_app_l. }
        rewrite list_find_app_r by done. simpl.
        by rewrite decide_False.
    + auto.
    + rewrite Herr', check_failure_snoc, Herr, Htypes.
      rewrite is_Some_alt.
      assert (is_Some (list_find (λ p, method_name p = method_name m) methods)
              ↔ match snd <$> list_find (λ p, method_name p = method_name m)
                                methods with
                | Some _ => True | None => False end) as ->.
      { rewrite is_Some_alt. by destruct (list_find _ methods). }
      done.
Qed.

(** What [check_types] returns, from the loop over the methods. *)
Lemma check_types_spec filename c types :
  (check_types T filename c types).1.2
  = types_after T types (iface_methods c ≫= method_type_names)
  ∧ (check_types T filename c types).2
    = all_diagnostics filename c [] (iface_methods c)
  ∧ ((check_types T filename c types).1.1 ≠ 0
     ↔ check_failure T filename (iface_oneway c) types (iface_methods c)).
Proof.
  unfold check_types. simpl.
  by destruct (check_methods_spec filename c types (iface_methods c))
    as (? & ? & _ & _ & ?).
Qed.


Lemma check_types_return filename c types :
  (check_types T filename c types).1.1 = 0
  ∨ (check_types T filename c types).1.1 = 1.
Proof.
  unfold check_types. simpl.
  by destruct (check_methods_spec filename c types (iface_methods c))
    as (_ & _ & _ & ? & _).
Qed.

Lemma method_diagnostics_written filename c types m d :
  m ∈ iface_methods c →
  (∀ pre, d ∈ method_diagnostics filename c pre m) →
  d ∈ (check_types T filename c types).2.
Proof.
  intros Hm Hd.
  destruct (check_types_spec filename c types) as (_ & -> & _).
  apply list_elem_of_split in Hm as (pre & post & ->).
  rewrite all_diagnostics_app. simpl.
  apply elem_of_app. right. apply elem_of_app. left. apply Hd.
Qed.

(** C3: for a method that is oneway, by itself or by its interface,
    [check_types] reports an error unless the return type is void and no
    argument is out or inout; an interface that it passes with no error
    has, in every oneway method, the return type void and only in
    arguments. *)
Theorem check_types_oneway filename c types :
  let r := check_types T filename c types in
  (∀ m, m ∈ iface_methods c →
     method_oneway m || iface_oneway c = true →
     (type_name (method_type m) ≠ "void" →
      r.1.1 = 1
      ∧ DiagOnewayReturnsValue filename (method_line m) (method_name m) ∈ r.2)
     ∧ (∀ a, a ∈ method_arguments m → arg_direction a ≠ IN_DIR →
        r.1.1 = 1
        ∧ DiagOnewayOutParameter filename (method_line m) (method_name m)
            ∈ r.2))
  ∧ (r.1.1 = 0 →
     ∀ m, m ∈ iface_methods c →
       method_oneway m || iface_oneway c = true →
       type_name (method_type m) = "void"
       ∧ ∀ a, a ∈ method_arguments m → arg_direction a = IN_DIR).
Proof.
  intros r.
  destruct (check_types_spec filename c types) as (_ & _ & Herr).
  fold r in Herr.
  assert (∀ a, arg_direction a ≠ IN_DIR → IsOut a = true) as Hdir.
  { intros a. unfold IsOut. by destruct (arg_direction a). }
  assert (r.1.1 ≠ 0 → r.1.1 = 1) as Hone.
  { destruct (check_types_return filename c types); [done|by intros]. }
  assert (∀ m, m ∈ iface_methods c →
     method_oneway m || iface_oneway c = true →
     (type_name (method_type m) ≠ "void" →
      r.1.1 = 1
      ∧ DiagOnewayReturnsValue filename (method_line m) (method_name m) ∈ r.2)
     ∧ (∀ a, a ∈ method_arguments m → arg_direction a ≠ IN_DIR →
        r.1.1 = 1
        ∧ DiagOnewayOutParameter filename (method_line m) (method_name m)
            ∈ r.2)) as Hreport.
  { intros m Hm How. split.
    - intros Hvoid. split.
      + apply Hone. apply (proj2 Herr).
        by eapply (FailOnewayReturn _ _ _ _ _ m).
      + apply (method_diagnostics_written _ _ _ m); [done|]. intros pre.
        unfold method_diagnostics. rewrite How, bool_decide_false by done.
        apply elem_of_app. left. by apply list_elem_of_singleton.
    - intros a Ha Hout%Hdir. split.
      + apply Hone. apply (proj2 Herr).
        by eapply (FailOnewayOut _ _ _ _ _ m a).
      + apply (method_diagnostics_written _ _ _ m); [done|]. intros pre.
        unfold method_diagnostics. rewrite How.
        apply elem_of_app. right. apply elem_of_app. left.
        apply list_elem_of_fmap. exists a. split; [done|].
        by apply list_elem_of_filter. }
  split; [done|]. intros Hzero m Hm How.
  destruct (Hreport m Hm How) as [Hret Hargs]. split.
  - destruct (decide (type_name (method_type m) = "void")) as [|Hvoid];
      [done|].
    destruct (Hret Hvoid) as [Hr _]. rewrite Hzero in Hr. done.
  - intros a Ha.
    destruct (arg_direction a) eqn:Hdira; [done|..];
      (destruct (Hargs a Ha) as [Hr _]; [by rewrite Hdira|];
       rewrite Hzero in Hr; done).
Qed.
End check_types_properties.

Lemma check_types_oneway_witness :
  (check_types registry "com/x/IBad.aidl" oneway_violations []).1.1 = 1
  ∧ DiagOnewayOutParameter "com/x/IBad.aidl" 3 "fill"
      ∈ (check_types registry "com/x/IBad.aidl" oneway_violations []).2.
Proof.
  destruct (check_types_oneway registry "com/x/IBad.aidl" oneway_violations [])
    as [Hreport _].
  destruct (Hreport
              (mkMethod true void_type "fill" [mkArg int_type "buffer" INOUT_DIR]
                 3 false 0)) as [_ Hargs].
  - apply list_elem_of_In. simpl. auto.
  - reflexivity.
  - apply (Hargs (mkArg int_type "buffer" INOUT_DIR)).
    + apply list_elem_of_In. simpl. auto.
    + discriminate.
Defined.



(** ** File names *)

(** C4: [check_filename] compares the end of the path with the expected name
    character by character, and so accepts [/src/MyIEcho.aidl] for the
    interface [IEcho] of the empty package, although the last component of
    the path is not [IEcho.aidl]. *)
Theorem check_filename_accepts_unaligned_tail :
  check_filename "/work" "/src/MyIEcho.aidl" "" "IEcho" 1 = (true, [])
  ∧ ¬ tail_components_match "/work" "/src/MyIEcho.aidl" "" "IEcho".
Proof.
  split; [reflexivity|].
  unfold tail_components_match.
  apply (bool_decide_eq_false_1 _). reflexivity.
Qed.

(** The same with a package: [/src/xcom/x/IEcho.aidl] is accepted for
    [com.x.IEcho]. *)
Example check_filename_accepts_unaligned_package :
  check_filename "/work" "/src/xcom/x/IEcho.aidl" "com.x" "IEcho" 1 = (true, [])
  ∧ ¬ tail_components_match "/work" "/src/xcom/x/IEcho.aidl" "com.x" "IEcho".
Proof.
  split; [reflexivity|].
  unfold tail_components_match.
  apply (bool_decide_eq_false_1 _). reflexivity.
Qed.

(** Scenario S5: the expected path is named in the diagnostic. *)
Example check_filename_mismatch :
  check_filename "/work" "wrong/Path.aidl" "com.x" "IEcho" 1
  = (false, [DiagShouldBeDeclaredIn "wrong/Path.aidl" 1 "IEcho" "com/x/IEcho.aidl"]).
Proof. reflexivity. Qed.

Example check_filename_relative :
  check_filename "/work" "com/x/IEcho.aidl" "com.x" "IEcho" 1 = (true, []).
Proof. reflexivity. Qed.

(** ** The preprocess task *)

Lemma os_write_descriptors os fd buffer count :
  os_descriptors (os_write os fd buffer count) = os_descriptors os.
Proof. unfold os_write. by destruct (os_descriptors os !! fd). Qed.

(** The loop of writes: when it stops at a failed write, the descriptor is
    closed and the output file is gone; when it runs to its end, every write
    stored its whole line. *)
Lemma preprocess_write_spec E output fd lines : ∀ i os,
  match preprocess_write E output fd i lines os with
  | inl (os', printed) =>
      (∃ j s, lines !! j = Some s
              ∧ env_write E (i + j) s ≠ to_int (Z.of_nat (String.length s)))
      ∧ os_files os' !! output = None
      ∧ os_descriptors os' = delete fd (os_descriptors os)
      ∧ printed = [DiagWriteError output]
  | inr os' =>
      (∀ j s, lines !! j = Some s
              → env_write E (i + j) s = to_int (Z.of_nat (String.length s)))
      ∧ os_descriptors os' = os_descriptors os
  end.
Proof.
  induction lines as [|s lines IH]; intros i os; simpl.
  - split; [|done]. intros j s Hj. by rewrite lookup_nil in Hj.
  - case_bool_decide as Hlen.
    + split.
      { exists 0%nat, s. split; [done|]. rewrite Nat.add_0_r. congruence. }
      split; [apply lookup_delete_eq|].
      split; [|done]. simpl. by rewrite os_write_descriptors.
    + specialize (IH (S i) (os_write os fd s (env_write E i s))).
      destruct (preprocess_write E output fd (S i) lines _) as [[os' printed]|os'].
      * destruct IH as ((j & s' & Hj & Hw) & Hfile & Hdesc & Hprinted).
        split.
        { exists (S j), s'. split; [done|]. by rewrite Nat.add_succ_r. }
        split; [done|]. split; [|done].
        by rewrite Hdesc, os_write_descriptors.
      * destruct IH as [Hall Hdesc]. split.
        -- intros [|j] s' Hj; simpl in Hj.
           ++ rewrite Nat.add_0_r. congruence.
           ++ rewrite Nat.add_succ_r. by apply Hall.
        -- by rewrite Hdesc, os_write_descriptors.
Qed.

(** C8: when a write of an output line fails, [preprocess_aidl] returns
    nonzero having closed the descriptor and unlinked the output: no file is
    left under the output name, and the descriptors open are those that were
    open before. *)
Theorem preprocess_aidl_write_failure E options os lines i s :
  preprocess_read E (files_to_preprocess_ options) [] = Returned (inr lines) →
  env_open E (output_file_name_ options) = true →
  lines !! i = Some s →
  env_write E i s ≠ to_int (Z.of_nat (String.length s)) →
  ∃ os',
    preprocess_aidl E options os
    = Returned (1, os', [DiagWriteError (output_file_name_ options)])
    ∧ os_files os' !! output_file_name_ options = None
    ∧ os_descriptors os' = os_descriptors os.
Proof.
  intros Hread Hopen Hline Hwrite. unfold preprocess_aidl.
  rewrite Hread, Hopen. unfold os_open.
  set (fd := fresh (dom (os_descriptors os))).
  set (os1 := mkOS _ _).
  pose proof (preprocess_write_spec E (output_file_name_ options) fd lines
                0%nat os1) as Hspec.
  destruct (preprocess_write E (output_file_name_ options) fd 0 lines os1)
    as [[os' printed]|os'].
  - destruct Hspec as (_ & Hfile & Hdesc & ->).
    exists os'. split; [done|]. split; [done|].
    rewrite Hdesc. subst os1. simpl.
    rewrite delete_insert_eq. apply delete_id.
    apply not_elem_of_dom. apply is_fresh.
  - destruct Hspec as [Hall _]. exfalso. apply Hwrite.
    by apply (Hall i s).
Qed.

Lemma preprocess_aidl_write_failure_witness :
  ∃ os',
    preprocess_aidl failing_write
      (preprocess_options ["com/x/Foo.aidl"; "com/x/IEcho.aidl"] "pre.txt")
      (mkOS ∅ ∅)
    = Returned (1, os', [DiagWriteError "pre.txt"])
    ∧ os_files os' !! "pre.txt" = None
    ∧ os_descriptors os' = ∅.
Proof.
  eapply (preprocess_aidl_write_failure failing_write
            (preprocess_options ["com/x/Foo.aidl"; "com/x/IEcho.aidl"] "pre.txt")
            (mkOS ∅ ∅) _ 1%nat).
  - reflexivity.
  - reflexivity.
  - reflexivity.
  - vm_compute. discriminate.
Defined.

(** ** The driver *)

Section driver_properties.
Context {NS : Type} (T : TypeNamespace NS) (E : Env).

Lemma resolve_import_err_one import_paths types st import :
  imp_err st = 1 →
  imp_err (resolve_import T E import_paths types st import) = 1.
Proof.
  intros Herr. unfold resolve_import.
  destruct (HasType T types (import_needed_class import)); [done|].
  case_bool_decide; [by simpl; rewrite Herr|].
  destruct (env_ParseFile E _) as [p|]; [|by simpl; rewrite Herr].
  destruct (check_filenames E _ _) as [[] printed]; simpl; by rewrite Herr.
Qed.

Lemma resolve_imports_err_one import_paths types printed imports :
  imp_err (resolve_imports T E import_paths types 1 printed imports) = 1.
Proof.
  unfold resolve_imports.
  assert (∀ st, imp_err st = 1 →
            imp_err (foldl (resolve_import T E import_paths types) st imports)
            = 1) as Hfold.
  { induction imports as [|import imports IH]; intros st Hst; [done|].
    simpl. by apply IH, resolve_import_err_one. }
  by apply Hfold.
Qed.

(** C5, as the code has it: when the input parses as an interface and
    [check_filename] fails, the loop over the imports is still run, with
    its diagnostics, and the function returns 1 behind it: the types are
    not gathered, and the package, the types and the method identifiers
    are not checked. *)
Theorem filename_mismatch_stops_after_imports preprocessed_files import_paths
    input_file_name types p interface :
  (load_preprocessed T E preprocessed_files types).1.1 = 0 →
  env_ParseFile E input_file_name = Some p →
  parsed_document p = Some (DocInterface interface) →
  (check_filename (env_cwd E) input_file_name (iface_GetPackage interface)
     (iface_name interface) (iface_line interface)).1 = false →
  let loaded := load_preprocessed T E preprocessed_files types in
  let st :=
    resolve_imports T E import_paths loaded.1.2 1
      (loaded.2 ++
         [DiagShouldBeDeclaredIn input_file_name (iface_line interface)
            (iface_name interface)
            (expected_name (iface_GetPackage interface)
               (iface_name interface))])
      (parsed_imports p) in
  load_and_validate_aidl T E preprocessed_files import_paths input_file_name
    types
  = mkLoadResult (LoadError 1) loaded.1.2 (imp_stderr st).
Proof.
  intros Hloaded Hparse Hdoc Hname loaded st. subst st loaded.
  unfold load_and_validate_aidl.
  destruct (load_preprocessed T E preprocessed_files types)
    as [[err types1] printed].
  simpl in Hloaded. subst err. simpl.
  rewrite Hparse, Hdoc.
  unfold check_filename in Hname |- *. simpl in Hname. rewrite Hname. simpl.
  by rewrite resolve_imports_err_one.
Qed.

Lemma parse_preprocessed_file_return filename types :
  (parse_preprocessed_file T E filename types).1.1 = 0
  ∨ (parse_preprocessed_file T E filename types).1.1 = 1.
Proof.
  unfold parse_preprocessed_file.
  destruct (env_fopen E filename) as [f|]; [|by right].
  destruct (preprocessed_lines T filename _ _) as [[types' printed]|st];
    [by right|].
  destruct (stream_read_error f); auto.
Qed.

Lemma load_preprocessed_unopened preprocessed_files types f :
  f ∈ preprocessed_files → env_fopen E f = None →
  (load_preprocessed T E preprocessed_files types).1.1 = 1.
Proof.
  intros Hf Hopen. unfold load_preprocessed.
  set (step := λ '(err, types, printed) s,
                 let '(e, types, d) := parse_preprocessed_file T E s types in
                 (Z.lor err e, types, printed ++ d)).
  assert (∀ files acc, acc.1.1 = 0 ∨ acc.1.1 = 1 →
            ((foldl step acc files).1.1 = 0 ∨ (foldl step acc files).1.1 = 1)
            ∧ (acc.1.1 = 1 ∨ f ∈ files → (foldl step acc files).1.1 = 1))
    as Hfold.
  { induction files as [|s files IH]; intros [[err types'] printed] Hacc.
    - simpl in *. split; [done|]. intros [?|Hin]; [done|].
      by apply elem_of_nil in Hin.
    - simpl in Hacc. cbn [foldl].
      assert ((step (err, types', printed) s).1.1 = 0
              ∨ (step (err, types', printed) s).1.1 = 1) as Hstep.
      { simpl. pose proof (parse_preprocessed_file_return s types') as Hret.
        destruct (parse_preprocessed_file T E s types') as [[e ?] ?].
        simpl in *. destruct Hacc as [->| ->], Hret as [->| ->]; auto. }
      destruct (IH _ Hstep) as [Hrange Hone]. split; [done|].
      intros Hsome. apply Hone.
      destruct Hsome as [Herr|[->|Hin]%elem_of_cons]; [| |by right].
      + left. simpl in *. subst err.
        pose proof (parse_preprocessed_file_return s types') as Hret.
        destruct (parse_preprocessed_file T E s types') as [[e ?] ?].
        simpl in *. destruct Hret as [->| ->]; auto.
      + left. simpl. unfold parse_preprocessed_file. rewrite Hopen.
        simpl. destruct Hacc as [->| ->]; auto. }
  apply (Hfold preprocessed_files (0, types, [])); [by left|by right].
Qed.

End driver_properties.

Lemma filename_mismatch_stops_after_imports_witness :
  load_and_validate_aidl registry misplaced_file [] [] "wrong/Path.aidl" []
  = mkLoadResult (LoadError 1) []
      [DiagShouldBeDeclaredIn "wrong/Path.aidl" 1 "IEcho" "com/x/IEcho.aidl"].
Proof.
  apply (filename_mismatch_stops_after_imports registry misplaced_file [] []
           "wrong/Path.aidl" []
           (mkParsed (Some (DocInterface mixed_interface)) []) mixed_interface).
  - reflexivity.
  - reflexivity.
  - reflexivity.
  - reflexivity.
Defined.

(** C5 as stated does not hold: for the misplaced file of scenario S5
    the driver returns with the file name diagnostic alone, whereas the
    later phases, had they run, would have registered the interface and
    reported the mixed method identifiers. *)
Lemma filename_mismatch_skips_validation :
  let r :=
    load_and_validate_aidl registry misplaced_file [] [] "wrong/Path.aidl" [] in
  let mismatch :=
    DiagShouldBeDeclaredIn "wrong/Path.aidl" 1 "IEcho" "com/x/IEcho.aidl" in
  let later :=
    validate_interface registry "wrong/Path.aidl" mixed_interface
      (mkImportState 1 [mismatch] []) [] in
  env_ParseFile misplaced_file "wrong/Path.aidl"
  = Some (mkParsed (Some (DocInterface mixed_interface)) [])
  ∧ (check_filename "/work" "wrong/Path.aidl" "com.x" "IEcho" 1).1 = false
  ∧ later = mkLoadResult (LoadError 1) [(UserInterface, "com.x.IEcho")]
              [mismatch; DiagMixedIds "wrong/Path.aidl"]
  ∧ r = mkLoadResult (LoadError 1) [] [mismatch]
  ∧ r ≠ later.
Proof.
  split; [reflexivity|]. split; [reflexivity|].
  split; [vm_compute; reflexivity|]. split; [vm_compute; reflexivity|].
  vm_compute. discriminate.
Qed.

(** Scenario S6: with [pre.txt] on the list of preprocessed files the Java
    task succeeds without resolving the import; the C++ task, on the same
    input, has no such list and fails on the import. *)
Example preprocessed_import_java_and_cpp :
  compile_aidl_to_java registry preprocessed_foo (λ _ _ _ _, 0) []
    (java_options_for ["pre.txt"] "com/y/IUsesFoo.aidl")
  = (0, [])
  ∧ compile_aidl_to_cpp registry preprocessed_foo (λ _ _ _, true) []
      (mkCppOptions [] "com/y/IUsesFoo.aidl")
    = (1, [DiagImportNotFound "com/y/IUsesFoo.aidl" 1 "com.x.Foo"]).
Proof. split; vm_compute; reflexivity. Qed.

(** ** Strings *)

Lemma string_app_cons a (s t : string) : String a s +:+ t = String a (s +:+ t).
Proof. reflexivity. Qed.

Lemma string_app_nil_l (t : string) : EmptyString +:+ t = t.
Proof. reflexivity. Qed.

Lemma string_app_assoc (s1 s2 s3 : string) :
  (s1 +:+ s2) +:+ s3 = s1 +:+ (s2 +:+ s3).
Proof.
  induction s1 as [|a s1 IH]; [done|]. rewrite !string_app_cons. by rewrite IH.
Qed.

Lemma string_app_nil_r (s : string) : s +:+ EmptyString = s.
Proof.
  induction s as [|a s IH]; [done|]. rewrite string_app_cons. by rewrite IH.
Qed.

Lemma string_length_app (s1 s2 : string) :
  String.length (s1 +:+ s2) = (String.length s1 + String.length s2)%nat.
Proof.
  induction s1 as [|a s1 IH]; [done|]. rewrite string_app_cons. simpl.
  by rewrite IH.
Qed.

Lemma string_forall_app p (s1 s2 : string) :
  string_forall p (s1 +:+ s2) = string_forall p s1 && string_forall p s2.
Proof.
  induction s1 as [|a s1 IH]; [done|]. rewrite string_app_cons. simpl.
  by rewrite IH, andb_assoc.
Qed.

Lemma string_forall_impl (p q : ascii → bool) s :
  (∀ a, p a = true → q a = true) →
  string_forall p s = true → string_forall q s = true.
Proof.
  intros Hpq. induction s as [|a s IH]; simpl; [done|].
  intros [Ha Hs]%andb_true_iff. rewrite (Hpq a Ha). by apply IH.
Qed.

Lemma take_while_app_stop p s c rest :
  string_forall p s = true → p c = false →
  take_while p (s +:+ String c rest) = s.
Proof.
  intros Hs Hc. induction s as [|a s IH].
  - rewrite string_app_nil_l. simpl. by rewrite Hc.
  - rewrite string_app_cons. simpl in *.
    apply andb_true_iff in Hs as [-> Hs]. by rewrite IH.
Qed.

Lemma skip_while_app_stop p s c rest :
  string_forall p s = true → p c = false →
  skip_while p (s +:+ String c rest) = String c rest.
Proof.
  intros Hs Hc. induction s as [|a s IH].
  - rewrite string_app_nil_l. simpl. by rewrite Hc.
  - rewrite string_app_cons. simpl in *.
    apply andb_true_iff in Hs as [-> Hs]. by rewrite IH.
Qed.

Lemma before_first_absent c s :
  string_forall (λ a, negb (Ascii.eqb a c)) s = true → before_first c s = s.
Proof.
  induction s as [|a s IH]; simpl; [done|].
  intros [Ha Hs]%andb_true_iff. apply negb_true_iff in Ha. rewrite Ha.
  by rewrite IH.
Qed.

Lemma fgets_line body rest : ∀ room,
  string_forall (λ a, negb (Ascii.eqb a newline)) body = true →
  (String.length body < room)%nat →
  fgets room (body +:+ String newline rest)
  = (body +:+ String newline EmptyString, rest).
Proof.
  induction body as [|a body IH]; intros room Hbody Hroom.
  - rewrite !string_app_nil_l. destruct room; [simpl in Hroom; lia|]. done.
  - rewrite !string_app_cons. simpl in Hbody, Hroom.
    destruct room; [lia|]. apply andb_true_iff in Hbody as [Ha Hbody].
    apply negb_true_iff in Ha. simpl. rewrite Ha.
    rewrite IH by (done || lia). done.
Qed.

Lemma split_at_last_absent c s :
  string_forall (λ a, negb (Ascii.eqb a c)) s = true → split_at_last c s = None.
Proof.
  induction s as [|a s IH]; simpl; [done|].
  intros [Ha Hs]%andb_true_iff. apply negb_true_iff in Ha.
  by rewrite IH, Ha.
Qed.

Lemma split_at_last_app c s1 s2 :
  string_forall (λ a, negb (Ascii.eqb a c)) s2 = true →
  split_at_last c (s1 +:+ String c s2) = Some (s1, s2).
Proof.
  intros Hs2. induction s1 as [|a s1 IH].
  - rewrite string_app_nil_l. simpl.
    by rewrite split_at_last_absent, Ascii.eqb_refl.
  - rewrite string_app_cons. simpl. by rewrite IH.
Qed.

Lemma split_on_app_plain c comp : ∀ cur rest,
  string_forall (λ a, negb (Ascii.eqb a c)) comp = true →
  split_on c cur (comp +:+ rest) = split_on c (cur +:+ comp) rest.
Proof.
  induction comp as [|a comp IH]; intros cur rest Hcomp.
  - by rewrite string_app_nil_l, string_app_nil_r.
  - rewrite string_app_cons. simpl in *.
    apply andb_true_iff in Hcomp as [Ha Hcomp]. apply negb_true_iff in Ha.
    rewrite Ha, IH by done. by rewrite string_app_assoc.
Qed.

(** ** The preprocessed declarations *)

Lemma name_char_qualified a : name_char a = true → qualified_char a = true.
Proof.
  unfold name_char, qualified_char.
  intros [[[-> ->]%andb_true_iff _]%andb_true_iff ->]%andb_true_iff. done.
Qed.

Lemma name_char_no_dot a :
  name_char a = true → negb (Ascii.eqb a "."%char) = true.
Proof.
  unfold name_char.
  by intros [[_ ->]%andb_true_iff _]%andb_true_iff.
Qed.

Lemma qualified_char_no_newline a :
  qualified_char a = true → negb (Ascii.eqb a newline) = true.
Proof.
  unfold qualified_char, isspace, newline.
  intros [[_ Hspace]%andb_true_iff _]%andb_true_iff.
  apply negb_true_iff in Hspace. apply negb_true_iff.
  repeat (apply orb_false_iff in Hspace as [Hspace ?]). done.
Qed.

Lemma Join_cons_cons sep p q (package : list string) :
  Join sep (p :: q :: package) = p +:+ sep +:+ Join sep (q :: package).
Proof. reflexivity. Qed.

Lemma Join_qualified package :
  Forall well_formed_name package →
  string_forall qualified_char (Join "." package) = true.
Proof.
  induction 1 as [|p package [_ Hp] _ IH]; [done|].
  apply (string_forall_impl _ _ _ name_char_qualified) in Hp.
  destruct package as [|q package]; [done|].
  rewrite Join_cons_cons, !string_forall_app, Hp, IH. done.
Qed.

Lemma Join_nonempty p package :
  p ≠ EmptyString → Join "." (p :: package) ≠ EmptyString.
Proof.
  intros Hp. destruct package as [|q package]; [done|].
  rewrite Join_cons_cons. destruct p; [done|]. by rewrite string_app_cons.
Qed.

Lemma split_on_Join package : ∀ p,
  Forall well_formed_name (p :: package) →
  split_on "."%char EmptyString (Join "." (p :: package)) = p :: package.
Proof.
  induction package as [|q package IH]; intros p Hwf.
  - apply Forall_cons in Hwf as [[_ Hp] _]. cbn [Join].
    apply (string_forall_impl _ _ _ name_char_no_dot) in Hp.
    rewrite <- (string_app_nil_r p) at 1.
    by rewrite split_on_app_plain.
  - apply Forall_cons in Hwf as [[_ Hp] Hwf]. rewrite Join_cons_cons.
    apply (string_forall_impl _ _ _ name_char_no_dot) in Hp.
    rewrite split_on_app_plain by done.
    rewrite string_app_cons, !string_app_nil_l.
    change (split_on "."%char p (String "."%char (Join "." (q :: package))))
      with (p :: split_on "."%char EmptyString (Join "." (q :: package))).
    by rewrite IH.
Qed.

Lemma Split_Join package :
  Forall well_formed_name package → Split (Join "." package) = package.
Proof.
  intros Hwf. destruct package as [|p package]; [done|].
  unfold Split. rewrite bool_decide_false.
  - by apply split_on_Join.
  - apply Join_nonempty. by apply Forall_cons in Hwf as [[? _] _].
Qed.

Lemma qualified_name_chars package name :
  Forall well_formed_name package → well_formed_name name →
  qualified_name package name ≠ EmptyString
  ∧ string_forall qualified_char (qualified_name package name) = true.
Proof.
  intros Hpackage [Hname Hchars].
  apply (string_forall_impl _ _ _ name_char_qualified) in Hchars.
  unfold qualified_name. case_bool_decide as Hempty; [done|].
  split.
  - destruct (Join "." package); [done|]. by rewrite string_app_cons.
  - rewrite !string_forall_app, Join_qualified, Hchars by done. done.
Qed.

(** The two halves of a qualified name around its last dot. *)
Lemma qualified_name_split package name :
  Forall well_formed_name package → well_formed_name name →
  match split_at_last "."%char (qualified_name package name) with
  | Some (before, after) => after = name ∧ Split before = package
  | None => package = []
  end.
Proof.
  intros Hpackage [Hname Hchars].
  apply (string_forall_impl _ _ _ name_char_no_dot) in Hchars.
  unfold qualified_name. case_bool_decide as Hempty.
  - rewrite split_at_last_absent by done.
    destruct package as [|p package]; [done|].
    exfalso. revert Hempty. apply Join_nonempty.
    by apply Forall_cons in Hpackage as [[? _] _].
  - rewrite string_app_cons, string_app_nil_l, split_at_last_app by done.
    split; [done|]. by apply Split_Join.
Qed.

Lemma preprocess_line_form doc :
  preprocess_line doc
  = keyword (declaration_of doc).1.1
    +:+ String " "%char
          (qualified_name (declaration_of doc).1.2 (declaration_of doc).2
           +:+ String ";"%char (String newline EmptyString)).
Proof.
  destruct doc as [c|p next]; unfold preprocess_line, qualified_name; simpl;
    unfold iface_GetPackage, parcel_GetPackage;
    case_bool_decide; by rewrite ?string_app_assoc.
Qed.

Lemma sscanf_declaration_line K Q type fullname :
  K ≠ EmptyString → string_forall (λ a, negb (isspace a)) K = true →
  Q ≠ EmptyString → string_forall qualified_char Q = true →
  sscanf_declaration
    (K +:+ String " "%char (Q +:+ String ";"%char (String newline EmptyString)))
    type fullname
  = (K, Q).
Proof.
  intros HK HKchars HQ HQchars. unfold sscanf_declaration.
  set (tail := Q +:+ String ";"%char (String newline EmptyString)).
  assert (skip_while isspace (K +:+ String " "%char tail)
          = K +:+ String " "%char tail) as ->.
  { destruct K as [|c K]; [done|]. rewrite string_app_cons. simpl in *.
    apply andb_true_iff in HKchars as [Hc _]. apply negb_true_iff in Hc.
    by rewrite Hc. }
  rewrite bool_decide_false
    by (destruct K; [done|]; by rewrite string_app_cons).
  rewrite take_while_app_stop, skip_while_app_stop by done.
  assert (skip_while isspace (String " "%char tail) = tail) as ->.
  { simpl. subst tail. destruct Q as [|c Q]; [done|].
    rewrite string_app_cons. simpl in *.
    apply andb_true_iff in HQchars as [Hc _]. unfold qualified_char in Hc.
    apply andb_true_iff in Hc as [[_ Hc]%andb_true_iff _].
    apply negb_true_iff in Hc. by rewrite Hc. }
  subst tail. rewrite take_while_app_stop; [|..|done].
  - by rewrite bool_decide_false.
  - eapply string_forall_impl; [|exact HQchars]. unfold qualified_char.
    by intros a [[-> _]%andb_true_iff _]%andb_true_iff.
Qed.

Lemma keyword_chars kind :
  keyword kind ≠ EmptyString
  ∧ string_forall (λ a, negb (isspace a)) (keyword kind) = true
  ∧ string_forall qualified_char (keyword kind) = true.
Proof. by destruct kind. Qed.

(** The line of a well-formed declaration ends in its only newline and has
    no NUL. *)
Lemma preprocess_line_body doc :
  well_formed_declaration doc →
  ∃ body,
    preprocess_line doc = body +:+ String newline EmptyString
    ∧ string_forall (λ a, negb (Ascii.eqb a newline)) body = true
    ∧ string_forall (λ a, negb (Ascii.eqb a NUL)) (preprocess_line doc) = true.
Proof.
  intros (Hpackage & Hname & _).
  destruct (qualified_name_chars _ _ Hpackage Hname) as [_ HQ].
  destruct (keyword_chars (declaration_of doc).1.1) as (_ & _ & HK).
  rewrite preprocess_line_form.
  set (K := keyword _) in *. set (Q := qualified_name _ _) in *.
  exists (K +:+ String " "%char (Q +:+ String ";"%char EmptyString)).
  split; [|split].
  - rewrite string_app_assoc, string_app_cons. do 2 f_equal.
    by rewrite string_app_assoc.
  - apply (string_forall_impl _ _ _ qualified_char_no_newline) in HK, HQ.
    rewrite string_forall_app, HK. simpl.
    by rewrite string_forall_app, HQ.
  - assert (∀ a, qualified_char a = true → negb (Ascii.eqb a NUL) = true)
      as Hnul.
    { unfold qualified_char. by intros a [_ ->]%andb_true_iff. }
    apply (string_forall_impl _ _ _ Hnul) in HK, HQ.
    rewrite string_forall_app, HK. simpl.
    by rewrite string_forall_app, HQ.
Qed.

Section round_trip.
Context {NS : Type} (T : TypeNamespace NS).

(** One round of the loop on the line of a well-formed declaration. *)
Lemma preprocessed_line_declaration filename st doc :
  well_formed_declaration doc →
  ∃ fullname,
    preprocessed_line T filename st (preprocess_line doc)
    = match gather_types T filename
              (Some (declared (declaration_of doc).1.1 (declaration_of doc).2
                       (pre_lineno st) (declaration_of doc).1.2))
              (pre_types st) with
      | (true, types) =>
          inr (mkPreState (to_int (pre_lineno st + 1))
                 (keyword (declaration_of doc).1.1) fullname types)
      | (false, types) => inl (types, [DiagGatherPreprocessedFailed])
      end.
Proof.
  intros Hwf.
  destruct (preprocess_line_body doc Hwf) as (body & _ & _ & Hnul).
  destruct Hwf as (Hpackage & Hname & _).
  destruct (qualified_name_chars _ _ Hpackage Hname) as [HQ HQchars].
  destruct (keyword_chars (declaration_of doc).1.1) as (HK & HKchars & _).
  pose proof (qualified_name_split _ _ Hpackage Hname) as Hsplit.
  unfold preprocessed_line, c_str.
  rewrite before_first_absent by done.
  rewrite preprocess_line_form.
  rewrite sscanf_declaration_line by done.
  set (kind := (declaration_of doc).1.1) in *.
  set (package := (declaration_of doc).1.2) in *.
  set (name := (declaration_of doc).2) in *.
  assert (bool_decide
            (keyword kind
             +:+ String " "%char
                   (qualified_name package name
                    +:+ String ";"%char (String newline EmptyString))
             = EmptyString)
          || String.prefix "//"
               (keyword kind
                +:+ String " "%char
                      (qualified_name package name
                       +:+ String ";"%char (String newline EmptyString)))
          = false) as ->.
  { by destruct kind. }
  destruct (split_at_last "."%char (qualified_name package name))
    as [[before after]|].
  - destruct Hsplit as [-> ->]. exists before.
    destruct kind; cbv beta iota zeta; cbn [keyword declared];
      [rewrite bool_decide_true by done
      |rewrite bool_decide_false by done; rewrite bool_decide_true by done];
      by destruct (gather_types T filename _ (pre_types st)) as [[] ?].
  - rewrite Hsplit.
    assert (qualified_name [] name = name) as -> by done.
    exists name.
    destruct kind; cbv beta iota zeta; cbn [keyword declared];
      [rewrite bool_decide_true by done
      |rewrite bool_decide_false by done; rewrite bool_decide_true by done];
      by destruct (gather_types T filename _ (pre_types st)) as [[] ?].
Qed.

Lemma preprocessed_lines_declarations filename docs : ∀ st,
  Forall well_formed_declaration docs →
  match preprocessed_lines T filename st (preprocess_line <$> docs) with
  | inl (types, printed) =>
      register_declarations T filename (pre_lineno st)
        (declaration_of <$> docs) (pre_types st)
      = (1, types, printed)
  | inr st' =>
      register_declarations T filename (pre_lineno st)
        (declaration_of <$> docs) (pre_types st)
      = (0, pre_types st', [])
  end.
Proof.
  induction docs as [|doc docs IH]; intros st Hwf; [done|].
  apply Forall_cons in Hwf as [Hdoc Hdocs].
  rewrite !fmap_cons. cbn [preprocessed_lines register_declarations].
  destruct (preprocessed_line_declaration filename st doc Hdoc)
    as [fullname ->].
  destruct (declaration_of doc) as [[kind package] name]. cbn [fst snd].
  destruct (gather_types T filename _ (pre_types st)) as [[] types]; [|done].
  apply (IH (mkPreState _ _ _ _) Hdocs).
Qed.
End round_trip.

Lemma fgets_lines_declarations docs : ∀ fuel,
  Forall well_formed_declaration docs →
  (length docs ≤ fuel)%nat →
  fgets_lines fuel (concat_strings (preprocess_line <$> docs))
  = preprocess_line <$> docs.
Proof.
  induction docs as [|doc docs IH]; intros fuel Hwf Hfuel.
  - by destruct fuel.
  - apply Forall_cons in Hwf as [Hdoc Hdocs].
    destruct fuel as [|fuel]; [simpl in Hfuel; lia|].
    rewrite fmap_cons. cbn [concat_strings fgets_lines].
    destruct (preprocess_line_body doc Hdoc) as (body & Hline & Hbody & _).
    destruct Hdoc as (_ & _ & Hlen).
    rewrite Hline in Hlen |- *. rewrite string_length_app in Hlen.
    cbn [String.length] in Hlen.
    rewrite string_app_assoc, string_app_cons, string_app_nil_l.
    rewrite bool_decide_false
      by (destruct body; [done|]; by rewrite string_app_cons).
    rewrite fgets_line by (done || lia).
    rewrite IH by (done || simpl in Hfuel; lia). done.
Qed.

Lemma concat_strings_length docs :
  Forall well_formed_declaration docs →
  (length docs ≤ String.length (concat_strings (preprocess_line <$> docs)))%nat.
Proof.
  induction 1 as [|doc docs Hdoc _ IH]; [done|].
  rewrite fmap_cons. cbn [concat_strings]. rewrite string_length_app.
  destruct (preprocess_line_body doc Hdoc) as (body & -> & _).
  rewrite string_length_app. simpl. lia.
Qed.

(** C7 as stated does not hold for a line longer than the buffer: of
    the line of a parcelable whose name is 1020 letters long, [fgets]
    delivers the first 1023 bytes, which register a name of 1012 letters,
    and then the rest, which is refused as a bad line. *)
Lemma long_declaration_not_registered :
  let r :=
    parse_preprocessed_file registry (preprocessed_stream [long_declaration])
      "pre.txt" [] in
  preprocess_line long_declaration
  = "parcelable " +:+ long_name +:+ ";" +:+ String newline EmptyString
  ∧ r.1.1 = 1
  ∧ r.1.2 = [(UserParcelable, repeat_char "a"%char 1012)]
  ∧ r.2 = [DiagBadTypeInLine "pre.txt" 2
             ("aaaaaaaa;" +:+ String newline EmptyString)]
  ∧ (UserParcelable, long_name) ∉ r.1.2.
Proof.
  split; [reflexivity|].
  assert (parse_preprocessed_file registry
            (preprocessed_stream [long_declaration]) "pre.txt" []
          = (1, [(UserParcelable, repeat_char "a"%char 1012)],
             [DiagBadTypeInLine "pre.txt" 2
                ("aaaaaaaa;" +:+ String newline EmptyString)])) as ->
    by (vm_compute; reflexivity).
  split; [done|]. split; [done|]. split; [done|].
  intros [Heq|Hin]%elem_of_cons; [|by apply elem_of_nil in Hin].
  apply (f_equal (λ e, String.length e.2)) in Heq.
  vm_compute in Heq. lia.
Qed.

(** ** File names: what [check_filename] accepts *)

Lemma string_drop_length front : ∀ s,
  string_drop (String.length front) (front +:+ s) = s.
Proof. induction front as [|a front IH]; intros s; [done|]. apply IH. Qed.

Lemma string_drop_split s : ∀ n,
  (n ≤ String.length s)%nat →
  ∃ front, s = front +:+ string_drop n s ∧ String.length front = n.
Proof.
  induction s as [|a s IH]; intros n Hn.
  - exists EmptyString. simpl in Hn. by replace n with 0%nat by lia.
  - destruct n as [|n]; [by exists EmptyString|].
    destruct (IH n) as (front & Heq & Hlen); [simpl in Hn; lia|].
    exists (String a front). rewrite string_app_cons. simpl.
    by rewrite <- Heq, Hlen.
Qed.

(** [check_filename] accepts exactly the paths that end with the characters
    of the expected name, wherever in a component of the path they begin. *)
Lemma check_filename_suffix cwd filename package name line :
  (check_filename cwd filename package name line).1 = true
  ↔ ∃ front,
      absolute_name cwd filename = front +:+ expected_name package name.
Proof.
  unfold check_filename. cbn [fst].
  set (fn := absolute_name cwd filename).
  set (expected := expected_name package name).
  split.
  - case_bool_decide as Hlen; [|done].
    intros Heq%bool_decide_eq_true.
    destruct (string_drop_split fn (String.length fn - String.length expected))
      as (front & Hfn & _); [lia|].
    exists front. by rewrite Heq at 1.
  - intros [front Hfn].
    assert (String.length fn
            = (String.length front + String.length expected)%nat) as Hlen
      by (by rewrite Hfn, string_length_app).
    rewrite bool_decide_true by lia. apply bool_decide_eq_true.
    replace (String.length fn - String.length expected)%nat
      with (String.length front) by lia.
    by rewrite Hfn, string_drop_length.
Qed.

(** ** Method identifiers: what a successful call leaves *)

Lemma check_and_assign_method_ids_cases filename items :
  (ids_accepted ∅ false false items
   ∧ check_and_assign_method_ids filename items
     = mkIdsResult 0
         (if existsb (λ m, negb (HasId m)) items
          then assign_method_ids 0 items else items) [])
  ∨ (¬ ids_accepted ∅ false false items
     ∧ ∃ printed, printed ≠ []
         ∧ check_and_assign_method_ids filename items
           = mkIdsResult 1 items printed).
Proof.
  unfold check_and_assign_method_ids.
  pose proof (scan_method_ids_spec filename items ∅ false false eq_refl) as Hscan.
  destruct (scan_method_ids filename items ∅ false false) as [printed|hasU].
  - right. destruct Hscan as [Hne Hrej]. split; [done|]. by exists printed.
  - left. destruct Hscan as [Hacc ->]. split; [done|].
    by destruct (existsb _ items).
Qed.

Lemma existsb_implicit_false items :
  existsb (λ m, negb (HasId m)) items = false
  ↔ Forall (λ m, HasId m = true) items.
Proof.
  induction items as [|m items IH]; simpl.
  - split; [constructor|done].
  - rewrite orb_false_iff, IH, Forall_cons, negb_false_iff. done.
Qed.

(** X1: after a successful call the methods carry pairwise distinct
    identifiers, whether they were given or assigned; and they lie in
    [0, 16777214] when there are at most 16777215 methods. *)
Theorem successful_method_ids_distinct filename items :
  Z.of_nat (length items) ≤ 2 ^ 31 →
  ids_return (check_and_assign_method_ids filename items) = 0 →
  NoDup (GetId <$> ids_methods (check_and_assign_method_ids filename items))
  ∧ (Z.of_nat (length items) ≤ 16777215 →
     Forall (λ m, 0 ≤ GetId m ≤ 16777214)
       (ids_methods (check_and_assign_method_ids filename items))).
Proof.
  intros Hlen Hret.
  destruct (check_and_assign_method_ids_cases filename items)
    as [[Hacc Heq]|(_ & printed & _ & Heq)]; rewrite Heq in Hret |- *;
    [|done].
  cbn [ids_methods].
  destruct (existsb (λ m, negb (HasId m)) items) eqn:Hex.
  - rewrite assign_method_ids_small by lia.
    rewrite (assign_method_ids_GetId items 0). split.
    + apply (NoDup_fmap_2 _). apply NoDup_seq.
    + intros Hsmall. apply Forall_forall. intros m Hm.
      apply list_elem_of_lookup in Hm as [i Hi].
      apply list_lookup_imap_Some in Hi as (m0 & Hm0 & ->).
      apply lookup_lt_Some in Hm0. simpl. lia.
  - apply existsb_implicit_false in Hex.
    destruct Hacc as [[_ Himp]|(_ & _ & Hnodup & Hin)].
    + destruct items as [|m items]; [split; [constructor|by intros]|].
      apply Forall_cons in Himp as [Hm _]. apply Forall_cons in Hex as [Hm' _].
      congruence.
    + split; [done|]. intros _.
      eapply Forall_impl; [exact Hin|]. by intros m [_ Hm].
Qed.

Lemma ids_accepted_Permutation used hasU hasA items items' :
  items ≡ₚ items' →
  ids_accepted used hasU hasA items → ids_accepted used hasU hasA items'.
Proof.
  intros Hperm [[HA Himp]|(HU & Hexp & Hnodup & Hin)].
  - left. split; [done|]. by rewrite <- Hperm.
  - right. split; [done|]. split; [by rewrite <- Hperm|].
    split; [by rewrite <- Hperm|by rewrite <- Hperm].
Qed.

(** X2: whether [check_and_assign_method_ids] succeeds does not depend on
    the order in which the methods are declared. *)
Theorem method_ids_return_order_independent filename items items' :
  items ≡ₚ items' →
  ids_return (check_and_assign_method_ids filename items)
  = ids_return (check_and_assign_method_ids filename items').
Proof.
  intros Hperm.
  destruct (check_and_assign_method_ids_cases filename items)
    as [[Hacc ->]|(Hrej & printed & _ & ->)];
    destruct (check_and_assign_method_ids_cases filename items')
      as [[Hacc' ->]|(Hrej' & printed' & _ & ->)]; try done.
  - exfalso. apply Hrej'. by eapply ids_accepted_Permutation.
  - exfalso. apply Hrej. eapply ids_accepted_Permutation; [|done].
    by symmetry.
Qed.

Lemma method_ids_return_order_independent_witness :
  ids_return (check_and_assign_method_ids "IMix.aidl"
                [method_with_id "a" 1 3; plain_method "b" 2])
  = ids_return (check_and_assign_method_ids "IMix.aidl"
                  [plain_method "b" 2; method_with_id "a" 1 3]).
Proof.
  apply (method_ids_return_order_independent "IMix.aidl"
           [method_with_id "a" 1 3; plain_method "b" 2]
           [plain_method "b" 2; method_with_id "a" 1 3]).
  apply Permutation_swap.
Defined.

Lemma assign_method_ids_idempotent items : ∀ k,
  assign_method_ids k (assign_method_ids k items) = assign_method_ids k items.
Proof.
  induction items as [|m items IH]; intros k; [done|].
  simpl. by rewrite IH.
Qed.

Lemma assign_method_ids_HasId items : ∀ k,
  HasId <$> assign_method_ids k items = HasId <$> items.
Proof.
  induction items as [|m items IH]; intros k; [done|].
  simpl. by rewrite IH.
Qed.

Lemma existsb_implicit_fmap items items' :
  HasId <$> items = HasId <$> items' →
  existsb (λ m, negb (HasId m)) items = existsb (λ m, negb (HasId m)) items'.
Proof.
  revert items'. induction items as [|m items IH]; intros [|m' items'] Heq;
    try done.
  simpl in *. injection Heq as Hm Hrest. by rewrite Hm, (IH items').
Qed.

(** X3: [check_and_assign_method_ids] is idempotent: called again on the
    methods as it left them, it returns the same value and leaves the same
    methods and the same text. *)
Theorem check_and_assign_method_ids_idempotent filename items :
  check_and_assign_method_ids filename
    (ids_methods (check_and_assign_method_ids filename items))
  = check_and_assign_method_ids filename items.
Proof.
  destruct (check_and_assign_method_ids_cases filename items)
    as [[Hacc Heq]|(Hrej & printed & _ & Heq)]; rewrite Heq; cbn [ids_methods];
    [|done].
  destruct (existsb (λ m, negb (HasId m)) items) eqn:Hex; [|done].
  assert (Forall (λ m, HasId m = false) items) as Himp.
  { destruct Hacc as [[_ Himp]|(_ & Hexp & _)]; [done|].
    apply existsb_implicit_false in Hexp. congruence. }
  assert (Forall (λ m, HasId m = false) (assign_method_ids 0 items)) as Himp'.
  { apply (Forall_fmap HasId (λ b, b = false)).
    rewrite assign_method_ids_HasId.
    by apply (Forall_fmap HasId (λ b, b = false)). }
  destruct (check_and_assign_method_ids_cases filename
              (assign_method_ids 0 items))
    as [[_ ->]|(Hrej & _)].
  - rewrite (existsb_implicit_fmap _ items), Hex
      by apply assign_method_ids_HasId.
    by rewrite assign_method_ids_idempotent.
  - exfalso. apply Hrej. by left.
Qed.

(** ** Method signatures: positions, redefinitions, clean interfaces *)

Section check_types_extras.
Context {NS : Type} (T : TypeNamespace NS).

(** [check_types] asks [IsValidArg] about position 1 for every
    argument: what it returns, the namespace it leaves and what it writes
    are the same for a namespace that is asked about the first position
    only. *)
Theorem check_types_first_position filename c types :
  check_types (with_first_position T) filename c types
  = check_types T filename c types.
Proof. reflexivity. Qed.

Lemma all_diagnostics_at filename c pre m post :
  all_diagnostics filename c [] (pre ++ m :: post)
  = all_diagnostics filename c [] pre
    ++ method_diagnostics filename c pre m
    ++ all_diagnostics filename c (pre ++ [m]) post.
Proof. by rewrite all_diagnostics_app. Qed.

(** X4: a method whose name was declared before makes [check_types] return
    1 and write the redefinition with the line of the first method of that
    name. *)
Theorem check_types_redefinition filename c types pre m post i first :
  iface_methods c = pre ++ m :: post →
  list_find (λ p, method_name p = method_name m) pre = Some (i, first) →
  (check_types T filename c types).1.1 = 1
  ∧ DiagRedefinedMethod filename (method_line m) (method_name m)
      (method_line first)
    ∈ (check_types T filename c types).2.
Proof.
  intros Hmethods Hfind.
  destruct (check_types_spec T filename c types) as (_ & Hwritten & Herr).
  split.
  - destruct (check_types_return T filename c types) as [Hzero|Hone];
      [|done].
    exfalso. revert Hzero. apply Herr.
    apply (FailDuplicate T _ _ _ _ pre m post); [done|].
    apply list_find_Some in Hfind as (Hfirst%list_elem_of_lookup_2 & Hname & _).
    rewrite <- Hname. by apply list_elem_of_fmap_2.
  - rewrite Hwritten, Hmethods, all_diagnostics_at.
    apply elem_of_app. right. apply elem_of_app. left.
    unfold method_diagnostics. rewrite Hfind.
    apply elem_of_app. right. apply elem_of_app. right.
    by apply list_elem_of_singleton.
Qed.

Lemma NoDup_fmap_prefixes {A B} (f : A → B) (l : list A) :
  (∀ pre x post, l = pre ++ x :: post → f x ∉ f <$> pre) → NoDup (f <$> l).
Proof.
  induction l as [|x l IH] using rev_ind; intros Hfresh; [constructor|].
  rewrite fmap_app. apply NoDup_app. split; [|split].
  - apply IH. intros pre y post ->. apply (Hfresh pre y (post ++ [x])).
    by rewrite <- app_assoc.
  - intros y Hy [->|Hin]%elem_of_cons; [|by apply elem_of_nil in Hin].
    revert Hy. apply (Hfresh l x []). done.
  - apply NoDup_singleton.
Qed.

Lemma filter_none {A} (P : A → Prop) `{!∀ x, Decision (P x)} (l : list A) :
  Forall (λ x, ¬ P x) l → filter P l = [].
Proof.
  induction 1 as [|x l Hx _ IH]; [done|]. by rewrite filter_cons_False.
Qed.

Lemma accepted_types_valid :
  accepts_every_type T →
  (∀ types m filename, (return_type_invalid T types m filename).1 = false)
  ∧ (∀ types a index filename,
       (arg_type_invalid T types a index filename).1 = false).
Proof.
  intros (Hadd & Hret & Harg). split.
  - intros types m filename. unfold return_type_invalid.
    specialize (Hadd types (type_name (method_type m))).
    destruct (MaybeAddContainerType T types _) as [added types'].
    simpl in *. subst added. simpl. by rewrite Hret.
  - intros types a index filename. unfold arg_type_invalid.
    specialize (Hadd types (type_name (arg_type a))).
    destruct (MaybeAddContainerType T types _) as [added types'].
    simpl in *. subst added. simpl. by rewrite Harg.
Qed.

Lemma check_types_zero filename c types :
  (check_types T filename c types).1.1 = 0
  ↔ ¬ check_failure T filename (iface_oneway c) types (iface_methods c).
Proof.
  destruct (check_types_spec T filename c types) as (_ & _ & Herr).
  rewrite <- Herr. split; [by intros Hz Hnz|]. intros Hnn.
  destruct (decide ((check_types T filename c types).1.1 = 0)); [done|].
  by destruct Hnn.
Qed.

(** An interface that [check_types] passes has distinct method names and
    keeps the oneway rule. *)
Lemma check_types_zero_clean filename c types :
  (check_types T filename c types).1.1 = 0 →
  NoDup (method_name <$> iface_methods c) ∧ oneway_closed c.
Proof.
  intros Hnone%check_types_zero. split.
  - apply NoDup_fmap_prefixes. intros pre m post Hmethods Hin.
    apply Hnone. by apply (FailDuplicate T _ _ _ _ pre m post).
  - intros m Hm How. split.
    + destruct (decide (type_name (method_type m) = "void")) as [|Hvoid];
        [done|].
      exfalso. apply Hnone. by apply (FailOnewayReturn T _ _ _ _ m).
    + intros a Ha. destruct (arg_direction a) eqn:Hdir; [done|..];
        exfalso; apply Hnone;
        apply (FailOnewayOut T _ _ _ _ m a); try done;
        unfold IsOut; by rewrite Hdir.
Qed.

Lemma all_diagnostics_clean filename c :
  NoDup (method_name <$> iface_methods c) → oneway_closed c →
  ∀ rest pre, iface_methods c = pre ++ rest →
    all_diagnostics filename c pre rest = [].
Proof.
  intros Hnodup Hclosed.
  induction rest as [|m rest IH]; intros pre Hmethods; [done|].
  cbn [all_diagnostics]. rewrite IH by (by rewrite Hmethods, <- app_assoc).
  rewrite app_nil_r. unfold method_diagnostics.
  assert (m ∈ iface_methods c) as Hm.
  { rewrite Hmethods. apply elem_of_app. right. by left. }
  assert (list_find (λ p, method_name p = method_name m) pre = None) as ->.
  { apply list_find_None, Forall_forall. intros p Hp Hname.
    rewrite Hmethods, fmap_app, fmap_cons in Hnodup.
    apply NoDup_app in Hnodup as (_ & Hdisj & _).
    apply (Hdisj (method_name p)); [by apply list_elem_of_fmap_2|].
    rewrite Hname. by left. }
  destruct (method_oneway m || iface_oneway c) eqn:How.
  - destruct (Hclosed m Hm How) as [Hvoid Hargs].
    rewrite bool_decide_true by done. simpl.
    rewrite filter_none; [done|].
    apply Forall_forall. intros a Ha. unfold IsOut.
    by rewrite (Hargs a Ha).
  - simpl. rewrite filter_none; [done|].
    apply Forall_forall. by intros a _.
Qed.

(** When [check_types] returns 0 it has written nothing. *)
Lemma check_types_zero_quiet filename c types :
  (check_types T filename c types).1.1 = 0 →
  (check_types T filename c types).2 = [].
Proof.
  intros Hret. destruct (check_types_zero_clean _ _ _ Hret) as [Hnodup Hclosed].
  destruct (check_types_spec T filename c types) as (_ & -> & _).
  by apply all_diagnostics_clean.
Qed.

(** X5: in a namespace that accepts every type, [check_types] returns 0
    exactly for the interfaces whose method names are pairwise distinct and
    that keep the oneway rule; and whenever it returns 0 it has written
    nothing. *)
Theorem check_types_clean filename c types :
  ((check_types T filename c types).1.1 = 0
   → (check_types T filename c types).2 = [])
  ∧ (accepts_every_type T →
     ((check_types T filename c types).1.1 = 0
      ↔ NoDup (method_name <$> iface_methods c) ∧ oneway_closed c)).
Proof.
  split; [apply check_types_zero_quiet|].
  intros Haccepts. split; [apply check_types_zero_clean|].
  intros [Hnodup Hclosed]. apply check_types_zero.
  destruct (accepted_types_valid Haccepts) as [Hret Harg].
  intros [pre m post Hmethods Hinv|pre m post apre a apost Hmethods Hargs Hinv
          |m Hm How Hvoid|m a Hm Ha How Hout|pre m post Hmethods Hdup].
  - apply return_type_invalid_rejected in Hinv. by rewrite Hret in Hinv.
  - apply arg_type_invalid_rejected in Hinv. by rewrite Harg in Hinv.
  - by destruct (Hclosed m Hm How).
  - destruct (Hclosed m Hm How) as [_ Hargs].
    unfold IsOut in Hout. by rewrite (Hargs a Ha) in Hout.
  - rewrite Hmethods, fmap_app, fmap_cons in Hnodup.
    apply NoDup_app in Hnodup as (_ & Hdisj & _).
    apply (Hdisj (method_name m)); [done|by left].
Qed.
End check_types_extras.

(** ** File names: components *)

Lemma split_on_nonempty c s : ∀ cur, split_on c cur s ≠ [].
Proof.
  induction s as [|a s IH]; intros cur; simpl; [done|].
  destruct (Ascii.eqb a c); [done|apply IH].
Qed.

(** The components of a path, joined by the separator, are the path. *)
Lemma Join_split_on c s : ∀ cur,
  Join (String c EmptyString) (split_on c cur s) = cur +:+ s.
Proof.
  induction s as [|a s IH]; intros cur; simpl.
  - by rewrite string_app_nil_r.
  - destruct (Ascii.eqb a c) eqn:Hac.
    + apply Ascii.eqb_eq in Hac as ->.
      pose proof (split_on_nonempty c s EmptyString) as Hne.
      specialize (IH EmptyString).
      destruct (split_on c EmptyString s) as [|q l]; [done|].
      rewrite Join_cons_cons, IH. by rewrite string_app_nil_l.
    + rewrite IH. by rewrite string_app_assoc.
Qed.

Lemma Join_app sep (k l : list string) :
  k ≠ [] → l ≠ [] →
  Join sep (k ++ l) = Join sep k +:+ sep +:+ Join sep l.
Proof.
  intros Hk Hl. induction k as [|p k IH]; [done|].
  destruct k as [|q k].
  - destruct l as [|r l]; [done|]. done.
  - change ((p :: q :: k) ++ l) with (p :: q :: (k ++ l)).
    rewrite !Join_cons_cons.
    change (q :: k ++ l) with ((q :: k) ++ l). rewrite IH by done.
    by rewrite !string_app_assoc.
Qed.

(** X6: a path whose trailing components are those of the expected name is
    accepted by [check_filename], which then writes nothing. *)
Theorem check_filename_accepts_trailing_components cwd filename package name
    line :
  tail_components_match cwd filename package name →
  check_filename cwd filename package name line = (true, []).
Proof.
  unfold tail_components_match, path_components. intros [k Hk].
  assert (∃ front,
            absolute_name cwd filename = front +:+ expected_name package name)
    as [front Hfront].
  { pose proof (Join_split_on OS_PATH_SEPARATOR (absolute_name cwd filename)
                  EmptyString) as Hfn.
    pose proof (Join_split_on OS_PATH_SEPARATOR (expected_name package name)
                  EmptyString) as Hexp.
    rewrite string_app_nil_l in Hfn, Hexp.
    destruct k as [|p k].
    - exists EmptyString. rewrite string_app_nil_l.
      rewrite <- Hfn, <- Hexp. by rewrite Hk.
    - exists (Join (String OS_PATH_SEPARATOR EmptyString) (p :: k)
              +:+ String OS_PATH_SEPARATOR EmptyString).
      rewrite <- Hfn at 1. rewrite Hk, Join_app, Hexp;
        [by rewrite string_app_assoc|done|apply split_on_nonempty]. }
  unfold check_filename. rewrite Hfront, string_length_app.
  rewrite bool_decide_true by lia.
  replace (String.length front + String.length (expected_name package name)
           - String.length (expected_name package name))%nat
    with (String.length front) by lia.
  rewrite string_drop_length. by rewrite bool_decide_true.
Qed.

Lemma check_filename_accepts_trailing_components_witness :
  check_filename "/work" "src/com/x/IEcho.aidl" "com.x" "IEcho" 1 = (true, []).
Proof.
  apply check_filename_accepts_trailing_components.
  exists [""; "work"; "src"]. reflexivity.
Defined.

(** ** The declarations of an imported file *)

(** X7: for the parcelables of a file, [check_filenames] checks every one of
    them, whatever failed before: it writes the diagnostics of all that
    fail, in order, and succeeds exactly when each of them passes. *)
Theorem check_filenames_parcelables (E : Env) filename p next :
  let check q :=
    check_filename (env_cwd E) filename (parcel_GetPackage q) (parcel_name q)
      (parcel_line q) in
  (check_filenames E filename (Some (DocParcelable p next))).2
  = (p :: next) ≫= (λ q, (check q).2)
  ∧ ((check_filenames E filename (Some (DocParcelable p next))).1 = true
     ↔ Forall (λ q, (check q).1 = true) (p :: next)).
Proof.
  intros check. unfold check_filenames.
  set (step := λ '(success, printed) q,
                 let '(valid, d) :=
                   check_filename (env_cwd E) filename (parcel_GetPackage q)
                     (parcel_name q) (parcel_line q) in
                 (success && valid, printed ++ d)).
  assert (∀ l acc,
            (foldl step acc l).2 = acc.2 ++ (l ≫= (λ q, (check q).2))
            ∧ ((foldl step acc l).1 = true
               ↔ acc.1 = true ∧ Forall (λ q, (check q).1 = true) l))
    as Hfold.
  { induction l as [|q l IH]; intros [success printed].
    - simpl. rewrite app_nil_r. split; [done|]. split; [done|by intros []].
    - cbn [foldl]. destruct (IH (step (success, printed) q)) as [Hout Hok].
      rewrite Hout, Hok, Forall_cons, bind_cons. subst check. cbn beta.
      cbn [step].
      destruct (check_filename (env_cwd E) filename (parcel_GetPackage q)
                  (parcel_name q) (parcel_line q)) as [valid d].
      cbn [fst snd]. split.
      + by rewrite <- app_assoc.
      + rewrite andb_true_iff. tauto. }
  destruct (Hfold (p :: next) (true, [])) as [Hout Hok].
  split; [done|]. rewrite Hok. cbn [fst]. tauto.
Qed.

(** ** The types of a document *)

(** X8: for the parcelables of a document, [gather_types] hands every one
    of them to [AddParcelableType], in order and whatever failed before,
    and succeeds exactly when every call did. *)
Theorem gather_types_parcelables {NS : Type} (T : TypeNamespace NS) filename
    p next types :
  let add ns q := AddParcelableType T ns q filename in
  (gather_types T filename (Some (DocParcelable p next)) types).2
  = foldl (λ ns q, (add ns q).2) types (p :: next)
  ∧ ((gather_types T filename (Some (DocParcelable p next)) types).1 = true
     ↔ ∀ pre q post, p :: next = pre ++ q :: post →
         (add (foldl (λ ns q, (add ns q).2) types pre) q).1 = true).
Proof.
  intros add. unfold gather_types.
  set (step := λ '(success, types) item,
                 let '(added, types) :=
                   AddParcelableType T types item filename in
                 (success && added, types)).
  assert (∀ l,
            (foldl step (true, types) l).2
            = foldl (λ ns q, (add ns q).2) types l
            ∧ ((foldl step (true, types) l).1 = true
               ↔ ∀ pre q post, l = pre ++ q :: post →
                   (add (foldl (λ ns q, (add ns q).2) types pre) q).1 = true))
    as Hfold.
  { induction l as [|x l IH] using rev_ind.
    - split; [done|]. split; [|done]. intros _ pre q post Heq.
      by destruct pre.
    - rewrite !foldl_app. destruct IH as [Hns Hok]. cbn [foldl].
      destruct (foldl step (true, types) l) as [success ns] eqn:Hl.
      cbn [fst snd] in Hns, Hok. subst ns. cbn [step]. subst add.
      cbn beta.
      destruct (AddParcelableType T
                  (foldl (λ ns q, (AddParcelableType T ns q filename).2)
                     types l) x filename) as [added ns'] eqn:Hadd.
      cbn [fst snd]. split; [done|].
      rewrite andb_true_iff, Hok. split.
      + intros [Hall Hx] pre q post Heq. symmetry in Heq.
        apply snoc_eq_middle in Heq as [(-> & -> & ->)|(post' & -> & ->)].
        * by rewrite Hadd.
        * by apply (Hall pre q post').
      + intros Hall. split.
        * intros pre q post ->. apply (Hall pre q (post ++ [x])).
          by rewrite <- app_assoc.
        * specialize (Hall l x [] eq_refl). by rewrite Hadd in Hall. }
  apply (Hfold (p :: next)).
Qed.

(** ** Reading the preprocessed declarations: lines *)

Lemma fgets_lines_complete lines : ∀ fuel,
  Forall complete_line lines →
  (length lines ≤ fuel)%nat →
  fgets_lines fuel (concat_strings lines) = lines.
Proof.
  induction lines as [|line lines IH]; intros fuel Hlines Hfuel.
  - by destruct fuel.
  - apply Forall_cons in Hlines as [(body & -> & Hbody & Hlen) Hlines].
    destruct fuel as [|fuel]; [simpl in Hfuel; lia|].
    cbn [concat_strings fgets_lines].
    rewrite string_app_assoc, string_app_cons, string_app_nil_l.
    rewrite bool_decide_false
      by (destruct body; [done|]; by rewrite string_app_cons).
    rewrite fgets_line by done.
    rewrite IH by (done || simpl in Hfuel; lia). done.
Qed.

Lemma concat_strings_complete_length lines :
  Forall complete_line lines →
  (length lines ≤ String.length (concat_strings lines))%nat.
Proof.
  induction 1 as [|line lines (body & -> & _) _ IH]; [done|].
  cbn [concat_strings]. rewrite !string_length_app. simpl. lia.
Qed.

Lemma well_formed_line_complete l :
  well_formed_line l → complete_line (render_line l).
Proof.
  destruct l as [text|doc]; simpl.
  - intros [Htext Hlen]. exists ("//" +:+ text). split; [|split].
    + by rewrite string_app_assoc.
    + by rewrite string_forall_app, Htext.
    + rewrite string_length_app. simpl. lia.
  - intros Hdoc.
    destruct (preprocess_line_body doc Hdoc) as (body & Hline & Hbody & _).
    exists body. split; [done|]. split; [done|].
    destruct Hdoc as (_ & _ & Hlen). rewrite Hline, string_length_app in Hlen.
    cbn [String.length] in Hlen. lia.
Qed.

Lemma preprocessed_lines_app {NS : Type} (T : TypeNamespace NS) filename
    lines1 : ∀ st lines2,
  preprocessed_lines T filename st (lines1 ++ lines2)
  = match preprocessed_lines T filename st lines1 with
    | inl stop => inl stop
    | inr st' => preprocessed_lines T filename st' lines2
    end.
Proof.
  induction lines1 as [|line lines1 IH]; intros st lines2; [done|].
  simpl. destruct (preprocessed_line T filename st line); [done|apply IH].
Qed.

Lemma preprocessed_lines_printed {NS : Type} (T : TypeNamespace NS) filename
    lines : ∀ st types printed,
  preprocessed_lines T filename st lines = inl (types, printed) →
  printed ≠ [].
Proof.
  induction lines as [|line lines IH]; intros st types printed; [done|].
  simpl. destruct (preprocessed_line T filename st line) as [stop|st'] eqn:Hline;
    [|apply IH].
  intros [= ->]. revert Hline. unfold preprocessed_line.
  destruct (_ || _); [done|].
  destruct (sscanf_declaration _ _ _) as [type fullname].
  destruct (match split_at_last "."%char fullname with
            | Some (before, after) => (before, after, Split before)
            | None => (fullname, fullname, [])
            end) as [[fullname' classname] package].
  repeat case_bool_decide;
    try destruct (gather_types T filename _ (pre_types st)) as [[] types'];
    by intros [= <- <-].
Qed.

Lemma parse_preprocessed_file_quiet {NS : Type} (T : TypeNamespace NS)
    (E : Env) filename types :
  (parse_preprocessed_file T E filename types).1.1 = 0 →
  (parse_preprocessed_file T E filename types).2 = [].
Proof.
  unfold parse_preprocessed_file.
  destruct (env_fopen E filename) as [f|]; [|done].
  destruct (preprocessed_lines T filename _ _) as [[types' printed]|st];
    [done|].
  by destruct (stream_read_error f).
Qed.

(** X9: [parse_preprocessed_file] returns 0 or 1, and 0 exactly when it has
    written nothing: every failure comes with its diagnostic. *)
Theorem parse_preprocessed_file_failure_is_reported {NS : Type}
    (T : TypeNamespace NS) (E : Env) filename types :
  let r := parse_preprocessed_file T E filename types in
  (r.1.1 = 0 ∨ r.1.1 = 1) ∧ (r.1.1 = 0 ↔ r.2 = []).
Proof.
  unfold parse_preprocessed_file.
  destruct (env_fopen E filename) as [f|]; [|by split; [right|]].
  destruct (preprocessed_lines T filename _ _) as [[types' printed]|st] eqn:Hl.
  - apply preprocessed_lines_printed in Hl. by split; [right|].
  - destruct (stream_read_error f); by split; [auto|].
Qed.

Section preprocessed_lines_extras.
Context {NS : Type} (T : TypeNamespace NS).

Lemma preprocessed_line_comment filename st text :
  preprocessed_line T filename st
    ("//" +:+ text +:+ String newline EmptyString)
  = inr st.
Proof.
  unfold preprocessed_line, c_str.
  rewrite !string_app_cons, string_app_nil_l. simpl.
  by destruct (before_first NUL _).
Qed.

(** One round of the loop on a line without NUL that is no comment, when
    [sscanf] leaves the keyword of a kind and a well-formed qualified name
    in the buffers. *)
Lemma preprocessed_line_scanned filename st line kind package name :
  string_forall (λ a, negb (Ascii.eqb a NUL)) line = true →
  bool_decide (line = EmptyString) || String.prefix "//" line = false →
  sscanf_declaration line (pre_type st) (pre_fullname st)
  = (keyword kind, qualified_name package name) →
  Forall well_formed_name package → well_formed_name name →
  preprocessed_line T filename st line
  = match gather_types T filename
            (Some (declared kind name (pre_lineno st) package))
            (pre_types st) with
    | (true, types) =>
        inr (mkPreState (to_int (pre_lineno st + 1)) (keyword kind)
               (fullname_left package name) types)
    | (false, types) => inl (types, [DiagGatherPreprocessedFailed])
    end.
Proof.
  intros Hnul Hskip Hscan Hpackage Hname.
  pose proof (qualified_name_split _ _ Hpackage Hname) as Hsplit.
  unfold preprocessed_line, c_str.
  rewrite before_first_absent by done. rewrite Hskip, Hscan.
  unfold qualified_name in *.
  destruct package as [|p package].
  - rewrite bool_decide_true by done.
    destruct Hname as [_ Hchars].
    apply (string_forall_impl _ _ _ name_char_no_dot) in Hchars.
    rewrite split_at_last_absent by done.
    destruct kind; cbv beta iota zeta; cbn [keyword declared fullname_left];
      [rewrite bool_decide_true by done
      |rewrite bool_decide_false by done; rewrite bool_decide_true by done];
      by destruct (gather_types T filename _ (pre_types st)) as [[] ?].
  - assert (Join "." (p :: package) ≠ EmptyString) as Hne.
    { apply Join_nonempty. by apply Forall_cons in Hpackage as [[? _] _]. }
    rewrite bool_decide_false in Hsplit |- * by done.
    destruct Hname as [_ Hchars].
    apply (string_forall_impl _ _ _ name_char_no_dot) in Hchars.
    rewrite string_app_cons, string_app_nil_l, split_at_last_app by done.
    rewrite Split_Join by done.
    destruct kind; cbv beta iota zeta; cbn [keyword declared fullname_left];
      [rewrite bool_decide_true by done
      |rewrite bool_decide_false by done; rewrite bool_decide_true by done];
      by destruct (gather_types T filename _ (pre_types st)) as [[] ?].
Qed.

Lemma preprocess_line_no_comment doc :
  bool_decide (preprocess_line doc = EmptyString)
  || String.prefix "//" (preprocess_line doc) = false.
Proof. rewrite preprocess_line_form. by destruct (declaration_of doc).1.1. Qed.

(** One round of the loop on the line of a well-formed declaration, with
    the buffers as it leaves them. *)
Lemma preprocessed_line_declaration_buffers filename st doc :
  well_formed_declaration doc →
  preprocessed_line T filename st (preprocess_line doc)
  = match gather_types T filename
            (Some (declared (declaration_of doc).1.1 (declaration_of doc).2
                     (pre_lineno st) (declaration_of doc).1.2))
            (pre_types st) with
    | (true, types) =>
        inr (mkPreState (to_int (pre_lineno st + 1))
               (keyword (declaration_of doc).1.1)
               (fullname_left (declaration_of doc).1.2 (declaration_of doc).2)
               types)
    | (false, types) => inl (types, [DiagGatherPreprocessedFailed])
    end.
Proof.
  intros Hwf.
  destruct (preprocess_line_body doc Hwf) as (body & _ & _ & Hnul).
  destruct Hwf as (Hpackage & Hname & _).
  destruct (qualified_name_chars _ _ Hpackage Hname) as [HQ HQchars].
  destruct (keyword_chars (declaration_of doc).1.1) as (HK & HKchars & _).
  apply preprocessed_line_scanned; try done.
  - apply preprocess_line_no_comment.
  - rewrite preprocess_line_form. by apply sscanf_declaration_line.
Qed.

Lemma preprocessed_lines_rendered filename lines : ∀ st,
  Forall well_formed_line lines →
  match preprocessed_lines T filename st (render_line <$> lines) with
  | inl (types, printed) =>
      register_declarations T filename (pre_lineno st)
        (omap declaration_on lines) (pre_types st)
      = (1, types, printed)
  | inr st' =>
      register_declarations T filename (pre_lineno st)
        (omap declaration_on lines) (pre_types st)
      = (0, pre_types st', [])
  end.
Proof.
  induction lines as [|l lines IH]; intros st Hwf; [done|].
  apply Forall_cons in Hwf as [Hl Hlines].
  rewrite fmap_cons. cbn [preprocessed_lines].
  destruct l as [text|doc]; cbn [render_line].
  - change (omap declaration_on (CommentLine text :: lines))
      with (omap declaration_on lines).
    rewrite preprocessed_line_comment. by apply IH.
  - change (omap declaration_on (DeclarationLine doc :: lines))
      with (declaration_of doc :: omap declaration_on lines).
    rewrite preprocessed_line_declaration_buffers by done.
    cbn [register_declarations].
    destruct (declaration_of doc) as [[kind package] name]. cbn [fst snd].
    destruct (gather_types T filename _ (pre_types st)) as [[] types]; [|done].
    apply (IH (mkPreState _ _ _ _) Hlines).
Qed.

(** X10: comment lines are skipped and not counted: reading a file of
    comments and well-formed declarations, each line fitting the buffer,
    [parse_preprocessed_file] registers the declarations as if the comments
    were not there, the line number of a declaration being its rank among
    the declarations. *)
Theorem parse_preprocessed_file_skips_comments (E : Env) filename lines types :
  Forall well_formed_line lines →
  env_fopen E filename
  = Some (mkStream (concat_strings (render_line <$> lines)) false) →
  parse_preprocessed_file T E filename types
  = register_declarations T filename 1 (omap declaration_on lines) types.
Proof.
  intros Hwf Hopen. unfold parse_preprocessed_file.
  rewrite Hopen. cbn [stream_bytes stream_read_error].
  assert (Forall complete_line (render_line <$> lines)) as Hcomplete.
  { apply Forall_fmap. eapply Forall_impl; [exact Hwf|].
    apply well_formed_line_complete. }
  rewrite fgets_lines_complete
    by (done || by apply concat_strings_complete_length).
  pose proof (preprocessed_lines_rendered filename lines
                (mkPreState 1 (env_uninitialised E "type")
                     (env_uninitialised E "fullname")
                   types) Hwf) as Hlines.
  destruct (preprocessed_lines T filename _ (render_line <$> lines))
    as [[types' printed]|st']; cbn [pre_lineno pre_types] in Hlines;
    by rewrite Hlines.
Qed.
End preprocessed_lines_extras.

(** ** The preprocessed declarations: qualified names *)

Lemma split_at_last_Some c s : ∀ before after,
  split_at_last c s = Some (before, after) →
  s = before +:+ String c after.
Proof.
  induction s as [|a s IH]; intros before after; simpl; [done|].
  destruct (split_at_last c s) as [[b t]|].
  - intros [= <- <-]. rewrite string_app_cons. f_equal. by apply IH.
  - destruct (Ascii.eqb a c) eqn:Hac; [|done].
    apply Ascii.eqb_eq in Hac as ->. by intros [= <- <-].
Qed.

Lemma Join_Split s : Join "." (Split s) = s.
Proof.
  unfold Split. case_bool_decide as Hs; [by subst s|].
  apply (Join_split_on "."%char s EmptyString).
Qed.

(** The package and the class name that the reader makes of a qualified
    name spell that name again. *)
Lemma qualified_name_read Q :
  qualified Q →
  match split_at_last "."%char Q with
  | Some (before, after) => qualified_name (Split before) after = Q
  | None => qualified_name [] Q = Q
  end.
Proof.
  intros (_ & _ & Hfirst).
  destruct (split_at_last "."%char Q) as [[before after]|] eqn:Hsplit; [|done].
  apply split_at_last_Some in Hsplit. unfold qualified_name.
  rewrite Join_Split. rewrite bool_decide_false.
  - by rewrite Hsplit, string_app_cons, string_app_nil_l.
  - intros ->. by rewrite Hsplit in Hfirst.
Qed.

Lemma readable_declaration_line doc :
  readable_declaration doc →
  complete_line (preprocess_line doc)
  ∧ string_forall (λ a, negb (Ascii.eqb a NUL)) (preprocess_line doc) = true.
Proof.
  intros [(_ & HQ & _) Hlen]. unfold declared_name in HQ.
  destruct (keyword_chars (declaration_of doc).1.1) as (_ & _ & HK).
  rewrite preprocess_line_form in Hlen |- *.
  set (K := keyword _) in *. set (Q := qualified_name _ _) in *.
  assert (K +:+ String " "%char
                  (Q +:+ String ";"%char (String newline EmptyString))
          = (K +:+ String " "%char (Q +:+ String ";"%char EmptyString))
            +:+ String newline EmptyString) as Hline.
  { rewrite string_app_assoc, string_app_cons. do 2 f_equal.
    by rewrite string_app_assoc. }
  split.
  - exists (K +:+ String " "%char (Q +:+ String ";"%char EmptyString)).
    split; [done|]. split.
    + apply (string_forall_impl _ _ _ qualified_char_no_newline) in HK, HQ.
      rewrite string_forall_app, HK. simpl.
      by rewrite string_forall_app, HQ.
    + rewrite Hline, string_length_app in Hlen. cbn [String.length] in Hlen.
      assert (sizeof_line - 1 = 1023)%nat as Hsize by done.
      rewrite Hsize in Hlen |- *. lia.
  - assert (∀ a, qualified_char a = true → negb (Ascii.eqb a NUL) = true)
      as Hnul.
    { unfold qualified_char. by intros a [_ ->]%andb_true_iff. }
    apply (string_forall_impl _ _ _ Hnul) in HK, HQ.
    rewrite string_forall_app, HK. simpl.
    by rewrite string_forall_app, HQ.
Qed.

Section qualified_round_trip.
Context {NS : Type} (T : TypeNamespace NS).

(** One round of the loop on the line of a readable declaration: the
    namespace is handed a declaration of the same kind and the same
    qualified name. *)
Lemma preprocessed_line_readable filename st doc :
  readable_declaration doc →
  ∃ d type fullname,
    d.1.1 = (declaration_of doc).1.1
    ∧ qualified_name d.1.2 d.2 = declared_name doc
    ∧ preprocessed_line T filename st (preprocess_line doc)
      = match gather_types T filename
                (Some (declared d.1.1 d.2 (pre_lineno st) d.1.2))
                (pre_types st) with
        | (true, types) =>
            inr (mkPreState (to_int (pre_lineno st + 1)) type fullname types)
        | (false, types) => inl (types, [DiagGatherPreprocessedFailed])
        end.
Proof.
  intros Hdoc.
  destruct (readable_declaration_line doc Hdoc) as [_ Hnul].
  destruct Hdoc as [HQ _].
  pose proof (qualified_name_read _ HQ) as Hread.
  destruct HQ as (HQ & HQchars & _).
  destruct (keyword_chars (declaration_of doc).1.1) as (HK & HKchars & _).
  pose proof (preprocess_line_no_comment doc) as Hcomment.
  unfold preprocessed_line, c_str.
  rewrite before_first_absent by done. rewrite Hcomment.
  rewrite preprocess_line_form.
  rewrite sscanf_declaration_line by done.
  unfold declared_name in *.
  set (kind := (declaration_of doc).1.1) in *.
  set (Q := qualified_name _ _) in *.
  destruct (split_at_last "."%char Q) as [[before after]|].
  - exists (kind, Split before, after), (keyword kind), before.
    split; [done|]. split; [done|].
    destruct kind; cbv beta iota zeta; cbn [keyword declared fst snd];
      [rewrite bool_decide_true by done
      |rewrite bool_decide_false by done; rewrite bool_decide_true by done];
      by destruct (gather_types T filename _ (pre_types st)) as [[] ?].
  - exists (kind, [], Q), (keyword kind), Q.
    split; [done|]. split; [done|].
    destruct kind; cbv beta iota zeta; cbn [keyword declared fst snd];
      [rewrite bool_decide_true by done
      |rewrite bool_decide_false by done; rewrite bool_decide_true by done];
      by destruct (gather_types T filename _ (pre_types st)) as [[] ?].
Qed.

Lemma preprocessed_lines_readable filename docs : ∀ st,
  Forall readable_declaration docs →
  ∃ read,
    Forall2 (λ doc d,
               d.1.1 = (declaration_of doc).1.1
               ∧ qualified_name d.1.2 d.2 = declared_name doc) docs read
    ∧ match preprocessed_lines T filename st (preprocess_line <$> docs) with
      | inl (types, printed) =>
          register_declarations T filename (pre_lineno st) read (pre_types st)
          = (1, types, printed)
      | inr st' =>
          register_declarations T filename (pre_lineno st) read (pre_types st)
          = (0, pre_types st', [])
      end.
Proof.
  induction docs as [|doc docs IH]; intros st Hdocs.
  - exists []. split; [constructor|done].
  - apply Forall_cons in Hdocs as [Hdoc Hdocs].
    destruct (preprocessed_line_readable filename st doc Hdoc)
      as ([[kind package] name] & type & fullname & Hkind & Hname & Hline).
    cbn [fst snd] in Hkind, Hname, Hline.
    rewrite fmap_cons. cbn [preprocessed_lines]. rewrite Hline.
    destruct (gather_types T filename _ (pre_types st)) as [[] types] eqn:Hg.
    + destruct (IH (mkPreState (to_int (pre_lineno st + 1)) type fullname types)
                  Hdocs) as (read & Hread & Hrest).
      exists ((kind, package, name) :: read). split; [by constructor|].
      cbn [register_declarations]. rewrite Hg. exact Hrest.
    + destruct (IH st Hdocs) as (read & Hread & _).
      exists ((kind, package, name) :: read). split; [by constructor|].
      cbn [register_declarations]. by rewrite Hg.
Qed.
End qualified_round_trip.

(** C7, for the lines that fit the buffer of [fgets]: the line that
    [preprocess_aidl] writes for a declaration is the keyword of its kind, a
    space, the qualified name [Q], a semicolon and a newline; and
    [parse_preprocessed_file], reading the lines of declarations whose
    names are qualified names, dots of a nested class included, hands the
    namespace for each line, in order, a declaration of the same kind whose
    qualified name is [Q] again, and succeeds when the namespace accepts
    them all. *)
Theorem preprocessed_round_trip {NS : Type} (T : TypeNamespace NS) (E : Env)
    filename docs types :
  Forall readable_declaration docs →
  env_fopen E filename
  = Some (mkStream (concat_strings (preprocess_line <$> docs)) false) →
  Forall (λ doc,
            preprocess_line doc
            = keyword (declaration_of doc).1.1 +:+ " " +:+ declared_name doc
              +:+ ";" +:+ String newline EmptyString) docs
  ∧ ∃ read,
      Forall2 (λ doc d,
                 d.1.1 = (declaration_of doc).1.1
                 ∧ qualified_name d.1.2 d.2 = declared_name doc) docs read
      ∧ parse_preprocessed_file T E filename types
        = register_declarations T filename 1 read types.
Proof.
  intros Hdocs Hopen. split.
  - apply Forall_forall. intros doc _. apply preprocess_line_form.
  - assert (Forall complete_line (preprocess_line <$> docs)) as Hlines.
    { apply Forall_fmap. eapply Forall_impl; [exact Hdocs|].
      intros doc Hdoc. by apply readable_declaration_line. }
    unfold parse_preprocessed_file. rewrite Hopen. cbn [stream_bytes].
    rewrite fgets_lines_complete
      by (done || by apply concat_strings_complete_length).
    destruct (preprocessed_lines_readable T filename docs
                (mkPreState 1 (env_uninitialised E "type")
                   (env_uninitialised E "fullname") types) Hdocs)
      as (read & Hread & Hrun).
    exists read. split; [done|].
    destruct (preprocessed_lines T filename _ (preprocess_line <$> docs))
      as [[types' printed]|st']; cbn [pre_lineno pre_types] in Hrun;
      by rewrite Hrun.
Qed.

Lemma preprocessed_round_trip_witness :
  ∃ read,
    Forall2 (λ doc d,
               d.1.1 = (declaration_of doc).1.1
               ∧ qualified_name d.1.2 d.2 = declared_name doc)
      [nested_parcelable; DocInterface mixed_interface] read
    ∧ parse_preprocessed_file registry
        (preprocessed_stream [nested_parcelable; DocInterface mixed_interface])
        "pre.txt" []
      = register_declarations registry "pre.txt" 1 read [].
Proof.
  apply (preprocessed_round_trip registry
           (preprocessed_stream
              [nested_parcelable; DocInterface mixed_interface])
           "pre.txt" [nested_parcelable; DocInterface mixed_interface] []).
  - repeat constructor; try done; vm_compute; lia.
  - reflexivity.
Defined.

(** The nested class [com.x.Rect.Inner] is registered under its qualified
    name, the reader taking [com.x.Rect] for its package. *)
Example nested_parcelable_round_trip :
  preprocess_line nested_parcelable
  = "parcelable com.x.Rect.Inner;" +:+ String newline EmptyString
  ∧ parse_preprocessed_file registry
      (preprocessed_stream [nested_parcelable; DocInterface mixed_interface])
      "pre.txt" []
    = (0, [(UserParcelable, "com.x.Rect.Inner"); (UserInterface, "com.x.IEcho")],
       []).
Proof. split; vm_compute; reflexivity. Qed.

(** ** Reading the preprocessed declarations: blank lines *)

Lemma blank_char_space a : blank_char a = true → isspace a = true.
Proof. unfold blank_char. by intros [-> _]%andb_true_iff. Qed.

Lemma sscanf_declaration_blank w type fullname :
  string_forall isspace w = true →
  sscanf_declaration w type fullname = (type, fullname).
Proof.
  intros Hw. unfold sscanf_declaration.
  assert (skip_while isspace w = EmptyString) as ->; [|done].
  induction w as [|a w IH]; [done|]. simpl in *.
  apply andb_true_iff in Hw as [-> Hw]. by apply IH.
Qed.

(** The buffers left behind a declaration spell the stale declaration. *)
Lemma stale_declaration_spelled kind package name :
  Forall well_formed_name package → well_formed_name name →
  Forall well_formed_name (stale_declaration (kind, package, name)).1.2
  ∧ well_formed_name (stale_declaration (kind, package, name)).2
  ∧ fullname_left package name
    = qualified_name (stale_declaration (kind, package, name)).1.2
        (stale_declaration (kind, package, name)).2.
Proof.
  intros Hpackage Hname. unfold stale_declaration. cbn [fst snd].
  destruct package as [|p package]; [done|]. cbn [fst snd fullname_left].
  assert (p :: package ≠ []) as Hne by done.
  pose proof (app_removelast_last p Hne) as Hsplit.
  set (init := List.removelast (p :: package)) in *.
  set (lst := List.last (p :: package) p) in *.
  rewrite Hsplit in Hpackage |- *.
  apply Forall_app in Hpackage as [Hinit Hlst].
  apply Forall_cons in Hlst as [Hlst _].
  split; [done|]. split; [done|].
  unfold qualified_name. destruct init as [|q init]; [done|].
  rewrite bool_decide_false.
  - by rewrite Join_app.
  - apply Join_nonempty. by apply Forall_cons in Hinit as [[? _] _].
Qed.

(** X11: a blank line is not skipped: [sscanf] stores nothing, and the loop
    goes on with what the buffers hold.  In a file of two lines, the line
    of a well-formed declaration and a line of white space, the second line
    registers the stale declaration: the same name again when the package
    is empty, and otherwise the package, its last component taken as the
    name. *)
Theorem parse_preprocessed_file_blank_line {NS : Type} (T : TypeNamespace NS)
    (E : Env) filename doc w types :
  well_formed_declaration doc →
  string_forall blank_char w = true →
  (String.length w < sizeof_line - 1)%nat →
  env_fopen E filename
  = Some (mkStream
            (preprocess_line doc +:+ w +:+ String newline EmptyString) false) →
  parse_preprocessed_file T E filename types
  = register_declarations T filename 1
      [declaration_of doc; stale_declaration (declaration_of doc)] types.
Proof.
  intros Hdoc Hw Hlen Hopen. unfold parse_preprocessed_file.
  rewrite Hopen. cbn [stream_bytes stream_read_error].
  set (blank := w +:+ String newline EmptyString).
  assert (Forall complete_line [preprocess_line doc; blank]) as Hcomplete.
  { repeat constructor.
    - apply (well_formed_line_complete (DeclarationLine doc) Hdoc).
    - exists w. split; [done|]. split; [|done].
      eapply string_forall_impl; [|exact Hw]. unfold blank_char.
      by intros a [_ ->]%andb_true_iff. }
  assert (preprocess_line doc +:+ blank
          = concat_strings [preprocess_line doc; blank]) as ->
    by (cbn [concat_strings]; by rewrite string_app_nil_r).
  rewrite fgets_lines_complete
    by (done || by apply concat_strings_complete_length).
  cbn [preprocessed_lines register_declarations].
  rewrite preprocessed_line_declaration_buffers by done.
  destruct Hdoc as (Hpackage & Hname & _).
  destruct (declaration_of doc) as [[kind package] name]. cbn [fst snd] in *.
  cbn [pre_lineno pre_types].
  destruct (gather_types T filename _ types) as [[] types1];
    cbn [preprocessed_lines]; [|done].
  destruct (stale_declaration_spelled kind package name Hpackage Hname)
    as (Hpackage' & Hname' & Hspelled).
  destruct (stale_declaration (kind, package, name))
    as [[kind' package'] name'] eqn:Hstale.
  assert (kind' = kind) as ->.
  { unfold stale_declaration in Hstale. cbn [fst snd] in Hstale.
    destruct package; by injection Hstale. }
  cbn [fst snd] in *.
  rewrite (preprocessed_line_scanned T filename _ blank kind package' name').
  - cbn [pre_lineno pre_types].
    by destruct (gather_types T filename _ types1) as [[] types2].
  - subst blank. rewrite string_forall_app. apply andb_true_iff. split; [|done].
    eapply string_forall_impl; [|exact Hw]. unfold blank_char, isspace, NUL.
    intros a [Ha _]%andb_true_iff.
    destruct (Ascii.eqb a Ascii.zero) eqn:Hzero; [|done].
    apply Ascii.eqb_eq in Hzero. by subst a.
  - subst blank. destruct w as [|a w]; [done|].
    rewrite string_app_cons. simpl in Hw.
    apply andb_true_iff in Hw as [Ha _]. apply blank_char_space in Ha.
    rewrite bool_decide_false by done. cbn [String.prefix orb].
    destruct (ascii_dec "/" a) as [<-|Hne]; [by vm_compute in Ha|done].
  - cbn [pre_type pre_fullname]. rewrite sscanf_declaration_blank.
    + by rewrite Hspelled.
    + subst blank. rewrite string_forall_app. apply andb_true_iff.
      split; [|done].
      eapply string_forall_impl; [|exact Hw]. apply blank_char_space.
  - done.
  - done.
Qed.

(** ** Reading the preprocessed declarations: a bad line *)

(** X12: a first line of the form [<word> <name>;] that is no comment and
    whose word is neither [parcelable] nor [interface] stops the reading:
    the function returns 1 with the diagnostic of that line, the namespace
    is as it was, and what follows in the file is not read. *)
Theorem parse_preprocessed_file_bad_type {NS : Type} (T : TypeNamespace NS)
    (E : Env) filename word Q rest types :
  let line :=
    word +:+ String " "%char (Q +:+ String ";"%char (String newline EmptyString))
  in
  word ≠ EmptyString →
  string_forall (λ a, negb (isspace a)) word = true →
  string_forall (λ a, negb (Ascii.eqb a NUL)) word = true →
  word ≠ "parcelable" → word ≠ "interface" →
  String.prefix "//" line = false →
  Q ≠ EmptyString → string_forall qualified_char Q = true →
  (String.length line ≤ sizeof_line - 1)%nat →
  env_fopen E filename = Some (mkStream (line +:+ rest) false) →
  parse_preprocessed_file T E filename types
  = (1, types, [DiagBadTypeInLine filename 1 line]).
Proof.
  intros line Hword Hspace Hnul Hparcelable Hinterface Hcomment HQ HQchars Hlen
    Hopen.
  assert (line
          = (word +:+ String " "%char (Q +:+ String ";"%char EmptyString))
            +:+ String newline EmptyString) as Hbody.
  { subst line. rewrite string_app_assoc, string_app_cons. do 2 f_equal.
    by rewrite string_app_assoc. }
  assert (line ≠ EmptyString) as Hline.
  { subst line. destruct word; [done|]. by rewrite string_app_cons. }
  unfold parse_preprocessed_file. rewrite Hopen.
  cbn [stream_bytes stream_read_error].
  destruct (String.length (line +:+ rest)) as [|fuel] eqn:Hfuel.
  { rewrite string_length_app in Hfuel. destruct line; [done|].
    simpl in Hfuel. lia. }
  cbn [fgets_lines].
  rewrite bool_decide_false
    by (destruct line; [done|]; by rewrite string_app_cons).
  rewrite Hbody at 1. rewrite string_app_assoc, string_app_cons,
    string_app_nil_l.
  rewrite fgets_line; [rewrite <- Hbody|..].
  - cbn [preprocessed_lines]. unfold preprocessed_line, c_str.
    assert (string_forall (λ a, negb (Ascii.eqb a NUL)) line = true) as Hnul'.
    { subst line. rewrite string_forall_app, Hnul. simpl.
      rewrite string_forall_app. apply andb_true_iff. split; [|done].
      eapply string_forall_impl; [|exact HQchars]. unfold qualified_char.
      by intros a [_ ->]%andb_true_iff. }
    rewrite before_first_absent by done.
    rewrite bool_decide_false, Hcomment by done. cbn [orb].
    subst line. rewrite sscanf_declaration_line by done.
    destruct (split_at_last "."%char Q) as [[before after]|];
      by rewrite !bool_decide_false by done.
  - apply (string_forall_impl _ _ _ qualified_char_no_newline) in HQchars.
    rewrite string_forall_app. apply andb_true_iff. split.
    + eapply string_forall_impl; [|exact Hspace]. unfold isspace, newline.
      intros a Ha. apply negb_true_iff in Ha. apply negb_true_iff.
      repeat (apply orb_false_iff in Ha as [Ha ?]). done.
    + simpl. by rewrite string_forall_app, HQchars.
  - rewrite Hbody, string_length_app in Hlen. cbn [String.length] in Hlen. lia.
Qed.

(** ** The preprocess task: reading, writing, and what is left alone *)

Lemma preprocess_read_parsed E files docs : ∀ lines,
  Forall2 (parses_to E) files docs →
  preprocess_read E files lines
  = Returned (inr (lines ++ (preprocess_line <$> docs))).
Proof.
  intros lines Hparsed. revert lines.
  induction Hparsed as [|file doc files docs (p & Hp & Hdoc) _ IH];
    intros lines; simpl.
  - by rewrite app_nil_r.
  - rewrite Hp, Hdoc, IH. by rewrite <- app_assoc.
Qed.

Lemma preprocess_read_failure E pre file post : ∀ docs lines,
  Forall2 (parses_to E) pre docs →
  env_ParseFile E file = None →
  preprocess_read E (pre ++ file :: post) lines = Returned (inl ()).
Proof.
  intros docs lines Hparsed Hfile. revert lines.
  induction Hparsed as [|f doc pre docs (p & Hp & Hdoc) _ IH];
    intros lines; simpl.
  - by rewrite Hfile.
  - by rewrite Hp, Hdoc, IH.
Qed.

Lemma substring_whole s : String.substring 0 (String.length s) s = s.
Proof. induction s as [|a s IH]; [done|]. simpl. by rewrite IH. Qed.

Lemma os_write_other os fd out buffer count path :
  os_descriptors os !! fd = Some out → path ≠ out →
  os_files (os_write os fd buffer count) !! path = os_files os !! path.
Proof.
  intros Hfd Hpath. unfold os_write. rewrite Hfd. simpl.
  by rewrite lookup_alter_ne.
Qed.

(** The loop of writes leaves every other file as it was, and behind the
    contents of the output the lines that were written whole. *)
Lemma preprocess_write_files E out fd lines : ∀ i os c,
  os_descriptors os !! fd = Some out →
  os_files os !! out = Some c →
  Forall (λ s, Z.of_nat (String.length s) < 2 ^ 31) lines →
  match preprocess_write E out fd i lines os with
  | inl (os', _) =>
      ∀ path, path ≠ out → os_files os' !! path = os_files os !! path
  | inr os' =>
      os_files os' !! out = Some (c +:+ concat_strings lines)
      ∧ ∀ path, path ≠ out → os_files os' !! path = os_files os !! path
  end.
Proof.
  induction lines as [|s lines IH]; intros i os c Hfd Hout Hsmall.
  - simpl. by rewrite string_app_nil_r.
  - apply Forall_cons in Hsmall as [Hs Hsmall]. cbn [preprocess_write].
    rewrite to_int_small by lia.
    case_bool_decide as Hwritten.
    + intros path Hpath. simpl. rewrite lookup_delete_ne by done.
      by eapply os_write_other.
    + rewrite <- Hwritten.
      specialize (IH (S i)
                    (os_write os fd s (Z.of_nat (String.length s)))
                    (c +:+ s)).
      destruct (preprocess_write E out fd (S i) lines _) as [[os' printed]|os'].
      * intros path Hpath. rewrite IH; try done.
        -- by eapply os_write_other.
        -- by rewrite os_write_descriptors.
        -- unfold os_write. rewrite Hfd. simpl.
           rewrite lookup_alter_eq, Hout. simpl.
           by rewrite Nat2Z.id, substring_whole.
      * destruct IH as [Hcontents Hframe]; try done.
        -- by rewrite os_write_descriptors.
        -- unfold os_write. rewrite Hfd. simpl.
           rewrite lookup_alter_eq, Hout. simpl.
           by rewrite Nat2Z.id, substring_whole.
        -- split.
           ++ rewrite Hcontents. cbn [concat_strings].
              by rewrite string_app_assoc.
           ++ intros path Hpath. rewrite Hframe by done.
              by eapply os_write_other.
Qed.

Lemma preprocess_write_frame E out fd lines : ∀ i os,
  os_descriptors os !! fd = Some out →
  ∀ path, path ≠ out →
    os_files
      (match preprocess_write E out fd i lines os with
       | inl (os', _) => os'
       | inr os' => os'
       end) !! path
    = os_files os !! path.
Proof.
  induction lines as [|s lines IH]; intros i os Hfd path Hpath; [done|].
  cbn [preprocess_write]. case_bool_decide.
  - simpl. rewrite lookup_delete_ne by done. by eapply os_write_other.
  - specialize (IH (S i) (os_write os fd s (env_write E i s))).
    destruct (preprocess_write E out fd (S i) lines _) as [[os' printed]|os'];
      (rewrite IH; [by eapply os_write_other
                   |by rewrite os_write_descriptors|done]).
Qed.

Lemma os_open_descriptor os path :
  os_descriptors (os_open os path).2 !! (os_open os path).1 = Some path
  ∧ delete (os_open os path).1 (os_descriptors (os_open os path).2)
    = os_descriptors os.
Proof.
  unfold os_open. simpl. split; [apply lookup_insert_eq|].
  rewrite delete_insert_eq. apply delete_id.
  apply not_elem_of_dom, is_fresh.
Qed.

(** X13: however [preprocess_aidl] returns, it leaves no descriptor open
    and no file but the output changed. *)
Theorem preprocess_aidl_frame E options os ret os' printed :
  preprocess_aidl E options os = Returned (ret, os', printed) →
  os_descriptors os' = os_descriptors os
  ∧ ∀ path, path ≠ output_file_name_ options →
      os_files os' !! path = os_files os !! path.
Proof.
  unfold preprocess_aidl.
  destruct (preprocess_read E (files_to_preprocess_ options) [])
    as [[[]|lines]|]; [by intros [= _ <- _]| |done].
  destruct (env_open E (output_file_name_ options)); [|by intros [= _ <- _]].
  destruct (os_open_descriptor os (output_file_name_ options)) as [Hfd Hclose].
  assert (∀ path, path ≠ output_file_name_ options →
            os_files (os_open os (output_file_name_ options)).2 !! path
            = os_files os !! path) as Hopen.
  { intros path Hpath. unfold os_open. simpl. by rewrite lookup_insert_ne. }
  destruct (os_open os (output_file_name_ options)) as [fd os1].
  cbn [fst snd] in *.
  pose proof (preprocess_write_spec E (output_file_name_ options) fd lines
                0%nat os1) as Hspec.
  pose proof (preprocess_write_frame E (output_file_name_ options) fd lines
                0%nat os1 Hfd) as Hframe.
  destruct (preprocess_write E (output_file_name_ options) fd 0 lines os1)
    as [[os2 printed2]|os2]; intros [= _ <- _].
  - destruct Hspec as (_ & _ & Hdesc & _). split; [by rewrite Hdesc|].
    intros path Hpath. by rewrite Hframe, Hopen.
  - destruct Hspec as [_ Hdesc]. split; [simpl; by rewrite Hdesc|].
    intros path Hpath. simpl. by rewrite Hframe, Hopen.
Qed.

(** X14: when the files parse, the output opens and every write stores its
    whole line, [preprocess_aidl] returns 0 and the output holds the lines
    of the documents, one per file in the order of the files, and nothing
    else. *)
Theorem preprocess_aidl_success E options os docs :
  Forall2 (parses_to E) (files_to_preprocess_ options) docs →
  env_open E (output_file_name_ options) = true →
  (∀ i s, (preprocess_line <$> docs) !! i = Some s →
     env_write E i s = Z.of_nat (String.length s)) →
  Forall (λ doc, Z.of_nat (String.length (preprocess_line doc)) < 2 ^ 31) docs →
  ∃ os',
    preprocess_aidl E options os = Returned (0, os', [])
    ∧ os_files os' !! output_file_name_ options
      = Some (concat_strings (preprocess_line <$> docs)).
Proof.
  intros Hparsed Hopen Hwrites Hsmall. unfold preprocess_aidl.
  rewrite (preprocess_read_parsed E _ docs [] Hparsed), Hopen. simpl app.
  destruct (os_open_descriptor os (output_file_name_ options)) as [Hfd _].
  assert (os_files (os_open os (output_file_name_ options)).2
            !! output_file_name_ options = Some EmptyString) as Hempty
    by apply lookup_insert_eq.
  destruct (os_open os (output_file_name_ options)) as [fd os1].
  cbn [fst snd] in *.
  pose proof (preprocess_write_spec E (output_file_name_ options) fd
                (preprocess_line <$> docs) 0%nat os1) as Hspec.
  pose proof (preprocess_write_files E (output_file_name_ options) fd
                (preprocess_line <$> docs) 0%nat os1 EmptyString Hfd Hempty)
    as Hfiles.
  destruct (preprocess_write E (output_file_name_ options) fd 0
              (preprocess_line <$> docs) os1) as [[os2 printed2]|os2].
  - destruct Hspec as ((j & s & Hj & Hw) & _). exfalso. apply Hw.
    rewrite Nat.add_0_l, (Hwrites j s Hj). symmetry. apply to_int_small.
    apply list_lookup_fmap_Some in Hj as (doc & -> & Hdoc).
    rewrite Forall_forall in Hsmall.
    specialize (Hsmall doc (list_elem_of_lookup_2 _ _ _ Hdoc)). lia.
  - exists (os_close os2 fd). split; [done|].
    destruct Hfiles as [Hcontents _]; [by apply Forall_fmap|].
    by rewrite string_app_nil_l in Hcontents.
Qed.

(** X15: when a file does not parse, the files before it parsing,
    [preprocess_aidl] returns 1 without opening the output: the files are
    all as they were, an output of an earlier run included. *)
Theorem preprocess_aidl_parse_failure E options os pre file post docs :
  files_to_preprocess_ options = pre ++ file :: post →
  Forall2 (parses_to E) pre docs →
  env_ParseFile E file = None →
  preprocess_aidl E options os = Returned (1, os, []).
Proof.
  intros Hfiles Hparsed Hfile. unfold preprocess_aidl.
  by rewrite Hfiles, (preprocess_read_failure E pre file post docs).
Qed.

(** X16: what [preprocess_aidl] writes, [parse_preprocessed_file] reads
    back: when the task returned 0 for well-formed declarations, a reading
    of the contents of its output registers the declaration of every file,
    in order. *)
Theorem preprocess_aidl_read_back {NS : Type} (T : TypeNamespace NS)
    (E E' : Env) options os os' printed docs contents filename types :
  Forall2 (parses_to E) (files_to_preprocess_ options) docs →
  Forall well_formed_declaration docs →
  preprocess_aidl E options os = Returned (0, os', printed) →
  os_files os' !! output_file_name_ options = Some contents →
  env_fopen E' filename = Some (mkStream contents false) →
  parse_preprocessed_file T E' filename types
  = register_declarations T filename 1 (declaration_of <$> docs) types.
Proof.
  intros Hparsed Hwf Hrun Hcontents Hopen.
  assert (contents = concat_strings (preprocess_line <$> docs)) as ->.
  { revert Hrun. unfold preprocess_aidl.
    rewrite (preprocess_read_parsed E _ docs [] Hparsed). simpl app.
    destruct (env_open E (output_file_name_ options)); [|done].
    destruct (os_open_descriptor os (output_file_name_ options)) as [Hfd _].
    assert (os_files (os_open os (output_file_name_ options)).2
              !! output_file_name_ options = Some EmptyString) as Hempty
      by apply lookup_insert_eq.
    destruct (os_open os (output_file_name_ options)) as [fd os1].
    cbn [fst snd] in *.
    pose proof (preprocess_write_files E (output_file_name_ options) fd
                  (preprocess_line <$> docs) 0%nat os1 EmptyString Hfd Hempty)
      as Hfiles.
    destruct (preprocess_write E (output_file_name_ options) fd 0
                (preprocess_line <$> docs) os1) as [[os2 printed2]|os2];
      [done|].
    intros [= <- _]. simpl in Hcontents.
    destruct Hfiles as [Hwritten _].
    - apply Forall_fmap. eapply Forall_impl; [exact Hwf|].
      intros doc (_ & _ & Hlen). simpl.
      assert (sizeof_line - 1 = 1023)%nat as Hsize by done. lia.
    - rewrite string_app_nil_l in Hwritten. congruence. }
  unfold parse_preprocessed_file. rewrite Hopen.
  cbn [stream_bytes stream_read_error].
  rewrite fgets_lines_declarations
    by (done || by apply concat_strings_length).
  pose proof (preprocessed_lines_declarations T filename docs
                (mkPreState 1 (env_uninitialised E' "type")
                   (env_uninitialised E' "fullname")
                   types) Hwf) as Hlines.
  destruct (preprocessed_lines T filename _ (preprocess_line <$> docs))
    as [[types' printed']|st']; cbn [pre_lineno pre_types] in Hlines;
    by rewrite Hlines.
Qed.

(** ** The driver: how it ends *)

Section driver_extras.
Context {NS : Type} (T : TypeNamespace NS) (E : Env).

Lemma load_and_validate_aidl_error preprocessed_files import_paths
    input_file_name types err :
  load_outcome
    (load_and_validate_aidl T E preprocessed_files import_paths input_file_name
       types)
  = LoadError err →
  err ≠ 0.
Proof.
  unfold load_and_validate_aidl.
  destruct (load_preprocessed T E preprocessed_files types)
    as [[err0 types1] printed].
  case_bool_decide as Herr0; [by intros [= <-]|].
  destruct (env_ParseFile E input_file_name) as [p|]; [|by intros [= <-]].
  destruct (parsed_document p) as [[c|q next]|]; try by intros [= <-].
  destruct (check_filename _ _ _ _ _) as [valid d].
  case_bool_decide as Himp; [by intros [= <-]|].
  unfold validate_interface.
  destruct (gather_types T input_file_name _ types1) as [gathered types2].
  destruct (foldl _ _ _) as [err2 types3].
  destruct (check_types T input_file_name c types3) as [[e types4] d'].
  case_bool_decide as Hfinal; [by intros [= <-]|done].
Qed.

(** X17: [load_and_validate_aidl] never returns an error of 0: it returns 0
    exactly when it hands back the interface. *)
Theorem load_returns_zero_with_interface preprocessed_files import_paths
    input_file_name types :
  let r :=
    load_and_validate_aidl T E preprocessed_files import_paths input_file_name
      types in
  load_return r = 0
  ↔ ∃ interface imports, load_outcome r = LoadOk interface imports.
Proof.
  intros r. unfold load_return.
  destruct (load_outcome r) as [err|interface imports] eqn:Hr.
  - apply load_and_validate_aidl_error in Hr.
    split; [done|]. by intros (? & ? & ?).
  - split; [|done]. intros _. by exists interface, imports.
Qed.

(** X18: [compile_aidl_to_cpp] returns 0 exactly when the loading handed
    back an interface and the back end, given that interface and the
    namespace as the loading left it, succeeded. *)
Theorem compile_aidl_to_cpp_success GenerateCpp fresh_types
    (options : CppOptions) :
  let r :=
    load_and_validate_aidl T E [] (ImportPaths options) (InputFileName options)
      fresh_types in
  (compile_aidl_to_cpp T E GenerateCpp fresh_types options).1 = 0
  ↔ ∃ interface imports,
      load_outcome r = LoadOk interface imports
      ∧ GenerateCpp options (load_types r) interface = true.
Proof.
  intros r. unfold compile_aidl_to_cpp. fold r.
  destruct (load_outcome r) as [err|interface imports] eqn:Hr.
  - apply load_and_validate_aidl_error in Hr. cbn [fst].
    split; [done|]. by intros (? & ? & ? & _).
  - cbn [fst]. destruct (GenerateCpp options (load_types r) interface) eqn:HG.
    + split; [|done]. intros _. by exists interface, imports.
    + split; [done|]. intros (i & ? & [= <- _] & HG'). congruence.
Qed.

Lemma check_filename_quiet cwd filename package name line :
  (check_filename cwd filename package name line).1 = true →
  (check_filename cwd filename package name line).2 = [].
Proof. unfold check_filename. cbn [fst snd]. by intros ->. Qed.

Lemma check_filenames_quiet filename doc :
  (check_filenames E filename doc).1 = true →
  (check_filenames E filename doc).2 = [].
Proof.
  destruct doc as [[c|p next]|]; [apply check_filename_quiet| |done].
  unfold check_filenames.
  assert (∀ l acc,
            (foldl (λ '(success, printed) p,
                      let '(valid, d) :=
                        check_filename (env_cwd E) filename
                          (parcel_GetPackage p) (parcel_name p)
                          (parcel_line p) in
                      (success && valid, printed ++ d)) acc l).1 = true →
            acc.1 = true
            ∧ (foldl (λ '(success, printed) p,
                        let '(valid, d) :=
                          check_filename (env_cwd E) filename
                            (parcel_GetPackage p) (parcel_name p)
                            (parcel_line p) in
                        (success && valid, printed ++ d)) acc l).2 = acc.2)
    as Hfold.
  { induction l as [|q l IH]; intros [success printed]; [done|].
    cbn [foldl]. intros Hok. apply IH in Hok as [Hstep ->]. revert Hstep.
    pose proof (check_filename_quiet (env_cwd E) filename
                  (parcel_GetPackage q) (parcel_name q) (parcel_line q))
      as Hquiet.
    destruct (check_filename _ _ _ _ _) as [valid d]. cbn [fst snd] in *.
    intros [-> ->]%andb_true_iff. by rewrite Hquiet, app_nil_r. }
  intros Hok. by apply Hfold in Hok as [_ ->].
Qed.

(** One round of the import loop keeps [err] within 0 and 1, and leaves it
    at 0 only when it wrote nothing. *)
Lemma resolve_import_step import_paths types st import :
  let st' := resolve_import T E import_paths types st import in
  (imp_err st = 0 ∨ imp_err st = 1 → imp_err st' = 0 ∨ imp_err st' = 1)
  ∧ (imp_err st' = 0 → imp_err st = 0 ∧ imp_stderr st' = imp_stderr st).
Proof.
  unfold resolve_import.
  destruct (HasType T types (import_needed_class import)); [done|].
  case_bool_decide as Hpath.
  { simpl. split.
    - intros [->| ->]; by right.
    - intros Hz. apply Z.lor_eq_0_iff in Hz as [_ Hz]. done. }
  destruct (env_ParseFile E _) as [p|].
  2: { simpl. split.
       - intros [->| ->]; by right.
       - intros Hz. apply Z.lor_eq_0_iff in Hz as [_ Hz]. done. }
  pose proof (check_filenames_quiet
                (import_filename
                   (SetFilename import
                      (env_FindImportFile E import_paths
                         (import_needed_class import))))
                (parsed_document p)) as Hquiet.
  destruct (check_filenames E _ (parsed_document p)) as [[] printed];
    cbn [fst snd] in Hquiet; simpl.
  - rewrite Hquiet, app_nil_r by done. done.
  - split.
    + intros [->| ->]; by right.
    + intros Hz. apply Z.lor_eq_0_iff in Hz as [_ Hz]. done.
Qed.

Lemma resolve_imports_spec import_paths types imports : ∀ st,
  let st' := foldl (resolve_import T E import_paths types) st imports in
  (imp_err st = 0 ∨ imp_err st = 1 → imp_err st' = 0 ∨ imp_err st' = 1)
  ∧ (imp_err st' = 0 → imp_err st = 0 ∧ imp_stderr st' = imp_stderr st).
Proof.
  induction imports as [|import imports IH]; intros st; [done|].
  cbn [foldl].
  destruct (IH (resolve_import T E import_paths types st import))
    as [Hrange Hzero].
  destruct (resolve_import_step import_paths types st import)
    as [Hrange' Hzero'].
  split; [auto|]. intros Hz. apply Hzero in Hz as [Hz ->].
  by apply Hzero' in Hz as [-> ->].
Qed.

Lemma load_preprocessed_quiet preprocessed_files types :
  ((load_preprocessed T E preprocessed_files types).1.1 = 0
   ∨ (load_preprocessed T E preprocessed_files types).1.1 = 1)
  ∧ ((load_preprocessed T E preprocessed_files types).1.1 = 0 →
     (load_preprocessed T E preprocessed_files types).2 = []).
Proof.
  unfold load_preprocessed.
  set (step := λ '(err, types, printed) s,
                 let '(e, types, d) := parse_preprocessed_file T E s types in
                 (Z.lor err e, types, printed ++ d)).
  assert (∀ files acc, acc.1.1 = 0 ∨ acc.1.1 = 1 →
            ((foldl step acc files).1.1 = 0 ∨ (foldl step acc files).1.1 = 1)
            ∧ ((foldl step acc files).1.1 = 0 →
               acc.1.1 = 0 ∧ (foldl step acc files).2 = acc.2)) as Hfold.
  { induction files as [|s files IH]; intros [[err types'] printed] Hacc;
      [done|].
    cbn [foldl].
    pose proof (parse_preprocessed_file_return T E s types') as Hret.
    pose proof (parse_preprocessed_file_quiet T E s types') as Hquiet.
    assert ((step (err, types', printed) s).1.1 = 0
            ∨ (step (err, types', printed) s).1.1 = 1) as Hstep.
    { simpl. destruct (parse_preprocessed_file T E s types') as [[e ?] ?].
      simpl in *. destruct Hacc as [->| ->], Hret as [->| ->]; auto. }
    destruct (IH _ Hstep) as [Hrange Hzero]. split; [done|].
    intros Hz. apply Hzero in Hz as [Hz ->]. revert Hz. simpl.
    destruct (parse_preprocessed_file T E s types') as [[e ?] d].
    simpl in *. intros [-> ->]%Z.lor_eq_0_iff.
    by rewrite Hquiet, app_nil_r. }
  destruct (Hfold preprocessed_files (0, types, [])) as [Hrange Hzero];
    [by left|].
  split; [done|]. intros Hz. by apply Hzero in Hz as [_ ->].
Qed.

(** What a call of [validate_interface] that hands back the interface has
    found. *)
Lemma validate_interface_success input_file_name c st types interface imports :
  imp_err st = 0 →
  load_outcome (validate_interface T input_file_name c st types)
  = LoadOk interface imports →
  ∃ types',
    (check_types T input_file_name c types').1.1 = 0
    ∧ ids_return (check_and_assign_method_ids input_file_name (iface_methods c))
      = 0
    ∧ interface
      = mkInterface (iface_name c) (iface_line c) (iface_comments c)
          (iface_oneway c)
          (ids_methods
             (check_and_assign_method_ids input_file_name (iface_methods c)))
          (iface_package c)
    ∧ imports = fst <$> imp_docs st
    ∧ load_stderr (validate_interface T input_file_name c st types)
      = imp_stderr st.
Proof.
  intros Herr. unfold validate_interface. rewrite Herr.
  destruct (gather_types T input_file_name _ types) as [gathered types1].
  set (gather := λ '(err, types) '(import, doc),
                   let '(gathered, types) :=
                     gather_types T (import_filename import) doc types in
                   (if gathered then err else Z.lor err 1, types)).
  assert (∀ docs acc, acc.1 = 0 ∨ acc.1 = 1 →
            (foldl gather acc docs).1 = 0 ∨ (foldl gather acc docs).1 = 1)
    as Hrange.
  { induction docs as [|[import doc] docs IH]; intros [err types'] Hacc;
      [done|].
    cbn [foldl]. apply IH. simpl.
    destruct (gather_types T (import_filename import) doc types')
      as [[] ?]; simpl in *; [done|].
    destruct Hacc as [->| ->]; by right. }
  specialize (Hrange (imp_docs st)
                (if gathered then 0 else Z.lor 0 1, types1)).
  destruct (foldl gather _ (imp_docs st)) as [err2 types2].
  cbn [fst] in Hrange.
  assert (err2 = 0 ∨ err2 = 1) as Herr2
    by (apply Hrange; destruct gathered; auto).
  pose proof (check_types_zero_quiet T input_file_name c types2) as Hquiet.
  destruct (check_types T input_file_name c types2) as [[e types3] d] eqn:Htypes.
  cbn [fst snd] in Hquiet.
  destruct (check_and_assign_method_ids_cases input_file_name (iface_methods c))
    as [[_ Hids]|(_ & printed & _ & Hids)]; rewrite Hids;
    cbn [ids_return ids_methods ids_stderr].
  2: { rewrite bool_decide_true; [done|].
       intros Hz. by apply Z.lor_eq_0_iff in Hz as [_ ?]. }
  case_bool_decide as Hfinal; [done|].
  apply Z.lor_eq_0_iff in Hfinal as [Hfinal _].
  apply Z.lor_eq_0_iff in Hfinal as [Hpackage ->].
  destruct (IsValidPackage T types2 (iface_GetPackage c)).
  2: { exfalso. destruct Herr2 as [->| ->]; by vm_compute in Hpackage. }
  intros [= <- <-]. exists types2. rewrite Htypes. cbn [fst snd load_stderr].
  split; [done|]. split; [done|]. split; [done|]. split; [done|].
  by rewrite Hquiet, !app_nil_r.
Qed.

(** What a call of [load_and_validate_aidl] that hands back the interface
    has gone through. *)
Lemma load_success preprocessed_files import_paths input_file_name types
    interface imports :
  load_outcome
    (load_and_validate_aidl T E preprocessed_files import_paths input_file_name
       types)
  = LoadOk interface imports →
  ∃ p c types',
    env_ParseFile E input_file_name = Some p
    ∧ parsed_document p = Some (DocInterface c)
    ∧ (check_filename (env_cwd E) input_file_name (iface_GetPackage c)
         (iface_name c) (iface_line c)).1 = true
    ∧ (check_types T input_file_name c types').1.1 = 0
    ∧ ids_return (check_and_assign_method_ids input_file_name (iface_methods c))
      = 0
    ∧ interface
      = mkInterface (iface_name c) (iface_line c) (iface_comments c)
          (iface_oneway c)
          (ids_methods
             (check_and_assign_method_ids input_file_name (iface_methods c)))
          (iface_package c)
    ∧ load_stderr
        (load_and_validate_aidl T E preprocessed_files import_paths
           input_file_name types)
      = [].
Proof.
  unfold load_and_validate_aidl.
  destruct (load_preprocessed_quiet preprocessed_files types) as [_ Hquiet].
  destruct (load_preprocessed T E preprocessed_files types)
    as [[err0 types1] printed].
  cbn [fst snd] in Hquiet.
  case_bool_decide as Herr0; [done|].
  rewrite Hquiet by done.
  destruct (env_ParseFile E input_file_name) as [p|]; [|done].
  destruct (parsed_document p) as [[c|q next]|] eqn:Hdoc; try done.
  pose proof (check_filename_quiet (env_cwd E) input_file_name
                (iface_GetPackage c) (iface_name c) (iface_line c)) as Hname.
  destruct (check_filename _ _ _ _ _) as [valid d] eqn:Hcheck.
  cbn [fst snd] in Hname.
  case_bool_decide as Himp; [done|].
  unfold resolve_imports in *.
  destruct (resolve_imports_spec import_paths types1 (parsed_imports p)
              (mkImportState (if valid then err0 else Z.lor err0 1)
                 ([] ++ d) [])) as [_ Hzero].
  apply Hzero in Himp as Hstart. destruct Hstart as [Hstart Hstderr].
  cbn [imp_err imp_stderr] in Hstart, Hstderr.
  destruct valid.
  2: { subst err0. by vm_compute in Hstart. }
  specialize (Hname eq_refl). subst d.
  intros Hok.
  destruct (validate_interface_success _ _ _ _ _ _ Himp Hok)
    as (types' & Htypes & Hids & Hiface & _ & Hprinted).
  exists p, c, types'. split; [done|]. split; [done|].
  split; [by rewrite Hcheck|].
  split; [done|]. split; [done|]. split; [done|].
  by rewrite Hprinted, Hstderr.
Qed.

Lemma assign_method_ids_fields items : ∀ k,
  Forall2 (λ m' m, ∃ id, m' = SetId m id) (assign_method_ids k items) items.
Proof.
  induction items as [|m items IH]; intros k; [constructor|].
  simpl. constructor; [by exists k|apply IH].
Qed.

Lemma ids_methods_fields filename items :
  Forall2 (λ m' m, ∃ id, m' = SetId m id)
    (ids_methods (check_and_assign_method_ids filename items)) items.
Proof.
  destruct (check_and_assign_method_ids_cases filename items)
    as [[_ ->]|(_ & printed & _ & ->)]; cbn [ids_methods].
  - destruct (existsb _ items); [apply assign_method_ids_fields|].
    apply Forall2_same_length_lookup. split; [done|].
    intros i m' m Hm' Hm. exists (GetId m). rewrite Hm in Hm'.
    injection Hm' as <-. by destruct m.
  - apply Forall2_same_length_lookup. split; [done|].
    intros i m' m Hm' Hm. exists (GetId m). rewrite Hm in Hm'.
    injection Hm' as <-. by destruct m.
Qed.

(** X19: an input that [load_and_validate_aidl] accepts lies where its
    interface says: the absolute name of the input file ends with the
    expected name of the interface handed back; and nothing has been
    written. *)
Theorem load_success_filename preprocessed_files import_paths input_file_name
    types interface imports :
  let r :=
    load_and_validate_aidl T E preprocessed_files import_paths input_file_name
      types in
  load_outcome r = LoadOk interface imports →
  (∃ front,
     absolute_name (env_cwd E) input_file_name
     = front +:+ expected_name (iface_GetPackage interface)
                   (iface_name interface))
  ∧ load_stderr r = [].
Proof.
  intros r Hok.
  destruct (load_success _ _ _ _ _ _ Hok)
    as (p & c & types' & _ & _ & Hname & _ & _ & -> & Hquiet).
  split; [|done].
  unfold iface_GetPackage. cbn [iface_package iface_name].
  fold (iface_GetPackage c).
  revert Hname. unfold check_filename. cbn [fst].
  case_bool_decide as Hlen; [|done]. intros Heq%bool_decide_eq_true.
  destruct (string_drop_split (absolute_name (env_cwd E) input_file_name)
              (String.length (absolute_name (env_cwd E) input_file_name)
               - String.length
                   (expected_name (iface_GetPackage c) (iface_name c))))
    as (front & Hfn & _); [lia|].
  exists front. by rewrite Heq at 1.
Qed.

(** X20: the interface that [load_and_validate_aidl] hands back is the one
    parsed, with its name, line, comments, package and oneway flag, and
    with its methods in their order and changed in their identifiers at
    most; its method names are pairwise distinct and it keeps the oneway
    rule. *)
Theorem load_success_interface preprocessed_files import_paths input_file_name
    types interface imports :
  load_outcome
    (load_and_validate_aidl T E preprocessed_files import_paths input_file_name
       types)
  = LoadOk interface imports →
  (∃ p c,
     env_ParseFile E input_file_name = Some p
     ∧ parsed_document p = Some (DocInterface c)
     ∧ (iface_name interface, iface_line interface, iface_comments interface,
        iface_package interface, iface_oneway interface)
       = (iface_name c, iface_line c, iface_comments c, iface_package c,
          iface_oneway c)
     ∧ Forall2 (λ m' m, ∃ id, m' = SetId m id) (iface_methods interface)
         (iface_methods c))
  ∧ NoDup (method_name <$> iface_methods interface)
  ∧ oneway_closed interface.
Proof.
  intros Hok.
  destruct (load_success _ _ _ _ _ _ Hok)
    as (p & c & types' & Hp & Hdoc & _ & Htypes & _ & -> & _).
  apply check_types_zero_clean in Htypes as [Hnodup Hclosed].
  pose proof (ids_methods_fields input_file_name (iface_methods c)) as Hfields.
  cbn [iface_methods iface_name iface_line iface_comments iface_package
       iface_oneway].
  split; [by exists p, c|].
  assert (method_name <$> ids_methods
            (check_and_assign_method_ids input_file_name (iface_methods c))
          = method_name <$> iface_methods c) as Hnames.
  { assert (∀ l' l : list AidlMethod,
              Forall2 (λ m' m, ∃ id, m' = SetId m id) l' l →
              method_name <$> l' = method_name <$> l) as Hgen.
    { induction 1 as [|m' m ms' ms [id ->] _ IH]; [done|].
      rewrite !fmap_cons, IH. done. }
    by apply Hgen. }
  split; [by rewrite Hnames|].
  intros m' Hm' How. cbn [iface_methods iface_oneway] in Hm', How.
  apply list_elem_of_lookup in Hm' as [i Hi].
  destruct (Forall2_lookup_l _ _ _ _ _ Hfields Hi) as (m & Hm & id & ->).
  apply list_elem_of_lookup_2 in Hm.
  apply (Hclosed m Hm How).
Qed.

Lemma resolve_import_stderr import_paths types st import :
  ∃ d,
    imp_stderr (resolve_import T E import_paths types st import)
    = imp_stderr st ++ d.
Proof.
  unfold resolve_import.
  destruct (HasType T types (import_needed_class import));
    [exists []; by rewrite app_nil_r|].
  case_bool_decide; [by eexists|].
  destruct (env_ParseFile E _) as [p|]; [|by eexists].
  destruct (check_filenames E _ _) as [valid d]. by exists d.
Qed.

Lemma resolve_imports_stderr import_paths types imports : ∀ st,
  ∃ d,
    imp_stderr (foldl (resolve_import T E import_paths types) st imports)
    = imp_stderr st ++ d.
Proof.
  induction imports as [|import imports IH]; intros st.
  - exists []. by rewrite app_nil_r.
  - cbn [foldl].
    destruct (IH (resolve_import T E import_paths types st import)) as [d ->].
    destruct (resolve_import_stderr import_paths types st import) as [d' ->].
    exists (d' ++ d). by rewrite app_assoc.
Qed.

(** X21: an import whose class the namespace has already is passed over:
    when that holds of every import, the loop over the imports resolves and
    parses nothing, changes neither [err] nor what was written, and leaves
    every import without a file name of its own. *)
Theorem resolve_imports_known import_paths types err printed imports :
  Forall (λ i, HasType T types (import_needed_class i) = true) imports →
  resolve_imports T E import_paths types err printed imports
  = mkImportState err printed ((λ i, (i, None)) <$> imports).
Proof.
  intros Hknown. unfold resolve_imports.
  assert (∀ docs,
            foldl (resolve_import T E import_paths types)
              (mkImportState err printed docs) imports
            = mkImportState err printed
                (docs ++ ((λ i, (i, None)) <$> imports))) as Hfold.
  { induction Hknown as [|import imports Hi _ IH]; intros docs.
    - by rewrite app_nil_r.
    - cbn [foldl]. unfold resolve_import at 2. rewrite Hi.
      cbn [imp_err imp_stderr imp_docs]. rewrite IH.
      by rewrite <- app_assoc. }
  by rewrite Hfold.
Qed.

(** X22: an import that the namespace does not have and that is found on
    no import path makes [load_and_validate_aidl] return 1 behind the loop
    over the imports, with the diagnostic of that import; the types are not
    gathered. *)
Theorem load_unresolved_import preprocessed_files import_paths input_file_name
    types p c import :
  let loaded := load_preprocessed T E preprocessed_files types in
  let r :=
    load_and_validate_aidl T E preprocessed_files import_paths input_file_name
      types in
  loaded.1.1 = 0 →
  env_ParseFile E input_file_name = Some p →
  parsed_document p = Some (DocInterface c) →
  import ∈ parsed_imports p →
  HasType T loaded.1.2 (import_needed_class import) = false →
  env_FindImportFile E import_paths (import_needed_class import) = EmptyString →
  load_outcome r = LoadError 1
  ∧ load_types r = loaded.1.2
  ∧ DiagImportNotFound (import_from import) (import_line import)
      (import_needed_class import) ∈ load_stderr r.
Proof.
  intros loaded r Hloaded Hp Hdoc Himport Hunknown Hnotfound.
  subst r loaded. unfold load_and_validate_aidl.
  destruct (load_preprocessed T E preprocessed_files types)
    as [[err0 types1] printed].
  cbn [fst snd] in *. subst err0. rewrite bool_decide_false by (by intros H).
  rewrite Hp, Hdoc.
  destruct (check_filename _ _ _ _ _) as [valid d].
  apply list_elem_of_split in Himport as (before & after & ->).
  unfold resolve_imports. rewrite foldl_app. cbn [foldl].
  set (st := foldl (resolve_import T E import_paths types1) _ before).
  assert (imp_err st = 0 ∨ imp_err st = 1) as Hrange.
  { destruct (resolve_imports_spec import_paths types1 before
                (mkImportState (if valid then 0 else Z.lor 0 1)
                   (printed ++ d) [])) as [Hrange _].
    apply Hrange. destruct valid; auto. }
  assert (resolve_import T E import_paths types1 st import
          = mkImportState 1
              (imp_stderr st ++
                 [DiagImportNotFound (import_from import) (import_line import)
                    (import_needed_class import)])
              (imp_docs st ++ [(import, None)])) as ->.
  { unfold resolve_import. rewrite Hunknown, Hnotfound.
    rewrite bool_decide_true by done. f_equal.
    destruct Hrange as [->| ->]; done. }
  set (st1 := mkImportState 1 _ _).
  assert (imp_err (foldl (resolve_import T E import_paths types1) st1 after)
          = 1) as Herr.
  { assert (∀ l s, imp_err s = 1 →
              imp_err (foldl (resolve_import T E import_paths types1) s l) = 1)
      as Hfold.
    { induction l as [|i l IH]; intros s Hs; [done|].
      cbn [foldl]. by apply IH, resolve_import_err_one. }
    by apply Hfold. }
  rewrite Herr. rewrite bool_decide_true by done. cbn [load_outcome].
  split; [done|]. split; [done|]. cbn [load_stderr].
  destruct (resolve_imports_stderr import_paths types1 after st1) as [d' ->].
  apply elem_of_app. left. subst st1. cbn [imp_stderr].
  apply elem_of_app. right. by apply list_elem_of_singleton.
Qed.
End driver_extras.

(** ** The compile tasks and the preprocessed files *)

Section compile_tasks.
Context {NS : Type} (T : TypeNamespace NS) (E : Env).

(** The preprocessed files reach the rest of the loading through the
    namespace alone: when they load, the function goes on as it does
    without them from the namespace that they leave. *)
Lemma load_and_validate_aidl_preprocessed preprocessed_files import_paths
    input_file_name types :
  let loaded := load_preprocessed T E preprocessed_files types in
  load_and_validate_aidl T E preprocessed_files import_paths input_file_name
    types
  = if bool_decide (loaded.1.1 ≠ 0) then
      mkLoadResult (LoadError loaded.1.1) loaded.1.2 loaded.2
    else
      load_and_validate_aidl T E [] import_paths input_file_name loaded.1.2.
Proof.
  intros loaded. subst loaded. unfold load_and_validate_aidl.
  destruct (load_preprocessed_quiet T E preprocessed_files types)
    as [_ Hquiet].
  destruct (load_preprocessed T E preprocessed_files types)
    as [[err types1] printed].
  cbn [fst snd] in *. cbn [load_preprocessed foldl].
  case_bool_decide as Herr; [done|].
  rewrite Hquiet by done. rewrite bool_decide_false by (by intros H).
  by replace err with 0.
Qed.

(** C10: [compile_aidl_to_cpp] loads with an empty list of preprocessed
    files: what it returns is made of the loading of the input and its
    imports from the namespace that the task constructs, and of the back
    end, and does not depend on any file that [fopen] could open.
    [compile_aidl_to_java] loads the files of [options.preprocessed_files_]
    first: when that fails it returns the error with what was written, and
    otherwise it goes on, for the input, its imports and the back end, from
    the namespace that these files have filled; and it fails with 1 when
    one of them cannot be opened. *)
Theorem compile_tasks_preprocessed_files GenerateCpp generate_java fresh_types
    (cpp_options : CppOptions) (java_options : JavaOptions) :
  (let r :=
     load_and_validate_aidl T E [] (ImportPaths cpp_options)
       (InputFileName cpp_options) fresh_types in
   compile_aidl_to_cpp T E GenerateCpp fresh_types cpp_options
   = match load_outcome r with
     | LoadError err => (err, load_stderr r)
     | LoadOk interface _ =>
         (if GenerateCpp cpp_options (load_types r) interface then 0 else 1,
          load_stderr r)
     end)
  ∧ (∀ fopen,
     compile_aidl_to_cpp T (with_fopen E fopen) GenerateCpp fresh_types
       cpp_options
     = compile_aidl_to_cpp T E GenerateCpp fresh_types cpp_options)
  ∧ (let loaded :=
       load_preprocessed T E (preprocessed_files_ java_options) fresh_types in
     let r :=
       load_and_validate_aidl T E [] (import_paths_ java_options)
         (input_file_name_ java_options) loaded.1.2 in
     compile_aidl_to_java T E generate_java fresh_types java_options
     = if bool_decide (loaded.1.1 ≠ 0) then (loaded.1.1, loaded.2)
       else
         match load_outcome r with
         | LoadError err => (err, load_stderr r)
         | LoadOk interface _ =>
             (generate_java
                (if bool_decide
                      (String.length (output_file_name_ java_options) = 0%nat)
                    && bool_decide
                         (0 < String.length (output_base_folder_ java_options))%nat
                 then generate_outputFileName java_options interface
                 else output_file_name_ java_options)
                (input_file_name_ java_options) interface (load_types r),
              load_stderr r)
         end)
  ∧ (∀ f, f ∈ preprocessed_files_ java_options → env_fopen E f = None →
       (compile_aidl_to_java T E generate_java fresh_types java_options).1
       = 1).
Proof.
  split; [|split; [|split]].
  - reflexivity.
  - intros fopen. reflexivity.
  - intros loaded r. subst loaded r. unfold compile_aidl_to_java.
    rewrite load_and_validate_aidl_preprocessed.
    by case_bool_decide.
  - intros f Hf Hopen. unfold compile_aidl_to_java, load_and_validate_aidl.
    pose proof (load_preprocessed_unopened T E
                  (preprocessed_files_ java_options) fresh_types f Hf Hopen)
      as Hload.
    destruct (load_preprocessed T E (preprocessed_files_ java_options)
                fresh_types) as [[err types1] printed].
    simpl in Hload. subst err. reflexivity.
Qed.
End compile_tasks.

Lemma compile_tasks_preprocessed_files_witness :
  compile_aidl_to_java registry preprocessed_foo (λ _ _ _ _, 0) []
    (java_options_for ["pre.txt"] "com/y/IUsesFoo.aidl")
  = (0, [])
  ∧ (compile_aidl_to_java registry preprocessed_foo (λ _ _ _ _, 0) []
       (java_options_for ["missing.txt"] "com/y/IUsesFoo.aidl")).1 = 1.
Proof.
  destruct (compile_tasks_preprocessed_files registry preprocessed_foo
              (λ _ _ _, true) (λ _ _ _ _, 0) []
              (mkCppOptions [] "com/y/IUsesFoo.aidl")
              (java_options_for ["pre.txt"] "com/y/IUsesFoo.aidl"))
    as (_ & _ & Hshared & _).
  destruct (compile_tasks_preprocessed_files registry preprocessed_foo
              (λ _ _ _, true) (λ _ _ _ _, 0) []
              (mkCppOptions [] "com/y/IUsesFoo.aidl")
              (java_options_for ["missing.txt"] "com/y/IUsesFoo.aidl"))
    as (_ & _ & _ & Hmissing).
  split.
  - rewrite Hshared. vm_compute. reflexivity.
  - apply (Hmissing "missing.txt").
    + apply list_elem_of_In. simpl. auto.
    + reflexivity.
Defined.

(** ** The names of the files written *)

Lemma replace_char_app c d (s1 s2 : string) :
  replace_char c d (s1 +:+ s2) = replace_char c d s1 +:+ replace_char c d s2.
Proof.
  induction s1 as [|a s1 IH]; [done|]. rewrite string_app_cons. simpl.
  by rewrite IH.
Qed.

Lemma replace_char_absent c d s :
  string_forall (λ a, negb (Ascii.eqb a c)) s = true → replace_char c d s = s.
Proof.
  induction s as [|a s IH]; simpl; [done|].
  intros [Ha Hs]%andb_true_iff. apply negb_true_iff in Ha.
  by rewrite Ha, IH.
Qed.

Lemma replace_char_Join package :
  Forall well_formed_name package →
  replace_char "."%char OS_PATH_SEPARATOR (Join "." package)
  = Join "/" package.
Proof.
  induction 1 as [|p package [_ Hp] _ IH]; [done|].
  apply (string_forall_impl _ _ _ name_char_no_dot) in Hp.
  destruct package as [|q package].
  - by apply replace_char_absent.
  - rewrite !Join_cons_cons, !replace_char_app, IH.
    by rewrite replace_char_absent.
Qed.

(** X23: for an interface with well-formed names, the Java file is named
    by the base folder, the components of the package and the name, joined
    by the separator, with [.java] behind, as the expected name of the
    input is made of the package and the name with [.aidl] behind; with an
    empty package the separator stands twice behind the base folder. *)
Theorem generate_outputFileName_components (options : JavaOptions)
    (c : AidlInterface) :
  Forall well_formed_name (iface_package c) →
  well_formed_name (iface_name c) →
  generate_outputFileName options c
  = output_base_folder_ options +:+ "/" +:+ Join "/" (iface_package c)
    +:+ "/" +:+ iface_name c +:+ ".java"
  ∧ expected_name (iface_GetPackage c) (iface_name c)
    = (if bool_decide (iface_package c = []) then EmptyString
       else Join "/" (iface_package c) +:+ "/")
      +:+ iface_name c +:+ ".aidl".
Proof.
  intros Hpackage [_ Hname].
  apply (string_forall_impl _ _ _ name_char_no_dot) in Hname.
  unfold generate_outputFileName, expected_name, iface_GetPackage.
  rewrite before_first_absent by done. split.
  - rewrite replace_char_Join by done. by rewrite !string_app_assoc.
  - destruct (iface_package c) as [|p package] eqn:Hp.
    + by rewrite !bool_decide_true.
    + rewrite !bool_decide_false; [|done|].
      * rewrite replace_char_app, replace_char_Join by done.
        by rewrite !string_app_assoc.
      * apply Join_nonempty. by apply Forall_cons in Hpackage as [[? _] _].
Qed.

(** ** The dependency file *)

Lemma dep_file_imports_resolved imports : ∀ first,
  imports ≠ [] →
  Forall (λ i, import_filename i ≠ EmptyString) imports →
  dep_file_imports first imports
  = ((if first then EmptyString else continuation)
     +:+ Join continuation ((λ f, "  " +:+ f) <$> (import_filename <$> imports)),
     false).
Proof.
  induction imports as [|import imports IH]; intros first Hne Hresolved;
    [done|].
  apply Forall_cons in Hresolved as [Himport Hresolved].
  cbn [dep_file_imports]. rewrite bool_decide_false by done.
  destruct imports as [|import' imports].
  - simpl. rewrite !string_app_nil_r. by destruct first.
  - rewrite IH by done. rewrite !fmap_cons, Join_cons_cons.
    destruct first; by rewrite ?string_app_assoc.
Qed.

Lemma dep_file_rules_resolved imports :
  Forall (λ i, import_filename i ≠ EmptyString) imports →
  dep_file_rules imports
  = concat_strings ((λ f, f +:+ " :" +:+ line_feed)
                      <$> (import_filename <$> imports)).
Proof.
  induction 1 as [|import imports Himport _ IH]; [done|].
  cbn [dep_file_rules]. rewrite bool_decide_false by done.
  by rewrite IH.
Qed.

(** X24: when every import has the name of its file, [generate_dep_file]
    writes the dependency file in the make format: the output, then the
    input and the files of the imports, one a line and each line but the
    last continued, an empty line, and an empty rule for the input and for
    each file.  With no import at all, the line of the input ends in a
    space. *)
Theorem generate_dep_file_format GetCodeWriter (options : JavaOptions)
    imports :
  let fileName :=
    if auto_dep_file_ options then output_file_name_ options +:+ ".d"
    else dep_file_name_ options in
  Forall (λ i, import_filename i ≠ EmptyString) imports →
  GetCodeWriter fileName = true →
  generate_dep_file GetCodeWriter options imports
  = DepWritten fileName
      (if bool_decide (imports = []) then
         output_file_name_ options +:+ ": \" +:+ line_feed
         +:+ "  " +:+ input_file_name_ options +:+ " " +:+ line_feed
         +:+ line_feed
         +:+ input_file_name_ options +:+ " :" +:+ line_feed
       else
         dep_file_text (output_file_name_ options) (input_file_name_ options)
           (import_filename <$> imports)).
Proof.
  intros fileName Hresolved Hwriter. unfold generate_dep_file.
  fold fileName. rewrite Hwriter. f_equal.
  destruct imports as [|import imports].
  - rewrite !bool_decide_true by done. simpl.
    by rewrite ?string_app_assoc, ?string_app_nil_r.
  - rewrite !bool_decide_false by done.
    rewrite dep_file_imports_resolved, dep_file_rules_resolved by done.
    unfold dep_file_text.
    set (files := import_filename <$> import :: imports).
    rewrite (fmap_cons _ (input_file_name_ options) files).
    assert ((λ f, "  " +:+ f) <$> files ≠ []) as Hfiles by done.
    destruct ((λ f, "  " +:+ f) <$> files) as [|f fs] eqn:Hfs; [done|].
    rewrite Join_cons_cons. cbn [concat_strings fmap list_fmap].
    by rewrite ?string_app_assoc.
Qed.

(** ** The output directories *)

Lemma split_on_cur c s : ∀ cur,
  split_on c cur s
  = match split_on c EmptyString s with
    | h :: t => (cur +:+ h) :: t
    | [] => []
    end.
Proof.
  induction s as [|a s IH]; intros cur; simpl.
  - by rewrite string_app_nil_r.
  - destruct (Ascii.eqb a c); [by rewrite string_app_nil_r|].
    rewrite string_app_nil_l.
    rewrite (IH (cur +:+ String a EmptyString)), (IH (String a EmptyString)).
    destruct (split_on c EmptyString s) as [|h t]; [done|].
    by rewrite string_app_assoc.
Qed.

Lemma Join_cons_prefix sep a h (l : list string) :
  Join sep ((a +:+ h) :: l) = a +:+ Join sep (h :: l).
Proof.
  destruct l as [|q l]; [done|].
  by rewrite !Join_cons_cons, string_app_assoc.
Qed.

Lemma output_directories_components access rest : ∀ calls made,
  (∀ n, access n = false) →
  output_directories access calls made rest
  = (λ k, made +:+ Join "/" (take k (path_components rest)))
      <$> seq 1 (length (path_components rest) - 1).
Proof.
  unfold path_components.
  induction rest as [|a rest IH]; intros calls made Haccess; [done|].
  cbn [output_directories split_on].
  destruct (Ascii.eqb a OS_PATH_SEPARATOR) eqn:Ha.
  - apply Ascii.eqb_eq in Ha as ->. rewrite Haccess, IH by done.
    pose proof (split_on_nonempty OS_PATH_SEPARATOR rest EmptyString) as Hne.
    destruct (split_on OS_PATH_SEPARATOR EmptyString rest) as [|h t] eqn:Hsplit;
      [done|].
    replace (length (EmptyString :: h :: t) - 1)%nat with (S (length t))
      by (simpl; lia).
    replace (length (h :: t) - 1)%nat with (length t) by (simpl; lia).
    change (seq 1 (S (length t))) with (1%nat :: seq 2 (length t)).
    rewrite fmap_cons. f_equal; [cbn; by rewrite string_app_nil_r|].
    rewrite <- (fmap_S_seq 1), <- list_fmap_compose.
    apply list_fmap_ext. intros i k Hk. cbn [compose].
    apply lookup_seq in Hk as [-> _].
    cbn [take Nat.add]. rewrite Join_cons_cons.
    by rewrite string_app_nil_l, string_app_assoc.
  - rewrite (split_on_cur _ _ (EmptyString +:+ String a EmptyString)).
    rewrite IH by done.
    pose proof (split_on_nonempty OS_PATH_SEPARATOR rest EmptyString) as Hne.
    destruct (split_on OS_PATH_SEPARATOR EmptyString rest) as [|h t]; [done|].
    cbn [length]. apply list_fmap_ext. intros i k Hk.
    apply lookup_seq in Hk as [-> _]. cbn [take Nat.add].
    rewrite string_app_nil_l, Join_cons_prefix.
    by rewrite string_app_assoc.
Qed.

Lemma output_directories_elem access rest : ∀ calls calls' made d,
  d ∈ output_directories access calls made rest →
  d ∈ output_directories (λ _, false) calls' made rest.
Proof.
  induction rest as [|a rest IH]; intros calls calls' made d; [done|].
  cbn [output_directories].
  destruct (Ascii.eqb a OS_PATH_SEPARATOR); [|apply IH].
  destruct (access calls).
  - intros Hd. right. by eapply IH.
  - intros [->|Hd]%elem_of_cons; [by left|]. right. by eapply IH.
Qed.

(** X25: [check_outputFilePath] calls [mkdir] on ancestors of the path
    only, never on the path itself: each argument is the path cut before
    one of its separators.  When [access] does not find the path, the
    ancestors are all made, outermost first; when it finds the path, none
    is. *)
Theorem check_outputFilePath_ancestors access path :
  let ancestors :=
    (λ k, Join "/" (take k (path_components path)))
      <$> seq 1 (length (path_components path) - 1) in
  (∀ d, d ∈ check_outputFilePath access path → d ∈ ancestors)
  ∧ ((∀ n, access n = false) → check_outputFilePath access path = ancestors)
  ∧ ((∀ n, access n = true) → check_outputFilePath access path = []).
Proof.
  intros ancestors. unfold check_outputFilePath.
  assert (output_directories (λ _, false) 0 EmptyString path = ancestors)
    as Hall.
  { rewrite output_directories_components by done.
    apply list_fmap_ext. intros i k _. by rewrite string_app_nil_l. }
  split; [|split].
  - intros d Hd. rewrite <- Hall. by eapply output_directories_elem.
  - intros Haccess. rewrite output_directories_components by done.
    apply list_fmap_ext. intros i k _. by rewrite string_app_nil_l.
  - intros Haccess.
    assert (∀ rest calls made,
              output_directories access calls made rest = []) as Hnone.
    { induction rest as [|a rest IH]; intros calls made; [done|].
      cbn [output_directories]. rewrite Haccess.
      by destruct (Ascii.eqb a OS_PATH_SEPARATOR). }
    apply Hnone.
Qed.

Example check_outputFilePath_nested :
  check_outputFilePath (λ _, false) "out/com/x/IEcho.java"
  = ["out"; "out/com"; "out/com/x"].
Proof. reflexivity. Qed.

Example generate_dep_file_two_imports :
  generate_dep_file (λ _, true)
    (mkJavaOptions COMPILE_AIDL_TO_JAVA false [] [] "I.aidl" "O.java"
       EmptyString EmptyString true [])
    [mkImport "I.aidl" "a.J1" 1 "a/J1.aidl"; mkImport "I.aidl" "a.J2" 2 "a/J2.aidl"]
  = DepWritten "O.java.d"
      ("O.java: \" +:+ line_feed +:+ "  I.aidl \" +:+ line_feed
       +:+ "  a/J1.aidl \" +:+ line_feed +:+ "  a/J2.aidl" +:+ line_feed
       +:+ line_feed +:+ "I.aidl :" +:+ line_feed +:+ "a/J1.aidl :" +:+ line_feed
       +:+ "a/J2.aidl :" +:+ line_feed).
Proof. reflexivity. Qed.

(** ** The properties above on the examples *)

Lemma successful_method_ids_distinct_witness :
  NoDup (GetId <$> ids_methods
           (check_and_assign_method_ids "IEcho.aidl"
              [plain_method "echo" 3; plain_method "add" 4])).
Proof.
  apply (successful_method_ids_distinct "IEcho.aidl"
           [plain_method "echo" 3; plain_method "add" 4]).
  - simpl. lia.
  - reflexivity.
Defined.

Lemma check_types_redefinition_witness :
  (check_types registry "com/x/IDup.aidl" redefining_interface []).1.1 = 1
  ∧ DiagRedefinedMethod "com/x/IDup.aidl" 4 "ping" 2
    ∈ (check_types registry "com/x/IDup.aidl" redefining_interface []).2.
Proof.
  apply (check_types_redefinition registry "com/x/IDup.aidl"
           redefining_interface []
           [plain_method "ping" 2; plain_method "stop" 3]
           (plain_method "ping" 4) [] 0%nat (plain_method "ping" 2)).
  - reflexivity.
  - reflexivity.
Defined.

Lemma check_types_clean_witness :
  (check_types registry "com/y/IUsesFoo.aidl" uses_foo []).1.1 = 0.
Proof.
  apply (check_types_clean registry "com/y/IUsesFoo.aidl" uses_foo []).
  - repeat split.
  - split.
    + apply NoDup_singleton.
    + intros m Hm How. apply list_elem_of_singleton in Hm. by subst m.
Defined.

Lemma parse_preprocessed_file_skips_comments_witness :
  parse_preprocessed_file registry
    (reads ("// generated" +:+ String newline EmptyString
            +:+ "parcelable com.x.Foo;" +:+ String newline EmptyString))
    "pre.txt" []
  = (0, [(UserParcelable, "com.x.Foo")], []).
Proof.
  apply (parse_preprocessed_file_skips_comments registry
           (reads ("// generated" +:+ String newline EmptyString
                   +:+ "parcelable com.x.Foo;" +:+ String newline EmptyString))
           "pre.txt"
           [CommentLine " generated"; DeclarationLine foo_parcelable] []).
  - repeat constructor; try done; vm_compute; lia.
  - reflexivity.
Defined.

Lemma parse_preprocessed_file_blank_line_witness :
  parse_preprocessed_file registry
    (reads ("parcelable Foo;" +:+ String newline (String newline EmptyString)))
    "pre.txt" []
  = (1, [(UserParcelable, "Foo")], [DiagGatherPreprocessedFailed]).
Proof.
  apply (parse_preprocessed_file_blank_line registry
           (reads ("parcelable Foo;"
                   +:+ String newline (String newline EmptyString)))
           "pre.txt" bare_parcelable EmptyString []).
  - repeat constructor; try done; vm_compute; lia.
  - reflexivity.
  - vm_compute. lia.
  - reflexivity.
Defined.

Lemma parse_preprocessed_file_bad_type_witness :
  parse_preprocessed_file registry
    (reads ("enum com.x.E;" +:+ String newline EmptyString
            +:+ "parcelable com.x.Foo;" +:+ String newline EmptyString))
    "pre.txt" []
  = (1, [],
     [DiagBadTypeInLine "pre.txt" 1
        ("enum com.x.E;" +:+ String newline EmptyString)]).
Proof.
  apply (parse_preprocessed_file_bad_type registry
           (reads ("enum com.x.E;" +:+ String newline EmptyString
                   +:+ "parcelable com.x.Foo;" +:+ String newline EmptyString))
           "pre.txt" "enum" "com.x.E"
           ("parcelable com.x.Foo;" +:+ String newline EmptyString) []);
    try done.
  vm_compute. lia.
Defined.

Lemma preprocess_aidl_frame_witness :
  match
    preprocess_aidl failing_write
      (preprocess_options ["com/x/Foo.aidl"; "com/x/IEcho.aidl"] "pre.txt")
      (mkOS {["other.txt" := "kept"]} ∅)
  with
  | Returned (_, os', _) =>
      os_descriptors os' = ∅ ∧ os_files os' !! "other.txt" = Some "kept"
  | NullDereference => False
  end.
Proof.
  destruct (preprocess_aidl failing_write
              (preprocess_options ["com/x/Foo.aidl"; "com/x/IEcho.aidl"]
                 "pre.txt")
              (mkOS {["other.txt" := "kept"]} ∅))
    as [[[ret os'] printed]|] eqn:Hrun.
  - destruct (preprocess_aidl_frame _ _ _ _ _ _ Hrun) as [Hdesc Hfiles].
    split; [exact Hdesc|]. rewrite Hfiles; [reflexivity|discriminate].
  - vm_compute in Hrun. discriminate.
Defined.

Lemma preprocess_aidl_success_witness :
  ∃ os',
    preprocess_aidl failing_write
      (preprocess_options ["com/x/Foo.aidl"] "pre.txt") (mkOS ∅ ∅)
    = Returned (0, os', [])
    ∧ os_files os' !! "pre.txt"
      = Some ("parcelable com.x.Foo;" +:+ String newline EmptyString).
Proof.
  apply (preprocess_aidl_success failing_write
           (preprocess_options ["com/x/Foo.aidl"] "pre.txt") (mkOS ∅ ∅)
           [foo_parcelable]).
  - repeat constructor. eexists. split; reflexivity.
  - reflexivity.
  - intros [|i] s Hs; [|done]. injection Hs as <-. reflexivity.
  - repeat constructor.
Defined.

Lemma preprocess_aidl_parse_failure_witness :
  preprocess_aidl failing_write
    (preprocess_options ["com/x/Foo.aidl"; "missing.aidl"] "pre.txt")
    (mkOS {["pre.txt" := "old"]} ∅)
  = Returned (1, mkOS {["pre.txt" := "old"]} ∅, []).
Proof.
  apply (preprocess_aidl_parse_failure failing_write
           (preprocess_options ["com/x/Foo.aidl"; "missing.aidl"] "pre.txt")
           (mkOS {["pre.txt" := "old"]} ∅)
           ["com/x/Foo.aidl"] "missing.aidl" [] [foo_parcelable]).
  - reflexivity.
  - repeat constructor. by eexists.
  - reflexivity.
Defined.

Lemma preprocess_aidl_read_back_witness :
  parse_preprocessed_file registry
    (reads ("parcelable com.x.Foo;" +:+ String newline EmptyString))
    "pre.txt" []
  = (0, [(UserParcelable, "com.x.Foo")], []).
Proof.
  destruct (preprocess_aidl failing_write
              (preprocess_options ["com/x/Foo.aidl"] "pre.txt") (mkOS ∅ ∅))
    as [[[ret os'] printed]|] eqn:Hrun; [|vm_compute in Hrun; discriminate].
  assert (ret = 0 ∧ os_files os' !! "pre.txt"
                    = Some ("parcelable com.x.Foo;"
                            +:+ String newline EmptyString)) as [-> Hfile].
  { vm_compute in Hrun. injection Hrun as <- <- _. split; reflexivity. }
  apply (preprocess_aidl_read_back registry failing_write
           (reads ("parcelable com.x.Foo;" +:+ String newline EmptyString))
           (preprocess_options ["com/x/Foo.aidl"] "pre.txt") (mkOS ∅ ∅) os'
           printed [foo_parcelable]
           ("parcelable com.x.Foo;" +:+ String newline EmptyString)
           "pre.txt" []).
  - repeat constructor. by eexists.
  - repeat constructor; try done; vm_compute; lia.
  - exact Hrun.
  - exact Hfile.
  - reflexivity.
Defined.

Lemma load_success_filename_witness :
  (∃ front,
     absolute_name "/work" "com/y/IUsesFoo.aidl"
     = front +:+ expected_name "com.y" "IUsesFoo")
  ∧ load_stderr
      (load_and_validate_aidl registry preprocessed_foo ["pre.txt"] []
         "com/y/IUsesFoo.aidl" [])
    = [].
Proof.
  apply (load_success_filename registry preprocessed_foo ["pre.txt"] []
           "com/y/IUsesFoo.aidl" [] uses_foo_loaded [foo_import]).
  vm_compute. reflexivity.
Defined.

Lemma load_success_interface_witness :
  NoDup (method_name <$> iface_methods uses_foo_loaded)
  ∧ oneway_closed uses_foo_loaded.
Proof.
  apply (load_success_interface registry preprocessed_foo ["pre.txt"] []
           "com/y/IUsesFoo.aidl" [] uses_foo_loaded [foo_import]).
  vm_compute. reflexivity.
Defined.

Lemma resolve_imports_known_witness :
  resolve_imports registry preprocessed_foo []
    [(UserParcelable, "com.x.Foo")] 0 [] [foo_import]
  = mkImportState 0 [] [(foo_import, None)].
Proof.
  apply (resolve_imports_known registry preprocessed_foo []
           [(UserParcelable, "com.x.Foo")] 0 [] [foo_import]).
  repeat constructor.
Defined.

Lemma load_unresolved_import_witness :
  load_outcome
    (load_and_validate_aidl registry preprocessed_foo [] []
       "com/y/IUsesFoo.aidl" [])
  = LoadError 1
  ∧ load_types
      (load_and_validate_aidl registry preprocessed_foo [] []
         "com/y/IUsesFoo.aidl" [])
    = []
  ∧ DiagImportNotFound "com/y/IUsesFoo.aidl" 1 "com.x.Foo"
    ∈ load_stderr
        (load_and_validate_aidl registry preprocessed_foo [] []
           "com/y/IUsesFoo.aidl" []).
Proof.
  apply (load_unresolved_import registry preprocessed_foo [] []
           "com/y/IUsesFoo.aidl" []
           (mkParsed (Some (DocInterface uses_foo)) [foo_import]) uses_foo
           foo_import).
  - reflexivity.
  - reflexivity.
  - reflexivity.
  - apply list_elem_of_singleton. reflexivity.
  - reflexivity.
  - reflexivity.
Defined.

Lemma generate_outputFileName_components_witness :
  generate_outputFileName
    (mkJavaOptions COMPILE_AIDL_TO_JAVA false [] [] "com/y/IUsesFoo.aidl"
       EmptyString "gen" EmptyString false [])
    uses_foo
  = "gen/com/y/IUsesFoo.java".
Proof.
  apply (generate_outputFileName_components
           (mkJavaOptions COMPILE_AIDL_TO_JAVA false [] []
              "com/y/IUsesFoo.aidl" EmptyString "gen" EmptyString false [])
           uses_foo).
  - repeat constructor; done.
  - split; done.
Defined.

Lemma generate_dep_file_format_witness :
  generate_dep_file (λ _, true) dep_options
    [mkImport "I.aidl" "a.J1" 1 "a/J1.aidl"]
  = DepWritten "O.java.d"
      (dep_file_text "O.java" "I.aidl" ["a/J1.aidl"]).
Proof.
  apply (generate_dep_file_format (λ _, true) dep_options
           [mkImport "I.aidl" "a.J1" 1 "a/J1.aidl"]).
  - repeat constructor. done.
  - reflexivity.
Defined.
